(* ===== verification/_CoqProject ===== *)
-Q . S2P
Prelude.v
Directory.v
Framing.v
Minimap.v
Canvas.v
MinimapDraw.v
ScoreTable.v
Leaderboard.v
Handshake.v
Session.v
Geo.v
Proxies.v
Orchestrator.v
Connect.v
HttpApi.v
DashText.v
DashView.v
DashState.v
