(* ===== verification/Prelude.v ===== *)
(** * A verification library for slither_bot

    slither_bot harvests statistics from slither.io game servers.  Its
    parts, under [src/]:
    - [getActiveServers.js]: fetches the obfuscated server directory and
      decodes it ([parseServers]) into server descriptors;
    - [socketClient.js]: one [SocketClient] per connection attempt speaks
      the binary game protocol: it answers the version challenge
      ([gotServerVersion], [isValidVersion], [extractStringAndNumber]),
      splits frames into packets ([onMessage]), decodes the arena
      configuration, leaderboard and minimap packets ([gotPacket]) with a
      process-wide score table ([setMscps]), and settles one stats promise
      ([returnStatsPromise], [_succeed], [_fail]);
    - [index.js]: every two minutes runs one session per server through up
      to three proxies ([collectStatsWithProxies], [refreshStats]) and
      serves the results over HTTP ([/stats], and the live viewer count
      on [/live-viewers]);
    - [getProxies.js] loads the proxy list, [geo.js] completes a server's
      address with its country ([lookupGeo]);
    - [public/main.js]: the browser dashboard, which fetches [/stats],
      filters, sorts and renders the servers and counts down to the next
      refresh.

    The data flows from the directory and the sessions through the
    orchestrator's store [latestStats] to the [/stats] route and from
    there to the dashboard; the files compose along that path: the
    orchestrator's transport is the session model, its tasks read the
    proxies through [getProxies] and the geo data through [lookupGeo],
    the process model of [HttpApi] runs the orchestrator, and the
    dashboard consumes the responses [HttpApi] builds.

    ** Files

    - [Prelude] (this file): the JavaScript number vocabulary shared by
      all files (truncated remainder with fix-up, [Uint8Array] reads,
      big-endian 16- and 24-bit reads, [Array.prototype.join], number to
      string), plain objects used as maps ([obj_set], [obj_get],
      [obj_delete], in property order), the hint database [slither] and
      the tactics [zbool],
      [case_ifs].
    - [Directory]: [parseServers] as a fold of its loop body [step] over
      the character codes, with all of the function's locals in the
      record [DecState]; the specification [record_servers]/[encode] of
      one 28-value record.  Theorems: the round trip through the encoder,
      and the port range the decoder really admits (0..109225).
    - [Framing]: [onMessage]'s cursor loop [sub_packets] (fuel = frame
      length, shown sufficient) and the whole handler; the round trip with
      the bundle encoder [bundle].
    - [Minimap]: the ['M'] branch as the size and the list of filled cells
      drawn by the cursor loop [mm_loop]; pixels stay in the grid, never
      exceed [size * size], and skip-only streams draw nothing.
    - [Canvas]: the semantics of the [canvas] package's 2D context as
      far as the sources use it: the drawing state, the [save]/[restore]
      stack, the current path, and the shapes painted ([exec] on [Cmd]);
      [color_at] is the colour the shapes give a point.  Coordinates are
      rationals, angles whole quarter turns.
    - [MinimapDraw]: [drawDynamicMinimapBackground] as its context calls
      and the drawing of the ['M'] branch ([drawMinimap]: the background
      canvas, then one [fillRect] per decoded cell).  Theorems: the
      colours of the background at every point of its disc (the light
      fans are the bottom-right and top-left quarters), with the shadow
      confined to the disc; the picture of the ['M'] branch is the
      decoded cells over the background.
    - [ScoreTable]: the module-level arrays and key, [setMscps], and the
      score formula over real numbers with [None] for [undefined] and NaN;
      which scores are numbers, monotonicity in the fraction, and the
      invariant of reachable tables (with the initial table as the
      exception).
    - [Leaderboard]: the ['l'] branch ([gotLeaderboard], entry loop
      [lb_entries], fuel = packet length); the decoding theorem against
      the entry encoder [encode_entry].
    - [Handshake]: the ['6'] branch: [extractStringAndNumber] with its
      three regular expressions written as backtracking matchers
      ([body_match], [match_init], [concat_all], [match_for]) behind the
      class [Extractor], [isValidVersion] ([decode_challenge],
      [overwrite], [transform], [validate] with the rebinding of [c] as
      [JsVal]) and [clientInit]; how the synchronous code ends is a
      [Completion]: a value, a thrown TypeError (a positive loop bound
      without a secret), or a loop that never ends (a bound beyond
      [2^53 + 1], where [i++] on a double stops growing).  Theorems: on a
      challenge of the server's shape the extractor returns the secret and
      the bound (with the fuel of its [/g] scan shown sufficient); the
      transform equals the specification's formula on letters; the
      challenge is never rejected, and the handshake throws or loops
      exactly on the challenges [version_halts] names.
    - [Session]: the [SocketClient] object as the record [Client], its
      methods in a state-and-effects monad [M] over [World * Client]
      (score table, clock, random draws), and [handle]/[run_events] for
      any sequence of socket, timer and caller events.  Invariants proved
      compositionally ([keeps]): the promise settles at most once,
      [ws.close()] is called at most once and a completed session holds no
      live socket; and the behaviour on the paths that matter: resolution
      once both results are in, the timeout, and the independence of the
      ['l']/['M'] arrival order; and liveness: a promise awaited right
      after construction settles exactly once by the time its timer
      fires, unless the process has stopped.  The process stops on the
      effects [Crash] (an exception rejects the async [gotPacket], whose
      promise [onMessage] drops: with no handler for the rejection Node
      terminates once the current event is handled) and [Hang] (a loop
      that never ends); [run_events] runs no event after them, and they
      arise only from a ['6'] challenge [isValidVersion] cannot return
      on.
    - [Connect]: the constructor of [SocketClient] and [connect()]: the
      options of the [WebSocket] (browser headers, and the proxy's agent
      for a proxied attempt of the orchestrator, none for the direct one).
    - [Geo]: [geo.js]: [normalizeIp], the table [COUNTRY_LOOKUP] built by
      its reducer, [lookupGeo] over the database [db] (standing for
      [geoip-lite]) and the tables of [countries-list].  Theorems:
      [normalizeIp] removes exactly one pair of brackets, and [lookupGeo]
      equals a direct search of the package data (the last entry whose
      code matches up to case).
    - [Proxies]: [getProxies.js]: the decoded file text as Unicode code
      points split into lines ([split_lines], [trim] with the white space
      of the language, Unicode spaces included, [keep_line]), each entry
      turned into a URL ([proxy_url]: the scheme test [has_scheme], the
      credential pattern [auth_parts], [encodeURIComponent] on UTF-8
      bytes) and a label ([proxy_label]), the push loop [load] with the
      [HttpsProxyAgent] check as the input [url_ok], and
      [getRandomProxy].  Theorems: the credentials of a
      [host:port:user:pass] entry are escaped in the URL and masked in the
      label; the label of a fallback entry masks only up to its first
      [@], so a scheme-less [user:pass@host:port] entry with an [@] in its
      password leaks the rest of it (and an entry whose password holds a
      Unicode space, which the credential pattern rejects, shows all of
      it).
    - [Orchestrator]: [index.js]: [drawProxy] (draw without
      replacement), [isIPv6Literal], [collectStatsWithProxies] (the
      attempt loop [proxy_loop] and the IPv6 fallback) over the class
      [Transport] of session outcomes, and [refreshStats] as the state
      machine [ostep] on [OState] (the store [latestStats], kept as an
      association list in property order, the flag [isRefreshing], the
      cycle suspended in [await getActiveServers()], the running tasks),
      with the end of the fetch and the task completions, in any order,
      as events.  Theorems: the first-success characterization and the
      bounded retries of [collectStatsWithProxies]; the store after a
      cycle with distinct keys whatever the completion order (and
      counterexamples with a duplicated key); the flag is set exactly
      while a cycle fetches or runs tasks, overlapping calls are dropped,
      and the flag comes down once the fetch and the tasks are done; and
      [session_transport], the [Transport] built from the [Session]
      model, whose result is the unique settlement of the session's
      promise when the process goes on; within a cycle each task uses
      pairwise distinct proxies of the loaded array.
    - [HttpApi]: [index.js] lines 25-35 and 205-276.  Module [Viewers]:
      the viewer counter ([connect], [cleanup], [beat],
      [broadcastViewerCount]) as the step [vstep]; theorem: the count
      equals the open streams, one heartbeat per stream, and each stream
      was last sent the current count.  Module [App]: the whole process
      ([astep]: refresh intervals, the end of the directory fetch, task
      completions, [/stats] requests with or without [refresh=1], viewer
      events); theorems: each request is answered at most once and at
      most one waits, only while a cycle fetches or runs tasks; a waiting
      request is answered when the cycle ends; and a refresh request
      during a cycle is answered at once from the old store.  Module [Routes]: the route table
      ([dispatch]: [express.static] first, then [/], [/live-viewers] and
      [/stats]) and the process event a request starts.
    - [DashText]: [main.js] text helpers: [escapeHtml] (safe, and
      decoded back to the text), [escapeRegExp] (read back as the literal
      term), [highlightTerm] (the escaped text cut from left to right
      into the term's occurrences, up to case, in [<mark>] tags, and
      units where none starts), [formatUpdated].
    - [DashView]: [applyFilters] with [Array.prototype.sort] as the
      class [ArraySort] of what the language specifies (insertion sort
      is an instance; a stable sort is unique, so every browser shows
      the same order), the comparators; theorem: the servers of the
      region and the search, by descending key (or continent and
      country), ties in the order received; and the markup of [buildCard]:
      every value it pastes is escaped or free of markup characters, the
      country code and the minimap URL only by hypothesis, since the
      template pastes them raw into [src] attributes.
    - [DashState]: the page as the step [dstep] on [DState] (the [state]
      object, the countdown and its intervals, the requests, the viewer
      stream, what the page shows).  Theorems: the list shown is always
      [applyFilters] of the data for the current controls, at most one
      countdown interval runs, the live-viewer stream is open or has one
      reconnection scheduled; a [200] from [/stats] puts the stored
      entries on the page and restarts the countdown; a [202] halts the
      refresh.

    ** Modelling choices

    Numbers, bytes and character codes are [Z]; strings are lists of
    character codes where the code indexes them and [string] where only
    printed. Loops that are not structural take fuel equal to the input
    length, and each such file proves that this fuel is enough (every
    iteration consumes input). Doubles are exact reals in [ScoreTable]:
    rounding is not modelled. The random draws ([Math.random]) and the
    clock are inputs ([World] in [Session], [Inputs] in [Orchestrator]).
    Event-driven code (the session, the orchestrator, the HTTP process,
    the dashboard) is a step function over a state record with an
    inductive reachability relation; invariants are proved by rule
    induction.
    Environment assumptions in [Session]: [open] fires only on a
    connecting socket, a cleared timer never fires, [ws.close()] moves the
    socket to CLOSING.  In [DashState]: a cleared interval never fires,
    and a closed [EventSource] fires no [message] or [error] event.

    ** Not modelled

    Library and platform services are inputs, not models: the
    [geoip-lite] database and the [countries-list] tables, whether
    [HttpsProxyAgent] accepts a URL, the file system, Express's static
    file serving (what it serves for a path is a parameter of the route
    table), [app.listen], the PNG encoding of
    [toDataURL] (the canvas calls before it are modelled, without
    anti-aliasing, and shadows are kept apart from [color_at]), and in
    the browser [localeCompare], [Intl.NumberFormat] and
    [toLocaleTimeString].  The HTTP headers and the JSON text of the
    responses (kept as records) are not modelled, nor the log messages.
    Case conversions of the dashboard and of the leaderboard names are
    written for UTF-16 units 0..255, the range of the names the sessions
    decode ([canonicalize] is exact on every comparison with such a
    unit); [getProxies] handles all of Unicode.  In [Session], after the
    process stops nothing is observable, so [session_transport]'s value
    for such a session is irrelevant. *)

From Stdlib Require Import String Ascii DecimalString HexadecimalString ZArith List Lia Bool.
Import ListNotations.

(** ** Shared vocabulary of the development

    The JavaScript sources manipulate three kinds of numbers: character
    codes of a string ([charCodeAt], UTF-16 code units), the bytes of a
    [Uint8Array] (0..255), and JavaScript doubles used as integers.  All
    three are modelled as [Z]; the predicates below say which range a value
    lives in, and the helpers reproduce the JavaScript operators the
    sources use on them. *)

Declare Scope js_scope.
Delimit Scope js_scope with js.
Open Scope Z_scope.

(** JavaScript's [%] on integers is the truncated remainder [Z.rem]; the
    sources follow it with [if (v < 0) v += n], which [js_mod_fix] writes
    out. *)
Definition js_mod_fix (x n : Z) : Z :=
  let v := Z.rem x n in
  if v <? 0 then v + n else v.

(** [a[i]] on a [Uint8Array]: an index past the end yields [undefined],
    which every bitwise operator of the sources ([<<], [|]) converts to 0. *)
Definition byte_at (a : list Z) (i : nat) : Z := nth i a 0.

Notation "a .[ i ]" := (byte_at a i) (at level 1, left associativity) : js_scope.
Local Open Scope js_scope.

(** [(a[m] << 8) | a[m + 1]], the big-endian 16-bit reads. *)
Definition be16 (a : list Z) (m : nat) : Z :=
  Z.lor (Z.shiftl a.[m] 8) a.[m + 1].

(** [(a[m] << 16) | (a[m + 1] << 8) | a[m + 2]], the 24-bit reads. *)
Definition be24 (a : list Z) (m : nat) : Z :=
  Z.lor (Z.lor (Z.shiftl a.[m] 16) (Z.shiftl a.[m + 1] 8)) a.[m + 2].

(** A byte of a [Uint8Array] and a whole array of them. *)
Definition is_byte (x : Z) : bool := (0 <=? x) && (x <? 256).
Definition is_bytes (a : list Z) : bool := forallb is_byte a.

(** [Number.prototype.toString()] and [toString(16)] on non-negative
    integers, and [Array.prototype.join]. *)
Definition js_dec (x : Z) : string := DecimalString.NilZero.string_of_int (Z.to_int x).
Definition js_hex (x : Z) : string := HexadecimalString.NilZero.string_of_int (Z.to_hex_int x).
Definition js_join (sep : string) (l : list string) : string := String.concat sep l.

(** [arr.reduce((acc, v) => acc * 256 + v, 0)]. *)
Definition reduce_be (l : list Z) : Z := fold_left (fun acc v => acc * 256 + v) l 0.

(** A string literal of the sources as its UTF-16 code units (the
    literals are ASCII). *)
Definition units (s : string) : list Z := map (fun a => Z.of_nat (nat_of_ascii a)) (list_ascii_of_string s).

(** ** Generic lemmas *)

Create HintDb slither.
Create Rewrite HintDb slither.

Lemma js_mod_fix_spec x n : 0 < n -> js_mod_fix x n = x mod n.
Proof.
  intros Hn. unfold js_mod_fix. simpl. destruct (Z.le_gt_cases 0 x) as [H|H].
  - rewrite Z.rem_mod_nonneg by lia. pose proof (Z.mod_pos_bound x n Hn).
    destruct (x mod n <? 0) eqn:E; rewrite ?Z.ltb_lt, ?Z.ltb_ge in E; lia.
  - assert (R : Z.rem x n = - ((-x) mod n)).
    { rewrite <- Z.rem_mod_nonneg by lia. rewrite <- Z.rem_opp_l by lia. f_equal; lia. }
    rewrite R. pose proof (Z.mod_pos_bound (-x) n Hn).
    assert (M : x mod n = if Z.eq_dec ((-x) mod n) 0 then 0 else n - (-x) mod n).
    { replace x with (- (-x)) at 1 by lia. destruct (Z.eq_dec _ _).
      - apply Z.mod_opp_l_z; lia.
      - apply Z.mod_opp_l_nz; lia. }
    rewrite M. destruct (Z.eq_dec _ _) as [E0|E0]; [rewrite E0; reflexivity|].
    destruct (- ((- x) mod n) <? 0) eqn:E; rewrite ?Z.ltb_lt, ?Z.ltb_ge in E; lia.
Qed.

Lemma js_mod_fix_range x n : 0 < n -> 0 <= js_mod_fix x n < n.
Proof. intros Hn. rewrite js_mod_fix_spec by exact Hn. apply Z.mod_pos_bound, Hn. Qed.

Lemma is_byte_spec x : is_byte x = true <-> 0 <= x < 256.
Proof. unfold is_byte. rewrite andb_true_iff, Z.leb_le, Z.ltb_lt. tauto. Qed.

Lemma is_bytes_spec a : is_bytes a = true <-> Forall (fun x => 0 <= x < 256) a.
Proof.
  unfold is_bytes. rewrite forallb_forall, Forall_forall.
  split; intros H x Hx; apply is_byte_spec, H, Hx.
Qed.

Lemma byte_at_range a i : is_bytes a = true -> 0 <= a.[i] < 256.
Proof.
  intros H. apply is_bytes_spec in H. unfold byte_at.
  destruct (Nat.lt_ge_cases i (length a)) as [Hi|Hi].
  - rewrite Forall_forall in H. apply H, nth_In, Hi.
  - rewrite nth_overflow by exact Hi. lia.
Qed.

(** OR-ing a value shifted left by [k] with a value below [2^k] adds them:
    the two bit ranges are disjoint. *)
Lemma lor_shiftl_disjoint a b k :
  0 <= k -> 0 <= b < 2 ^ k -> Z.lor (Z.shiftl a k) b = a * 2 ^ k + b.
Proof.
  intros Hk Hb. rewrite <- Z.shiftl_mul_pow2 by exact Hk.
  rewrite <- Z.add_lor_land.
  assert (Hl : Z.land (Z.shiftl a k) b = 0).
  { apply Z.bits_inj'. intros i Hi. rewrite Z.land_spec, Z.bits_0.
    destruct (Z.lt_ge_cases i k) as [Hik|Hik].
    - rewrite Z.shiftl_spec_low by exact Hik. reflexivity.
    - destruct (Z.eq_dec b 0) as [->|Hb0]; [rewrite Z.bits_0; apply andb_false_r|].
      assert (Hlog : Z.log2 b < k) by (apply Z.log2_lt_pow2; lia).
      rewrite (Z.bits_above_log2 b i); [apply andb_false_r| lia | lia]. }
  rewrite Hl. lia.
Qed.

Lemma be16_spec a m :
  is_bytes a = true -> be16 a m = a.[m] * 256 + a.[m + 1].
Proof.
  intros H. unfold be16. pose proof (byte_at_range a (m + 1) H).
  apply (lor_shiftl_disjoint _ _ 8); lia.
Qed.

Lemma be24_spec a m :
  is_bytes a = true -> be24 a m = a.[m] * 65536 + a.[m + 1] * 256 + a.[m + 2].
Proof.
  intros H. unfold be24.
  pose proof (byte_at_range a m H). pose proof (byte_at_range a (m + 1) H).
  pose proof (byte_at_range a (m + 2) H).
  replace (Z.shiftl a.[m] 16) with (Z.shiftl (Z.shiftl a.[m] 8) 8)
    by (rewrite Z.shiftl_shiftl by lia; reflexivity).
  rewrite <- Z.shiftl_lor.
  rewrite (lor_shiftl_disjoint _ a.[m + 2] 8) by lia.
  rewrite (lor_shiftl_disjoint _ a.[m + 1] 8) by lia. lia.
Qed.

Lemma be16_range a m : is_bytes a = true -> 0 <= be16 a m < 65536.
Proof.
  intros H. rewrite be16_spec by exact H.
  pose proof (byte_at_range a m H). pose proof (byte_at_range a (m + 1) H). lia.
Qed.

Lemma be24_range a m : is_bytes a = true -> 0 <= be24 a m < 16777216.
Proof.
  intros H. rewrite be24_spec by exact H.
  pose proof (byte_at_range a m H). pose proof (byte_at_range a (m + 1) H).
  pose proof (byte_at_range a (m + 2) H). lia.
Qed.

Lemma reduce_be_app l1 l2 :
  reduce_be (l1 ++ l2) = fold_left (fun acc v => acc * 256 + v) l2 (reduce_be l1).
Proof. unfold reduce_be. apply fold_left_app. Qed.

Lemma is_bytes_app a b : is_bytes (a ++ b) = is_bytes a && is_bytes b.
Proof. unfold is_bytes. apply forallb_app. Qed.

Lemma is_bytes_firstn n a : is_bytes a = true -> is_bytes (firstn n a) = true.
Proof.
  rewrite !is_bytes_spec. intros H. rewrite <- (firstn_skipn n a) in H.
  apply Forall_app in H. tauto.
Qed.

Lemma is_bytes_skipn n a : is_bytes a = true -> is_bytes (skipn n a) = true.
Proof.
  rewrite !is_bytes_spec. intros H. rewrite <- (firstn_skipn n a) in H.
  apply Forall_app in H. tauto.
Qed.

Lemma byte_at_cons x a m : (x :: a).[S m] = a.[m].
Proof. reflexivity. Qed.

Lemma be16_cons x a m : be16 (x :: a) (S m) = be16 a m.
Proof. reflexivity. Qed.

Lemma be24_cons x a m : be24 (x :: a) (S m) = be24 a m.
Proof. reflexivity. Qed.

(** ** Plain JavaScript objects used as maps

    An object such as [latestStats] or [COUNTRY_LOOKUP] is the list of
    its properties in creation order: assigning an existing key keeps its
    position, a new key goes last, and [Object.entries] lists them in
    that order. *)
Section Obj.

Context {A : Type}.

(** [o[k] = v]. *)
Fixpoint obj_set (k : string) (v : A) (o : list (string * A)) : list (string * A) :=
  match o with
  | [] => [(k, v)]
  | (k', v') :: t => if String.eqb k' k then (k, v) :: t else (k', v') :: obj_set k v t
  end.

(** [delete o[k]]. *)
Definition obj_delete (k : string) (o : list (string * A)) : list (string * A) :=
  filter (fun kv => negb (String.eqb (fst kv) k)) o.

(** [o[k]], [None] for [undefined]. *)
Definition obj_get (k : string) (o : list (string * A)) : option A :=
  option_map snd (find (fun kv => String.eqb (fst kv) k) o).

Lemma obj_get_set k k' v o :
  obj_get k' (obj_set k v o) = if String.eqb k k' then Some v else obj_get k' o.
Proof.
  induction o as [|[k0 v0] t IH]; unfold obj_get in *; simpl.
  - destruct (String.eqb k k'); reflexivity.
  - destruct (String.eqb_spec k0 k) as [->|Hne]; simpl.
    + destruct (String.eqb k k'); reflexivity.
    + destruct (String.eqb_spec k0 k') as [->|Hne']; simpl.
      * rewrite (proj2 (String.eqb_neq k k')) by congruence. reflexivity.
      * exact IH.
Qed.

Lemma obj_get_delete k k' o :
  obj_get k' (obj_delete k o) = if String.eqb k k' then None else obj_get k' o.
Proof.
  induction o as [|[k0 v0] t IH]; unfold obj_get, obj_delete in *; simpl.
  - destruct (String.eqb k k'); reflexivity.
  - destruct (String.eqb_spec k0 k) as [->|Hne]; simpl.
    + rewrite IH. destruct (String.eqb_spec k k'); reflexivity.
    + destruct (String.eqb_spec k0 k') as [->|Hne']; simpl.
      * rewrite (proj2 (String.eqb_neq k k')) by congruence. reflexivity.
      * exact IH.
Qed.

(** Assigning keeps every other property in place. *)
Lemma obj_set_keys k v o :
  map fst (obj_set k v o) = if existsb (String.eqb k) (map fst o) then map fst o else map fst o ++ [k].
Proof.
  induction o as [|[k0 v0] t IH]; [reflexivity|]. simpl.
  destruct (String.eqb_spec k0 k) as [->|Hne]; simpl.
  - rewrite String.eqb_refl. reflexivity.
  - rewrite IH. rewrite (proj2 (String.eqb_neq k k0)) by congruence. simpl.
    destruct (existsb (String.eqb k) (map fst t)); reflexivity.
Qed.

Lemma find_app {B} (p : B -> bool) (l1 l2 : list B) :
  find p (l1 ++ l2) = match find p l1 with Some x => Some x | None => find p l2 end.
Proof. induction l1 as [|x t IH]; simpl; [reflexivity|]. destruct (p x); [reflexivity | exact IH]. Qed.

(** An object built by a loop of assignments: each key holds the value
    of its last assignment. *)
Lemma obj_get_fold {B} (f : list (string * A) -> B -> list (string * A)) (key : B -> string) (val : B -> A) :
  (forall acc e, f acc e = obj_set (key e) (val e) acc) ->
  forall k l acc, obj_get k (fold_left f l acc) =
    match find (fun e => String.eqb (key e) k) (rev l) with Some e => Some (val e) | None => obj_get k acc end.
Proof.
  intros Hf k l. induction l as [|x t IH]; intros acc; [reflexivity|].
  simpl. rewrite IH, Hf, obj_get_set, find_app. simpl.
  destruct (find _ (rev t)); [reflexivity|]. destruct (String.eqb (key x) k); reflexivity.
Qed.

End Obj.

#[export] Hint Resolve byte_at_range be16_range be24_range is_bytes_firstn is_bytes_skipn : slither.
#[export] Hint Rewrite js_mod_fix_spec be16_spec be24_spec is_bytes_app : slither.

(** Case analysis on the boolean comparisons the sources branch on. *)
Ltac zbool :=
  repeat match goal with
  | H : (_ <? _) = true |- _ => apply Z.ltb_lt in H
  | H : (_ <? _) = false |- _ => apply Z.ltb_ge in H
  | H : (_ <=? _) = true |- _ => apply Z.leb_le in H
  | H : (_ <=? _) = false |- _ => apply Z.leb_gt in H
  | H : (_ =? _) = true |- _ => apply Z.eqb_eq in H
  | H : (_ =? _) = false |- _ => apply Z.eqb_neq in H
  | H : Nat.ltb _ _ = true |- _ => apply Nat.ltb_lt in H
  | H : Nat.ltb _ _ = false |- _ => apply Nat.ltb_ge in H
  | H : Nat.leb _ _ = true |- _ => apply Nat.leb_le in H
  | H : Nat.leb _ _ = false |- _ => apply Nat.leb_gt in H
  | H : Nat.eqb _ _ = true |- _ => apply Nat.eqb_eq in H
  | H : Nat.eqb _ _ = false |- _ => apply Nat.eqb_neq in H
  end.

(** Turn a boolean formula over comparisons into the proposition it decides. *)
Ltac zbool_in H :=
  rewrite ?orb_true_iff, ?andb_true_iff, ?Z.leb_le, ?Z.ltb_lt, ?Z.eqb_eq in H.

(** Split every [if] on a comparison in the goal, then close arithmetic. *)
Ltac case_ifs :=
  repeat match goal with
  | |- context [if ?c then _ else _] => let E := fresh "E" in destruct c eqn:E
  end; zbool.
