(* ===== verification/Directory.v ===== *)
(** * Directory: the server-list decoder of [src/getActiveServers.js]

    [parseServers] walks the directory blob one character at a time with a
    rolling base-26 offset, assembles every two characters into one field
    value, and dispatches the values to the fields of a server record; a
    completed record emits an IPv4 descriptor and, when its address is not
    all zero, an IPv6 one.  [DecState] is the tuple of the function's local
    variables, [step] one iteration of its [while] loop, [field] the
    dispatch on [m], [emit_servers] the [for (z ...)] emission loop and
    [add_to_cluster] the cluster bookkeeping.  The record-level
    specification [record_servers] and the encoder [encode] state what the
    decoder computes. *)

From Stdlib Require Import String ZArith List Lia Bool.
From S2P Require Import Prelude.
Import ListNotations.
Open Scope Z_scope.

(** ** Data *)

(** The descriptor object [o] built at lines 78-97 (the back pointer
    [o.cluo] to its cluster is left out: no consumer reads it). *)
Record Server := mkServer {
  ip : string; po : Z; ac : Z; sid : Z; active : bool; wg : Z; clu : Z }.

(** The cluster object of line 101; [sis] and [ptms] stay empty arrays. *)
Record Cluster := mkCluster { swg : Z; tac : Z; members : list Server }.

(** The local variables of [parseServers] (lines 27-43): [clu_arr] is the
    array [clu] and [cur_active] the variable [active]; the sparse array
    [clus] is an association list from cluster id to cluster. *)
Record DecState := mkDec {
  cav : Z; cv : Z; n : nat; m : nat;
  ia : list Z; i6a : list Z; pa : list Z; aa : list Z; clu_arr : list Z; sida : list Z;
  cur_active : bool; sos : list Server; clus : list (Z * Cluster) }.

Definition init_state : DecState :=
  mkDec 0 0 0 0 [] [] [] [] [] [] false [] [].

(** ** Record emission (lines 73-109) *)

(** [i6a[k] * 256 + i6a[k + 1]] for [k = 0, 2, ..., 14]. *)
Fixpoint hextets (l : list Z) : list Z :=
  match l with
  | a :: b :: t => (a * 256 + b) :: hextets t
  | _ => []
  end.

(** The two iterations [z = 1] and [z = 2] of the emission loop: the IPv4
    descriptor always, the IPv6 one when [i6a] has 16 entries and some
    hextet is nonzero ([gg]); the other fields are shared. *)
Definition emit_servers (act : bool) (ia i6a pa aa clu sida : list Z) : list Server :=
  let po := reduce_be pa in
  let ac := reduce_be aa in
  let sid := reduce_be sida in
  let mk ip c := mkServer ip po ac sid act (ac + 5) c in
  let c0 := nth 0 clu 0 in
  mk (js_join "." (map js_dec ia)) c0 ::
  (if Nat.eqb (length i6a) 16 then
     let q := hextets i6a in
     if existsb (fun h => negb (h =? 0)) q
     then [mk ("[" ++ js_join ":" (map js_hex q) ++ "]")%string (c0 + 1000)]
     else []
   else []).

Fixpoint clus_get (cs : list (Z * Cluster)) (k : Z) : option Cluster :=
  match cs with
  | [] => None
  | (k', c) :: t => if k' =? k then Some c else clus_get t k
  end.

Fixpoint clus_set (cs : list (Z * Cluster)) (k : Z) (c : Cluster) : list (Z * Cluster) :=
  match cs with
  | [] => [(k, c)]
  | (k', c') :: t => if k' =? k then (k, c) :: t else (k', c') :: clus_set t k c
  end.

(** Lines 99-107: fetch or create [clus[o.clu]], add the weight when the
    server is active, append the server, add its load. *)
Definition add_to_cluster (cs : list (Z * Cluster)) (o : Server) : list (Z * Cluster) :=
  let cluo := match clus_get cs (clu o) with
              | Some c => c
              | None => mkCluster 0 0 []
              end in
  let swg' := if active o then swg cluo + wg o else swg cluo in
  clus_set cs (clu o) (mkCluster swg' (tac cluo + ac o) (members cluo ++ [o])).

(** ** The loop (lines 45-122) *)

Definition with_arrays (st : DecState) (ia' i6a' pa' aa' clu' sida' : list Z) (m' : nat)
  : DecState :=
  mkDec (cav st) (cv st) (n st) m' ia' i6a' pa' aa' clu' sida'
        (cur_active st) (sos st) (clus st).

(** The dispatch of a completed value [x] on the field index [m]
    (lines 52-118); each array field advances [m] once it is full, and the
    last one emits the record and resets every array. *)
Definition field (st : DecState) (x : Z) : DecState :=
  match m st with
  | 0%nat =>
      mkDec (cav st) (cv st) (n st) 1 (ia st) (i6a st) (pa st) (aa st) (clu_arr st) (sida st)
            (x <=? 26) (sos st) (clus st)
  | 1%nat =>
      let ia' := ia st ++ [x] in
      with_arrays st ia' (i6a st) (pa st) (aa st) (clu_arr st) (sida st)
                  (if Nat.eqb (length ia') 4 then 2 else 1)
  | 2%nat =>
      let i6a' := i6a st ++ [x] in
      with_arrays st (ia st) i6a' (pa st) (aa st) (clu_arr st) (sida st)
                  (if Nat.eqb (length i6a') 16 then 3 else 2)
  | 3%nat =>
      let pa' := pa st ++ [x] in
      with_arrays st (ia st) (i6a st) pa' (aa st) (clu_arr st) (sida st)
                  (if Nat.eqb (length pa') 2 then 4 else 3)
  | 4%nat =>
      let aa' := aa st ++ [x] in
      with_arrays st (ia st) (i6a st) (pa st) aa' (clu_arr st) (sida st)
                  (if Nat.eqb (length aa') 2 then 5 else 4)
  | 5%nat =>
      let clu' := clu_arr st ++ [x] in
      with_arrays st (ia st) (i6a st) (pa st) (aa st) clu' (sida st)
                  (if Nat.eqb (length clu') 1 then 6 else 5)
  | 6%nat =>
      let sida' := sida st ++ [x] in
      if Nat.eqb (length sida') 2 then
        let os := emit_servers (cur_active st) (ia st) (i6a st) (pa st) (aa st)
                               (clu_arr st) sida' in
        mkDec (cav st) (cv st) (n st) 0 [] [] [] [] [] [] (cur_active st)
              (sos st ++ os) (fold_left add_to_cluster os (clus st))
      else with_arrays st (ia st) (i6a st) (pa st) (aa st) (clu_arr st) sida' 6
  | _ => st
  end.

(** The three loop counters [cav], [cv] and [n], set at once. *)
Definition set_counters (st : DecState) (cav' cv' : Z) (n' : nat) : DecState :=
  mkDec cav' cv' n' (m st) (ia st) (i6a st) (pa st) (aa st) (clu_arr st) (sida st)
        (cur_active st) (sos st) (clus st).

(** One iteration for the character code [c] (lines 46-121): decode a
    base-26 digit against the rolling offset, shift it into [cv], and on
    every second character hand [cv] to [field] and reset it. *)
Definition step (st : DecState) (c : Z) : DecState :=
  let v := js_mod_fix (c - 97 - cav st) 26 in
  let cv' := cv st * 16 + v in
  let cav' := cav st + 7 in
  if Nat.eqb (n st) 1 then set_counters (field st cv') cav' 0 0
  else set_counters st cav' cv' (S (n st)).

(** [parseServers(s)] (lines 24-126): the first character is skipped
    ([j] starts at 1) and only active descriptors are returned. *)
Definition run (s : list Z) : DecState := fold_left step s init_state.

Definition parseServers (s : list Z) : list Server :=
  match s with
  | [] => []
  | _ :: rest => filter active (sos (run rest))
  end.

(** [getActiveServers()] (lines 11-22): a failed fetch yields []. *)
Definition getActiveServers (fetched : option (list Z)) : list Server :=
  match fetched with
  | Some text => parseServers text
  | None => []
  end.

(** Character codes of an ASCII string, as [charCodeAt] returns them. *)
Definition codes (s : string) : list Z :=
  map (fun a => Z.of_nat (Ascii.nat_of_ascii a)) (list_ascii_of_string s).

(** ** Specification: records and their encoding *)

(** A record is the 28 field values the loop consumes: the flag, 4 IPv4
    octets, 16 IPv6 bytes, 2 port bytes, 2 load bytes, the cluster id and
    2 session-id bytes. *)
Definition record_servers (r : list Z) : list Server :=
  emit_servers (nth 0 r 0 <=? 26) (firstn 4 (skipn 1 r)) (firstn 16 (skipn 5 r))
               (firstn 2 (skipn 21 r)) (firstn 2 (skipn 23 r)) (firstn 1 (skipn 25 r))
               (firstn 2 (skipn 26 r)).

(** The inverse of one digit decode at offset [c]. *)
Definition enc_digit (c v : Z) : Z := 97 + (v + c) mod 26.

Fixpoint enc_values (c : Z) (xs : list Z) : list Z :=
  match xs with
  | [] => []
  | x :: t => enc_digit c (x / 16) :: enc_digit (c + 7) (x mod 16) :: enc_values (c + 14) t
  end.

(** A blob: the skipped leading ['a'] and the records' values. *)
Definition encode (recs : list (list Z)) : list Z := 97 :: enc_values 0 (concat recs).

(** ** Decoding inverts the encoding *)

Section Roundtrip.

Lemma enc_digit_decode c v : 0 <= v < 26 -> js_mod_fix (enc_digit c v - 97 - c) 26 = v.
Proof.
  intros Hv. rewrite js_mod_fix_spec by lia. unfold enc_digit.
  replace (97 + (v + c) mod 26 - 97 - c) with ((v + c) mod 26 - c) by lia.
  rewrite Zminus_mod_idemp_l. replace (v + c - c) with v by lia.
  apply Z.mod_small; lia.
Qed.

Lemma field_set_counters st a b k x :
  field (set_counters st a b k) x = set_counters (field st x) a b k.
Proof.
  destruct st as [? ? ? m0 ? ? ? ? ? ? ? ? ?].
  do 7 (destruct m0 as [|m0]; [unfold field; simpl; case_ifs; reflexivity|]).
  reflexivity.
Qed.

Lemma fields_set_counters xs st a b k :
  fold_left field xs (set_counters st a b k) = set_counters (fold_left field xs st) a b k.
Proof.
  revert st. induction xs as [|x xs IH]; intros st; [reflexivity|].
  simpl. rewrite field_set_counters. apply IH.
Qed.

Lemma set_counters_twice st a b k a' b' k' :
  set_counters (set_counters st a b k) a' b' k' = set_counters st a' b' k'.
Proof. reflexivity. Qed.

Lemma set_counters_id st : set_counters st (cav st) (cv st) (n st) = st.
Proof. destruct st; reflexivity. Qed.

(** Two encoded characters feed exactly one value to [field]. *)
Lemma step_pair st x :
  n st = 0%nat -> cv st = 0 -> 0 <= x < 416 ->
  step (step st (enc_digit (cav st) (x / 16))) (enc_digit (cav st + 7) (x mod 16))
  = set_counters (field st x) (cav st + 14) 0 0.
Proof.
  intros Hn Hcv Hx. unfold step. rewrite Hn, Hcv. cbn [Nat.eqb n cav cv set_counters].
  rewrite enc_digit_decode by (split; [apply Z.div_pos | apply Z.div_lt_upper_bound]; lia).
  replace (cav st + 7 + 7) with (cav st + 14) by lia.
  rewrite (enc_digit_decode (cav st + 7)) by (pose proof (Z.mod_pos_bound x 16); lia).
  replace ((0 * 16 + x / 16) * 16 + x mod 16) with x by (pose proof (Z.div_mod x 16); lia).
  fold (set_counters st (cav st + 7) (0 * 16 + x / 16) 1).
  rewrite field_set_counters. reflexivity.
Qed.

Lemma decode_values xs st :
  n st = 0%nat -> cv st = 0 -> Forall (fun x => 0 <= x < 416) xs ->
  fold_left step (enc_values (cav st) xs) st
  = set_counters (fold_left field xs st) (cav st + 14 * Z.of_nat (length xs)) 0 0.
Proof.
  revert st. induction xs as [|x xs IH]; intros st Hn Hcv Hall.
  - cbn [fold_left enc_values length Z.of_nat].
    replace (cav st + 14 * 0) with (cav st) by lia.
    rewrite <- Hn, <- Hcv. symmetry. apply set_counters_id.
  - inversion Hall as [|? ? Hx Hxs]; subst. simpl enc_values. simpl fold_left at 1.
    rewrite step_pair by assumption.
    replace (cav st + 14) with (cav (set_counters (field st x) (cav st + 14) 0 0)) by reflexivity.
    rewrite IH by (reflexivity || assumption). simpl fold_left.
    rewrite fields_set_counters, set_counters_twice. cbn [length cav set_counters].
    f_equal. rewrite Nat2Z.inj_succ. lia.
Qed.

(** A state between records: every field array empty and [m = 0]. *)
Definition between_records (st : DecState) : Prop :=
  m st = 0%nat /\ ia st = [] /\ i6a st = [] /\ pa st = [] /\ aa st = [] /\
  clu_arr st = [] /\ sida st = [].

Lemma field_record st r :
  between_records st -> length r = 28%nat ->
  fold_left field r st =
  mkDec (cav st) (cv st) (n st) 0 [] [] [] [] [] [] (nth 0 r 0 <=? 26)
        (sos st ++ record_servers r) (fold_left add_to_cluster (record_servers r) (clus st)).
Proof.
  intros (Hm & Hia & Hi6 & Hpa & Haa & Hclu & Hsid) Hlen.
  destruct st as [? ? ? m0 ? ? ? ? ? ? ? ? ?]; simpl in *; subst.
  do 28 (destruct r as [|? r]; [discriminate|]).
  destruct r; [reflexivity | discriminate].
Qed.

Lemma field_records recs st :
  between_records st -> Forall (fun r => length r = 28%nat) recs ->
  sos (fold_left field (concat recs) st) = sos st ++ flat_map record_servers recs
  /\ between_records (fold_left field (concat recs) st).
Proof.
  revert st. induction recs as [|r recs IH]; intros st Hb Hall.
  - simpl. rewrite app_nil_r. auto.
  - inversion Hall as [|? ? Hr Hrecs]; subst. simpl concat.
    rewrite fold_left_app, (field_record st r Hb Hr).
    destruct (IH _ (ltac:(repeat split) : between_records (mkDec (cav st) (cv st) (n st) 0
        [] [] [] [] [] [] (nth 0 r 0 <=? 26) (sos st ++ record_servers r)
        (fold_left add_to_cluster (record_servers r) (clus st)))) Hrecs) as [Hs Hb'].
    split; [|exact Hb']. rewrite Hs. cbn [sos flat_map]. symmetry. apply app_assoc.
Qed.

End Roundtrip.

Lemma bytes_small (recs : list (list Z)) :
  Forall (fun r => length r = 28%nat /\ is_bytes r = true) recs ->
  Forall (fun x => 0 <= x < 416) (concat recs).
Proof.
  intros H. apply Forall_concat. eapply Forall_impl; [|exact H].
  intros r [_ Hr]. apply is_bytes_spec in Hr. eapply Forall_impl; [|exact Hr].
  simpl. lia.
Qed.

(** C4: Round trip.  For any list of records of 28 byte values, the blob
    written by the encoder decodes to exactly the active descriptors of
    those records, in order: the character-level loop of [parseServers]
    implements the record-level specification [record_servers]. *)
Theorem parseServers_encode (recs : list (list Z)) :
  Forall (fun r => length r = 28%nat /\ is_bytes r = true) recs ->
  parseServers (encode recs) = filter active (flat_map record_servers recs).
Proof.
  intros H. unfold parseServers, encode, run.
  change (enc_values 0 (concat recs)) with (enc_values (cav init_state) (concat recs)).
  rewrite decode_values by (reflexivity || apply bytes_small, H).
  destruct (field_records recs init_state) as [Hs _].
  - repeat split.
  - eapply Forall_impl; [|exact H]. simpl. tauto.
  - cbn [sos set_counters]. rewrite Hs. reflexivity.
Qed.

(** The record of the specification's example: active, 1.2.3.4, no IPv6
    address, port 1234, load 5, cluster 2, session id 7. *)
Definition example_record : list Z :=
  [0; 1; 2; 3; 4; 0; 0; 0; 0; 0; 0; 0; 0; 0; 0; 0; 0; 0; 0; 0; 0; 4; 210; 0; 5; 2; 0; 7].

Lemma parseServers_encode_witness :
  parseServers (encode [example_record])
  = [mkServer "1.2.3.4" 1234 5 7 true 10 2].
Proof.
  rewrite parseServers_encode.
  - vm_compute. reflexivity.
  - repeat constructor.
Defined.

(** ** Range of the decoded values *)

Definition val_ok (x : Z) : Prop := 0 <= x <= 425.
Definition port_ok (o : Server) : Prop := 0 <= po o <= 425 * 256 + 425.

(** The loop counters: [cv] holds nothing or one digit between values. *)
Definition counters_ok (st : DecState) : Prop :=
  (n st = 0%nat /\ cv st = 0) \/ (n st = 1%nat /\ 0 <= cv st <= 25).

(** The port array never holds more than two values, each at most 425. *)
Definition ports_ok (st : DecState) : Prop :=
  Forall val_ok (pa st) /\
  ((m st <= 3)%nat -> (length (pa st) < 2)%nat) /\ (length (pa st) <= 2)%nat /\
  Forall port_ok (sos st).

Lemma reduce_be_small (l : list Z) :
  Forall val_ok l -> (length l <= 2)%nat -> 0 <= reduce_be l <= 425 * 256 + 425.
Proof.
  unfold val_ok. intros Hl Hlen.
  unfold reduce_be. destruct l as [|a [|b [|c l]]]; simpl in *;
    rewrite ?Forall_cons_iff in Hl; cbv beta in Hl; lia.
Qed.

Lemma emit_servers_po act ia i6a pa aa clu sida :
  Forall (fun o => po o = reduce_be pa) (emit_servers act ia i6a pa aa clu sida).
Proof.
  unfold emit_servers. constructor; [reflexivity|].
  case_ifs; repeat constructor.
Qed.

Lemma field_ports_ok st x : val_ok x -> ports_ok st -> ports_ok (field st x).
Proof.
  intros Hx (Hpa & Hlt & Hle & Hsos). unfold ports_ok, field.
  destruct (m st) as [|[|[|[|[|[|[|m0]]]]]]] eqn:Hm; cbn [with_arrays pa m sos];
    case_ifs; repeat split; auto; rewrite ?length_app in *; cbn [length] in *;
    try solve [ apply Forall_app; auto | intros; lia | rewrite Hm; auto ].
  (* m = 6, the record is emitted *)
  apply Forall_app. split; [exact Hsos|].
  eapply Forall_impl; [|apply emit_servers_po]. intros o Ho. unfold port_ok.
  rewrite Ho. apply reduce_be_small; assumption.
Qed.

Lemma step_ok st c :
  counters_ok st -> ports_ok st -> counters_ok (step st c) /\ ports_ok (step st c).
Proof.
  intros Hc Hp. pose proof (js_mod_fix_range (c - 97 - cav st) 26 ltac:(lia)) as Hv.
  unfold step, counters_ok in *. destruct Hc as [[Hn Hcv]|[Hn Hcv]]; rewrite Hn.
  - simpl. split; [right; split; [reflexivity | lia] | exact Hp].
  - simpl. split; [left; split; reflexivity|].
    destruct (field_ports_ok st (cv st * 16 + js_mod_fix (c - 97 - cav st) 26)) as (? & ? & ? & ?);
      [unfold val_ok; lia | exact Hp |].
    repeat split; assumption.
Qed.

(** C36: Port range.  Every descriptor [parseServers] returns, for any input
    string, has a port between 0 and 425 * 256 + 425 = 109225: the decoder
    never checks the range, so ports outside [1, 65535] are accepted. *)
Theorem parseServers_port_range (s : list Z) :
  Forall port_ok (parseServers s).
Proof.
  destruct s as [|c0 rest]; [constructor|]. unfold parseServers, run.
  assert (H : forall l st, counters_ok st -> ports_ok st ->
             counters_ok (fold_left step l st) /\ ports_ok (fold_left step l st)).
  { induction l as [|c l IH]; intros st Hc Hp; [auto|].
    simpl. destruct (step_ok st c Hc Hp). apply IH; assumption. }
  destruct (H rest init_state) as (_ & _ & _ & _ & Hsos).
  - left; split; reflexivity.
  - repeat split; [constructor | simpl; lia | simpl; lia | constructor].
  - apply Forall_forall. intros o Ho. apply filter_In in Ho.
    rewrite Forall_forall in Hsos. apply Hsos, Ho.
Qed.

(** Port 0 is accepted: the record with port bytes [0; 0] decodes to an
    active descriptor with [po = 0]. *)
Example parseServers_port_zero :
  map po (parseServers (encode [[0; 1; 2; 3; 4; 0; 0; 0; 0; 0; 0; 0; 0; 0; 0; 0; 0; 0; 0; 0;
                                  0; 0; 0; 0; 5; 2; 0; 7]])) = [0].
Proof. vm_compute. reflexivity. Qed.

(** A port above 65535 is accepted: two digits per value reach 415, so the
    port bytes [415; 415] decode to port 106655. *)
Example parseServers_port_above_16_bits :
  map po (parseServers (encode [[0; 1; 2; 3; 4; 0; 0; 0; 0; 0; 0; 0; 0; 0; 0; 0; 0; 0; 0; 0;
                                  0; 415; 415; 0; 5; 2; 0; 7]])) = [106655].
Proof. vm_compute. reflexivity. Qed.
