(* ===== verification/Framing.v ===== *)
(** * Framing: how [SocketClient.onMessage] splits a frame into packets

    [onMessage] ([src/socketClient.js], lines 216-247) receives one binary
    WebSocket frame.  When its first byte is below 32 the frame is a
    bundle: a cursor walks it, reading a two-byte length (when the byte at
    the cursor is below 32) or a one-byte length biased by 32, and hands
    each slice to [gotPacket].  Otherwise the whole frame is one packet.
    [sub_packets] is the cursor loop with fuel, [onMessage_packets] the
    whole handler's list of [gotPacket] arguments in call order. *)

From Stdlib Require Import ZArith List Lia Bool.
From S2P Require Import Prelude.
Import ListNotations.
Open Scope Z_scope.
Local Open Scope js_scope.

(** The loop of lines 229-242 on the unread suffix [rest] of the frame.
    [be16 rest 0] is [(a[m] << 8) | a[m + 1]] (a missing second byte reads
    as 0); [subarray] past the end is truncated, which [firstn] and [skipn]
    reproduce.  Each iteration consumes at least one byte, so the length of
    the frame is enough fuel ([sub_packets_fuel]). *)
Fixpoint sub_packets (fuel : nat) (rest : list Z) : list (list Z) :=
  match fuel with
  | O => []
  | S fuel' =>
      match rest with
      | [] => []
      | b :: t =>
          let '(len, body) :=
            if b <? 32 then (be16 rest 0, skipn 2 rest) else (b - 32, t) in
          firstn (Z.to_nat len) body :: sub_packets fuel' (skipn (Z.to_nat len) body)
      end
  end.

(** Lines 221-246 with [want_etm_s = false], so the cursor starts at 0.
    An empty frame reads [a[0]] as [undefined], which is not below 32, so
    one empty packet is dispatched. *)
Definition onMessage_packets (a : list Z) : list (list Z) :=
  match a with
  | b :: _ => if b <? 32 then sub_packets (length a) a else [a]
  | [] => [[]]
  end.

(** ** Encoders for the two header forms *)

(** A long header: the length as two big-endian bytes, the first below 32. *)
Definition long_frame (p : list Z) : list Z :=
  Z.of_nat (length p) / 256 :: Z.of_nat (length p) mod 256 :: p.

(** A short header: one byte, the length plus 32. *)
Definition short_frame (p : list Z) : list Z := 32 + Z.of_nat (length p) :: p.

Inductive header := Long | Short.

Definition frame_one (h : header) (p : list Z) : list Z :=
  match h with Long => long_frame p | Short => short_frame p end.

Definition fits (h : header) (p : list Z) : Prop :=
  match h with
  | Long => Z.of_nat (length p) < 8192
  | Short => Z.of_nat (length p) < 224
  end.

Definition bundle (ps : list (header * list Z)) : list Z :=
  concat (map (fun '(h, p) => frame_one h p) ps).

(** ** Lemmas *)

Lemma sub_packets_fuel_mono (fuel k : nat) (rest : list Z) :
  (length rest <= fuel)%nat -> sub_packets (fuel + k) rest = sub_packets fuel rest.
Proof.
  revert rest. induction fuel as [|fuel IH]; intros rest Hlen.
  - destruct rest; [destruct k; reflexivity | simpl in Hlen; lia].
  - destruct rest as [|b t]; [reflexivity|]. cbn [sub_packets Nat.add].
    simpl in Hlen. destruct (b <? 32); f_equal; apply IH.
    + rewrite length_skipn. pose proof (length_skipn 2 (b :: t)). simpl in *. lia.
    + rewrite length_skipn. lia.
Qed.

Lemma frame_one_step h p rest fuel :
  fits h p -> Forall (fun x => 0 <= x < 256) p ->
  sub_packets (S fuel) (frame_one h p ++ rest) = p :: sub_packets fuel rest.
Proof.
  intros Hfit Hp. destruct h; simpl in Hfit.
  - unfold frame_one, long_frame. simpl app.
    assert (Hhi : Z.of_nat (length p) / 256 < 32) by (apply Z.div_lt_upper_bound; lia).
    cbn [sub_packets]. rewrite (proj2 (Z.ltb_lt _ _) Hhi).
    assert (Hlen : be16 (Z.of_nat (length p) / 256 :: Z.of_nat (length p) mod 256 :: p ++ rest) 0
                   = Z.of_nat (length p)).
    { unfold be16, byte_at. simpl nth.
      rewrite (lor_shiftl_disjoint _ _ 8) by (pose proof (Z.mod_pos_bound (Z.of_nat (length p)) 256); lia).
      pose proof (Z.div_mod (Z.of_nat (length p)) 256). lia. }
    rewrite Hlen, Nat2Z.id. simpl skipn.
    rewrite firstn_app, firstn_all, Nat.sub_diag, firstn_O, app_nil_r.
    rewrite skipn_app, skipn_all, Nat.sub_diag, skipn_O. reflexivity.
  - unfold frame_one, short_frame. cbn [sub_packets app].
    rewrite (proj2 (Z.ltb_ge _ _)) by lia.
    replace (32 + Z.of_nat (length p) - 32) with (Z.of_nat (length p)) by lia.
    rewrite Nat2Z.id, firstn_app, firstn_all, Nat.sub_diag, firstn_O, app_nil_r.
    rewrite skipn_app, skipn_all, Nat.sub_diag, skipn_O. reflexivity.
Qed.

Lemma length_frame_one h p : (length p < length (frame_one h p))%nat.
Proof. destruct h; simpl; lia. Qed.

Lemma bundle_decode ps :
  Forall (fun '(h, p) => fits h p /\ Forall (fun x => 0 <= x < 256) p) ps ->
  sub_packets (length (bundle ps)) (bundle ps) = map snd ps.
Proof.
  induction ps as [|[h p] ps IH]; intros Hall; [reflexivity|].
  inversion Hall as [|? ? Hhp Hps]; subst. destruct Hhp as [Hfit Hp].
  unfold bundle in *. simpl map. simpl concat. rewrite length_app.
  pose proof (length_frame_one h p) as Hl.
  set (rest := concat (map (fun '(h0, p0) => frame_one h0 p0) ps)).
  replace (length (frame_one h p) + length rest)%nat
    with (S (length rest + (length (frame_one h p) - 1)))%nat by lia.
  rewrite frame_one_step by assumption. simpl.
  rewrite sub_packets_fuel_mono by lia. f_equal. apply IH, Hps.
Qed.

(** ** Properties of [onMessage] *)

(** C6: Framing round trip.  A bundle whose first packet carries a long
    header, and every packet of which fits its header, is split by
    [onMessage] into exactly the packets it was built from, in order. *)
Theorem onMessage_bundle (p0 : list Z) (ps : list (header * list Z)) :
  Forall (fun '(h, p) => fits h p /\ is_bytes p = true) ((Long, p0) :: ps) ->
  onMessage_packets (bundle ((Long, p0) :: ps)) = p0 :: map snd ps.
Proof.
  intros Hall. assert (Hall' : Forall (fun '(h, p) => fits h p /\ Forall (fun x => 0 <= x < 256) p)
                                 ((Long, p0) :: ps)).
  { eapply Forall_impl; [|exact Hall]. intros [h p] [Hf Hb]. split; [exact Hf|].
    apply is_bytes_spec, Hb. }
  inversion Hall as [|? ? Hhd _]; subst. destruct Hhd as [Hfit _]. simpl in Hfit.
  assert (Et : exists t, bundle ((Long, p0) :: ps) = Z.of_nat (length p0) / 256 :: t)
    by (eexists; reflexivity).
  destruct Et as [t Et]. unfold onMessage_packets. rewrite Et.
  rewrite (proj2 (Z.ltb_lt _ _)) by (apply Z.div_lt_upper_bound; lia).
  rewrite <- Et. apply (bundle_decode ((Long, p0) :: ps) Hall').
Qed.

Lemma onMessage_bundle_witness :
  onMessage_packets (bundle [(Long, [108; 1; 2]); (Short, [77; 0; 3])])
  = [[108; 1; 2]; [77; 0; 3]].
Proof.
  apply (onMessage_bundle [108; 1; 2] [(Short, [77; 0; 3])]).
  repeat constructor; simpl; lia.
Defined.

(** C37: Termination of the cursor loop.  Every iteration consumes at least
    one byte, so the length of the frame bounds the number of iterations:
    any larger fuel computes the same packets. *)
Theorem sub_packets_fuel (fuel : nat) (a : list Z) :
  (length a <= fuel)%nat -> sub_packets fuel a = sub_packets (length a) a.
Proof.
  intros H. replace fuel with (length a + (fuel - length a))%nat by lia.
  apply sub_packets_fuel_mono. lia.
Qed.

Lemma sub_packets_fuel_witness :
  sub_packets 10 [0; 2; 97; 98; 33; 99] = sub_packets 6 [0; 2; 97; 98; 33; 99].
Proof. apply (sub_packets_fuel 10 [0; 2; 97; 98; 33; 99]). simpl. lia. Defined.

(** A frame whose first packet uses the one-byte header is not split: the
    two short-framed packets below reach [gotPacket] as one packet. *)
Example onMessage_short_first_not_split :
  onMessage_packets (bundle [(Short, [108; 1]); (Short, [77; 0])])
  = [[34; 108; 1; 34; 77; 0]].
Proof. reflexivity. Qed.
