(* ===== verification/Minimap.v ===== *)
(** * Minimap: the foreground decoder of the ['M'] packet

    The ['M'] branch of [gotPacket] ([src/socketClient.js], lines 289-340)
    reads a two-byte size, clamps it to 512, draws a background (lines
    14-61) and then decodes a run-length, bit-packed stream of pixels: a
    cursor starts at the bottom-right cell and moves right-to-left,
    bottom-to-top; a byte of 128 or more skips cells, any other byte is a
    7-bit mask drawing up to 7 cells.  The model keeps the size and the
    [fillRect] calls in order ([pixels]); [MinimapDraw] turns them into
    the canvas calls and proves what the canvas shows. *)

From Stdlib Require Import ZArith List Lia Bool Sorting.Sorted.
From S2P Require Import Prelude.
Import ListNotations.
Open Scope Z_scope.
Local Open Scope js_scope.

Record Minimap := mkMinimap { size : Z; pixels : list (Z * Z) }.

(** [const BIT_MASKS = [64, 32, 16, 8, 4, 2, 1]] (line 304). *)
Definition BIT_MASKS : list Z := [64; 32; 16; 8; 4; 2; 1].

(** The skip loop of lines 318-325: [k] cells, stopping when the cursor
    wraps above the top row. *)
Fixpoint skip_cells (k : nat) (sz xx yy : Z) : Z * Z :=
  match k with
  | O => (xx, yy)
  | S k' =>
      let xx' := xx - 1 in
      if xx' <? 0 then
        let yy' := yy - 1 in
        if yy' <? 0 then (sz - 1, yy') else skip_cells k' sz (sz - 1) yy'
      else skip_cells k' sz xx' yy
  end.

(** The mask loop of lines 327-335: draw a cell for every set bit, most
    significant first, moving the cursor after each bit. *)
Fixpoint draw_bits (masks : list Z) (k sz xx yy : Z) (px : list (Z * Z))
  : Z * Z * list (Z * Z) :=
  match masks with
  | [] => (xx, yy, px)
  | msk :: ms =>
      let px' := if 0 <? Z.land k msk then px ++ [(xx, yy)] else px in
      let xx' := xx - 1 in
      if xx' <? 0 then
        let yy' := yy - 1 in
        if yy' <? 0 then (sz - 1, yy', px') else draw_bits ms k sz (sz - 1) yy' px'
      else draw_bits ms k sz xx' yy px'
  end.

(** The outer loop of lines 309-337 over the unread bytes. *)
Fixpoint mm_loop (sz : Z) (bytes : list Z) (xx yy : Z) (px : list (Z * Z)) : list (Z * Z) :=
  match bytes with
  | [] => px
  | k :: t =>
      if yy <? 0 then px
      else if 128 <=? k then
        if k =? 255 then
          match t with
          | [] => px
          | b :: t' => let '(xx', yy') := skip_cells (Z.to_nat (126 * b)) sz xx yy in
                       mm_loop sz t' xx' yy' px
          end
        else let '(xx', yy') := skip_cells (Z.to_nat (k - 128)) sz xx yy in
             mm_loop sz t xx' yy' px
      else let '(xx', yy', px') := draw_bits BIT_MASKS k sz xx yy px in
           mm_loop sz t xx' yy' px'
  end.

(** The whole ['M'] branch (lines 291-339) on the packet [a] (its command
    byte at index 0). *)
Definition minimap_of_packet (a : list Z) : Minimap :=
  let sz0 := be16 a 1 in
  let sz := if 512 <? sz0 then 512 else sz0 in
  mkMinimap sz (mm_loop sz (skipn 3 a) (sz - 1) (sz - 1) []).

(** A stream made of skip runs only. *)
Fixpoint skip_only (bytes : list Z) : bool :=
  match bytes with
  | [] => true
  | k :: t =>
      (128 <=? k) &&
      (if k =? 255 then match t with [] => true | _ :: t' => skip_only t' end
       else skip_only t)
  end.

(** ** The cursor invariant *)

Section Cursor.

Variable sz : Z.

(** The cell index of [(x, y)] in the scan order: every move of the
    cursor decreases it by exactly one. *)
Definition pos (p : Z * Z) : Z := snd p * sz + fst p.

Definition cell_ok (p : Z * Z) : Prop := 0 <= fst p < sz /\ 0 <= snd p < sz.

(** The drawn cells lie in the grid, their indices increase along the
    reversed drawing order and exceed the cursor's index; while the cursor
    is on a row, it is inside the grid. *)
Definition cursor_inv (xx yy : Z) (px : list (Z * Z)) : Prop :=
  Forall cell_ok px /\
  StronglySorted (fun p q => pos p < pos q) (rev px) /\
  Forall (fun p => yy * sz + xx < pos p) px /\
  (0 <= yy -> 0 <= xx < sz /\ yy < sz).

(** One cell of progress, drawn or not. *)
Lemma cursor_inv_cell xx yy px px' :
  cursor_inv xx yy px -> 0 <= yy -> (px' = px \/ px' = px ++ [(xx, yy)]) ->
  cursor_inv (if xx - 1 <? 0 then sz - 1 else xx - 1)
             (if xx - 1 <? 0 then yy - 1 else yy) px'.
Proof.
  intros (Hc & Hs & Hp & Hcur) Hy Hpx. destruct (Hcur Hy) as [Hx Hysz].
  assert (Hnew : (if xx - 1 <? 0 then yy - 1 else yy) * sz + (if xx - 1 <? 0 then sz - 1 else xx - 1)
                 = yy * sz + xx - 1) by (case_ifs; nia).
  unfold cursor_inv. rewrite Hnew. clear Hnew.
  assert (Hcur' : 0 <= (if xx - 1 <? 0 then yy - 1 else yy) ->
                  0 <= (if xx - 1 <? 0 then sz - 1 else xx - 1) < sz /\
                  (if xx - 1 <? 0 then yy - 1 else yy) < sz) by (case_ifs; lia).
  assert (Hp' : Forall (fun p => yy * sz + xx - 1 < pos p) px).
  { eapply Forall_impl; [|exact Hp]. intros p Hpos. cbv beta in Hpos. lia. }
  destruct Hpx as [->| ->]; [exact (conj Hc (conj Hs (conj Hp' Hcur')))|].
  refine (conj _ (conj _ (conj _ Hcur'))).
  - apply Forall_app. split; [exact Hc|]. repeat constructor; simpl; lia.
  - rewrite rev_app_distr. simpl. constructor; [exact Hs|].
    apply Forall_rev. eapply Forall_impl; [|exact Hp]. unfold pos. simpl.
    intros p Hpos. cbv beta in Hpos. lia.
  - apply Forall_app. split; [exact Hp'|]. repeat constructor. unfold pos. simpl. lia.
Qed.

Lemma skip_cells_inv k xx yy px :
  0 <= yy -> cursor_inv xx yy px ->
  cursor_inv (fst (skip_cells k sz xx yy)) (snd (skip_cells k sz xx yy)) px.
Proof.
  revert xx yy. induction k as [|k IH]; intros xx yy Hy Hinv; [exact Hinv|].
  pose proof (cursor_inv_cell xx yy px px Hinv Hy (or_introl eq_refl)) as Hc.
  simpl. destruct (xx - 1 <? 0) eqn:E.
  - destruct (yy - 1 <? 0) eqn:E2; [exact Hc|]. zbool. apply IH; [lia | exact Hc].
  - apply IH; [exact Hy | exact Hc].
Qed.

Lemma draw_bits_inv masks k xx yy px :
  0 <= yy -> cursor_inv xx yy px ->
  let '(xx', yy', px') := draw_bits masks k sz xx yy px in cursor_inv xx' yy' px'.
Proof.
  revert xx yy px. induction masks as [|msk ms IH]; intros xx yy px Hy Hinv; [exact Hinv|].
  set (px' := if 0 <? Z.land k msk then px ++ [(xx, yy)] else px).
  assert (Hc : cursor_inv (if xx - 1 <? 0 then sz - 1 else xx - 1)
                          (if xx - 1 <? 0 then yy - 1 else yy) px').
  { apply (cursor_inv_cell xx yy px px' Hinv Hy). unfold px'. destruct (0 <? _); auto. }
  simpl. fold px'. destruct (xx - 1 <? 0) eqn:E.
  - destruct (yy - 1 <? 0) eqn:E2; [exact Hc|]. zbool. apply IH; [lia | exact Hc].
  - apply IH; [exact Hy | exact Hc].
Qed.

(** What survives the end of the loop: the cells and their order. *)
Definition drawn_ok (px : list (Z * Z)) : Prop :=
  Forall cell_ok px /\ StronglySorted (fun p q => pos p < pos q) (rev px).

Lemma cursor_inv_drawn xx yy px : cursor_inv xx yy px -> drawn_ok px.
Proof. intros (Hc & Hs & _). split; assumption. Qed.

Lemma mm_loop_inv n bytes xx yy px :
  (length bytes <= n)%nat -> cursor_inv xx yy px -> drawn_ok (mm_loop sz bytes xx yy px).
Proof.
  revert bytes xx yy px. induction n as [|n IH]; intros bytes xx yy px Hlen Hinv.
  - destruct bytes; [exact (cursor_inv_drawn _ _ _ Hinv) | simpl in Hlen; lia].
  - destruct bytes as [|k t]; [exact (cursor_inv_drawn _ _ _ Hinv)|]. simpl in Hlen. cbn [mm_loop].
    destruct (yy <? 0) eqn:Ey; [exact (cursor_inv_drawn _ _ _ Hinv)|]. zbool.
    destruct (128 <=? k).
    + destruct (k =? 255).
      * destruct t as [|b t']; [exact (cursor_inv_drawn _ _ _ Hinv)|].
        pose proof (skip_cells_inv (Z.to_nat (126 * b)) xx yy px ltac:(lia) Hinv).
        destruct (skip_cells _ sz xx yy). apply IH; [simpl in Hlen; lia | assumption].
      * pose proof (skip_cells_inv (Z.to_nat (k - 128)) xx yy px ltac:(lia) Hinv).
        destruct (skip_cells _ sz xx yy). apply IH; [lia | assumption].
    + pose proof (draw_bits_inv BIT_MASKS k xx yy px ltac:(lia) Hinv) as Hd.
      destruct (draw_bits BIT_MASKS k sz xx yy px) as [[xx' yy'] px'].
      apply IH; [lia | exact Hd].
Qed.

Lemma sorted_cells_length (l : list (Z * Z)) lo :
  StronglySorted (fun p q => pos p < pos q) l -> Forall (fun p => lo <= pos p < sz * sz) l ->
  Z.of_nat (length l) <= Z.max 0 (sz * sz - lo).
Proof.
  revert lo. induction l as [|p l IH]; intros lo Hs Hb; simpl; [lia|].
  inversion Hs as [|? ? Hs' Hlt]; subst. inversion Hb as [|? ? Hp Hl]; subst.
  assert (Hl' : Forall (fun q => pos p + 1 <= pos q < sz * sz) l).
  { rewrite Forall_forall in *. intros q Hq. specialize (Hl q Hq). specialize (Hlt q Hq). lia. }
  specialize (IH (pos p + 1) Hs' Hl'). lia.
Qed.

Lemma cell_pos_range p : cell_ok p -> 0 <= pos p < sz * sz.
Proof. unfold cell_ok, pos. intros [? ?]. nia. Qed.

End Cursor.

Lemma mm_loop_skip_only n sz bytes xx yy px :
  (length bytes <= n)%nat -> skip_only bytes = true -> mm_loop sz bytes xx yy px = px.
Proof.
  revert bytes xx yy px. induction n as [|n IH]; intros bytes xx yy px Hlen Hskip.
  - destruct bytes; [reflexivity | simpl in Hlen; lia].
  - destruct bytes as [|k t]; [reflexivity|]. simpl in Hlen, Hskip. cbn [mm_loop].
    apply andb_true_iff in Hskip as [Hk Hrest]. rewrite Hk.
    destruct (yy <? 0); [reflexivity|]. destruct (k =? 255).
    + destruct t as [|b t']; [reflexivity|]. destruct (skip_cells _ sz xx yy).
      apply IH; [simpl in Hlen; lia | exact Hrest].
    + destruct (skip_cells _ sz xx yy). apply IH; [lia | exact Hrest].
Qed.

(** A stream made only of skip runs draws no foreground pixel: the
    minimap is the bare background. *)
Lemma minimap_skip_only (a : list Z) :
  skip_only (skipn 3 a) = true -> pixels (minimap_of_packet a) = [].
Proof.
  intros H. unfold minimap_of_packet. cbn [pixels].
  apply (mm_loop_skip_only (length (skipn 3 a))); [lia | exact H].
Qed.

(** The size, the grid and the count of the drawn cells. *)
Lemma minimap_bounds_parts (a : list Z) :
  size (minimap_of_packet a) <= 512 /\
  Forall (cell_ok (size (minimap_of_packet a))) (pixels (minimap_of_packet a)) /\
  Z.of_nat (length (pixels (minimap_of_packet a)))
    <= size (minimap_of_packet a) * size (minimap_of_packet a).
Proof.
  unfold minimap_of_packet. cbn [size pixels].
  set (sz := if 512 <? be16 a 1 then 512 else be16 a 1).
  assert (Hsz : sz <= 512) by (unfold sz; case_ifs; lia).
  destruct (mm_loop_inv sz (length (skipn 3 a)) (skipn 3 a) (sz - 1) (sz - 1) [])
    as [Hc Hs]; [lia | refine (conj _ (conj _ (conj _ _))); [constructor.. | intros; lia] |].
  repeat split; [exact Hsz | exact Hc |].
  rewrite <- length_rev.
  pose proof (sorted_cells_length sz (rev (mm_loop sz (skipn 3 a) (sz - 1) (sz - 1) [])) 0 Hs)
    as Hlen.
  assert (Hb : Forall (fun p => 0 <= pos sz p < sz * sz)
                      (rev (mm_loop sz (skipn 3 a) (sz - 1) (sz - 1) []))).
  { apply Forall_rev. eapply Forall_impl; [|exact Hc]. apply cell_pos_range. }
  specialize (Hlen Hb). nia.
Qed.

(** C31: Minimap bounds.  For every ['M'] packet, the decoded size is at
    most 512, every drawn pixel lies inside the [size] x [size] grid, and
    no more than [size * size] pixels are drawn (each cell at most once,
    since the cursor only moves forward); a stream made only of skip
    runs draws none. *)
Theorem minimap_in_bounds (a : list Z) :
  size (minimap_of_packet a) <= 512 /\
  Forall (cell_ok (size (minimap_of_packet a))) (pixels (minimap_of_packet a)) /\
  Z.of_nat (length (pixels (minimap_of_packet a)))
    <= size (minimap_of_packet a) * size (minimap_of_packet a) /\
  (skip_only (skipn 3 a) = true -> pixels (minimap_of_packet a) = []).
Proof.
  destruct (minimap_bounds_parts a) as (H1 & H2 & H3).
  repeat split; [exact H1 | exact H2 | exact H3 | apply minimap_skip_only].
Qed.

(** A mask byte draws its set bits from right to left along the bottom
    row: [0b1000001] on a 4 x 4 grid draws (3, 3) and, after wrapping,
    the last cell of the next row up. *)
Example minimap_mask_example :
  pixels (minimap_of_packet [77; 0; 4; 65]) = [(3, 3); (1, 2)].
Proof. reflexivity. Qed.
