(* ===== verification/Canvas.v ===== *)
(** * Canvas: the 2D drawing context the minimap is drawn with

    [src/socketClient.js] draws through the [canvas] package, whose
    contexts follow the HTML canvas specification.  This file is that
    library's semantics, as far as the sources use it: a context holds a
    drawing state (the styles, the line width and the shadow settings),
    the stack [save()] pushes it on and [restore()] pops, the current path,
    and the list of shapes painted so far.  [fill()] and [stroke()] paint
    the current path with the current style and, when the shadow settings
    make one visible, a shadow.

    Coordinates are rationals ([Q]): a canvas of odd size has its centre
    on a half pixel.  Angles are whole quarter turns, an angle [k] being
    [k * Math.PI / 2] (every angle of the sources is one), and they grow
    clockwise on the screen, the [y] axis pointing down.  The shapes a
    path can describe are those the sources build: a circle, a fan
    [moveTo(c); arc(c, ...); lineTo(c)] around its centre, a straight
    axis-parallel stroke, a rectangle; any other path paints the shape
    [Other], of which nothing is assumed.  [color_at] is the colour the
    painted shapes give a point, later shapes over earlier ones; shadows
    are drawn under their own shape and are kept apart. *)

From Stdlib Require Import QArith Qabs String List Bool ZArith Lia Lqa.
From S2P Require Import Prelude.
Import ListNotations.

Local Open Scope Q_scope.

(** ** Data *)

(** The drawing state of the specification, restricted to the fields the
    sources set. *)
Record DrawState := mkDraw {
  fillStyle : string; strokeStyle : string; lineWidth : Q;
  shadowBlur : Q; shadowOffsetY : Q; shadowColor : string }.

(** The initial drawing state: black styles, width 1, no shadow
    (transparent black). *)
Definition SHADOW_NONE : string := "rgba(0, 0, 0, 0)".
Definition default_draw : DrawState := mkDraw "#000000" "#000000" 1 0 0 SHADOW_NONE.

(** The path operations, angles in quarter turns. *)
Inductive PathOp := MoveTo (x y : Q) | LineTo (x y : Q) | Arc (x y r : Q) (a0 a1 : Z).

Record Shadow := mkShadow { sh_blur : Q; sh_offsetY : Q; sh_color : string }.

Inductive Shape :=
| Sector (cx cy r : Q) (a0 a1 : Z)
| Strip (x0 y0 x1 y1 w : Q)
| Rect (x y w h : Q)
| Other.

(** What a shape is painted with: a colour, or the picture of another
    canvas ([None] where it is transparent). *)
Inductive Ink := Solid (c : string) | Picture (img : Q -> Q -> option string).

Record Paint := mkPaint { shape : Shape; ink : Ink; shadow : option Shadow }.

Record Ctx := mkCtx { draw : DrawState; stack : list DrawState; path : list PathOp; paints : list Paint }.

(** The calls of [CanvasRenderingContext2D] the sources make;
    [DrawImage w h img dx dy] is [drawImage(c, dx, dy)] of a canvas of
    size [w] by [h] showing [img]. *)
Inductive Cmd :=
| Save | Restore
| SetFillStyle (s : string) | SetStrokeStyle (s : string) | SetLineWidth (w : Q)
| SetShadowBlur (b : Q) | SetShadowOffsetY (o : Q) | SetShadowColor (s : string)
| BeginPath | PMoveTo (x y : Q) | PLineTo (x y : Q) | PArc (x y r : Q) (a0 a1 : Z)
| Fill | Stroke | FillRect (x y w h : Q)
| DrawImage (w h : Q) (img : Q -> Q -> option string) (dx dy : Q).

(** ** Semantics *)

Definition Qeqb (a b : Q) : bool := Qeq_bool a b.
Definition Qltb (a b : Q) : bool := negb (Qle_bool b a).

(** A shadow is drawn when its colour is not transparent and it is
    blurred or offset. *)
Definition shadow_of (d : DrawState) : option Shadow :=
  if negb (String.eqb (shadowColor d) SHADOW_NONE) && (negb (Qeqb (shadowBlur d) 0) || negb (Qeqb (shadowOffsetY d) 0))
  then Some (mkShadow (shadowBlur d) (shadowOffsetY d) (shadowColor d)) else None.

(** The region [fill()] paints.  An arc alone is closed by a chord, so it
    is a sector only when it is a whole turn. *)
Definition fill_shape (p : list PathOp) : Shape :=
  match p with
  | [Arc x y r a0 a1] => if (4 <=? a1 - a0)%Z then Sector x y r a0 a1 else Other
  | [MoveTo x y; Arc cx cy r a0 a1; LineTo x' y'] =>
      if Qeqb x cx && Qeqb y cy && Qeqb x' cx && Qeqb y' cy then Sector cx cy r a0 a1 else Other
  | _ => Other
  end.

(** The region [stroke()] paints with butt caps. *)
Definition stroke_shape (w : Q) (p : list PathOp) : Shape :=
  match p with
  | [MoveTo x0 y0; LineTo x1 y1] => Strip x0 y0 x1 y1 w
  | _ => Other
  end.

Definition set_draw (f : DrawState -> DrawState) (c : Ctx) : Ctx := mkCtx (f (draw c)) (stack c) (path c) (paints c).
Definition add_path (o : PathOp) (c : Ctx) : Ctx := mkCtx (draw c) (stack c) (path c ++ [o]) (paints c).
Definition add_paint (p : Paint) (c : Ctx) : Ctx := mkCtx (draw c) (stack c) (path c) (paints c ++ [p]).

Definition exec (c : Ctx) (k : Cmd) : Ctx :=
  let d := draw c in
  match k with
  | Save => mkCtx d (d :: stack c) (path c) (paints c)
  | Restore => match stack c with [] => c | d' :: st => mkCtx d' st (path c) (paints c) end
  | SetFillStyle s => set_draw (fun d => mkDraw s (strokeStyle d) (lineWidth d) (shadowBlur d) (shadowOffsetY d) (shadowColor d)) c
  | SetStrokeStyle s => set_draw (fun d => mkDraw (fillStyle d) s (lineWidth d) (shadowBlur d) (shadowOffsetY d) (shadowColor d)) c
  | SetLineWidth w => set_draw (fun d => mkDraw (fillStyle d) (strokeStyle d) w (shadowBlur d) (shadowOffsetY d) (shadowColor d)) c
  | SetShadowBlur b => set_draw (fun d => mkDraw (fillStyle d) (strokeStyle d) (lineWidth d) b (shadowOffsetY d) (shadowColor d)) c
  | SetShadowOffsetY o => set_draw (fun d => mkDraw (fillStyle d) (strokeStyle d) (lineWidth d) (shadowBlur d) o (shadowColor d)) c
  | SetShadowColor s => set_draw (fun d => mkDraw (fillStyle d) (strokeStyle d) (lineWidth d) (shadowBlur d) (shadowOffsetY d) s) c
  | BeginPath => mkCtx d (stack c) [] (paints c)
  | PMoveTo x y => add_path (MoveTo x y) c
  | PLineTo x y => add_path (LineTo x y) c
  | PArc x y r a0 a1 => add_path (Arc x y r a0 a1) c
  | Fill => add_paint (mkPaint (fill_shape (path c)) (Solid (fillStyle d)) (shadow_of d)) c
  | Stroke => add_paint (mkPaint (stroke_shape (lineWidth d) (path c)) (Solid (strokeStyle d)) (shadow_of d)) c
  | FillRect x y w h => add_paint (mkPaint (Rect x y w h) (Solid (fillStyle d)) (shadow_of d)) c
  | DrawImage w h img dx dy =>
      add_paint (mkPaint (Rect dx dy w h) (Picture (fun x y => img (x - dx) (y - dy))) (shadow_of d)) c
  end.

(** [canvas.getContext("2d")] of a new canvas. *)
Definition init_ctx : Ctx := mkCtx default_draw [] [] [].

Definition run_ctx (ks : list Cmd) : Ctx := fold_left exec ks init_ctx.

(** [createCanvas(w, h)] after the calls [ks]. *)
Record Canvas := mkCanvas { width : Q; height : Q; ctx : Ctx }.

(** ** Geometry *)

(** Quadrant [k] (mod 4) of the screen around a centre, clockwise from
    the right: bottom-right, bottom-left, top-left, top-right. *)
Definition in_quadrant (k : Z) (dx dy : Q) : bool :=
  match (k mod 4)%Z with
  | 0%Z => Qle_bool 0 dx && Qle_bool 0 dy
  | 1%Z => Qle_bool dx 0 && Qle_bool 0 dy
  | 2%Z => Qle_bool dx 0 && Qle_bool dy 0
  | _ => Qle_bool 0 dx && Qle_bool dy 0
  end.

Definition quarters (a0 a1 : Z) : list Z := map (fun i => (a0 + Z.of_nat i)%Z) (seq 0 (Z.to_nat (a1 - a0))).

Definition between (a x b : Q) : bool := Qle_bool a x && Qle_bool x b.

Definition covers (s : Shape) (x y : Q) : bool :=
  match s with
  | Sector cx cy r a0 a1 =>
      let dx := x - cx in let dy := y - cy in
      Qle_bool (dx * dx + dy * dy) (r * r) && ((4 <=? a1 - a0)%Z || existsb (fun k => in_quadrant k dx dy) (quarters a0 a1))
  | Strip x0 y0 x1 y1 w =>
      if Qeqb x0 x1 then Qle_bool (Qabs (x - x0)) (w / 2) && (between y0 y y1 || between y1 y y0)
      else if Qeqb y0 y1 then Qle_bool (Qabs (y - y0)) (w / 2) && (between x0 x x1 || between x1 x x0)
      else false
  | Rect rx ry w h => Qle_bool rx x && Qltb x (rx + w) && Qle_bool ry y && Qltb y (ry + h)
  | Other => false
  end.

(** A paint over what lies under it. *)
Definition paint_over (x y : Q) (acc : option string) (p : Paint) : option string :=
  if covers (shape p) x y then
    match ink p with
    | Solid c => Some c
    | Picture f => match f x y with Some c => Some c | None => acc end
    end
  else acc.

Definition color_at (ps : list Paint) (x y : Q) : option string := fold_left (paint_over x y) ps None.

(** What a canvas shows: nothing outside its bounds. *)
Definition picture (c : Canvas) (x y : Q) : option string :=
  if Qle_bool 0 x && Qltb x (width c) && Qle_bool 0 y && Qltb y (height c) then color_at (paints (ctx c)) x y else None.

(** ** Lemmas *)

Lemma run_app (a b : list Cmd) : run_ctx (a ++ b) = fold_left exec b (run_ctx a).
Proof. unfold run_ctx. apply fold_left_app. Qed.

Lemma color_at_app ps qs x y : color_at (ps ++ qs) x y = fold_left (paint_over x y) qs (color_at ps x y).
Proof. unfold color_at. apply fold_left_app. Qed.

(** Painting paints only: no call but [Restore] and the setters changes
    the drawing state, and a paint is appended. *)
Lemma exec_paint_fill c : paints (exec c Fill) = paints c ++ [mkPaint (fill_shape (path c)) (Solid (fillStyle (draw c))) (shadow_of (draw c))].
Proof. reflexivity. Qed.

Lemma Qle_bool_true a b : Qle_bool a b = true <-> a <= b.
Proof. apply Qle_bool_iff. Qed.

Lemma Qle_bool_false a b : Qle_bool a b = false <-> b < a.
Proof.
  split; intros H.
  - apply Qnot_le_lt. intros Hle. apply Qle_bool_iff in Hle. congruence.
  - apply not_true_iff_false. intros Hle. apply Qle_bool_iff in Hle. apply (Qlt_not_le _ _ H Hle).
Qed.

Lemma Qeqb_true a b : Qeqb a b = true <-> a == b.
Proof. apply Qeq_bool_iff. Qed.

(** A whole turn covers the disk. *)
Lemma covers_disk cx cy r a0 x y :
  covers (Sector cx cy r a0 (a0 + 4)) x y = Qle_bool ((x - cx) * (x - cx) + (y - cy) * (y - cy)) (r * r).
Proof. unfold covers. replace (a0 + 4 - a0)%Z with 4%Z by lia. apply andb_true_r. Qed.

(** A quarter turn covers the disk's quadrant. *)
Lemma covers_quarter cx cy r k x y :
  covers (Sector cx cy r k (k + 1)) x y =
  Qle_bool ((x - cx) * (x - cx) + (y - cy) * (y - cy)) (r * r) && in_quadrant k (x - cx) (y - cy).
Proof.
  unfold covers, quarters. replace (k + 1 - k)%Z with 1%Z by lia. change (Z.to_nat 1) with 1%nat.
  cbn -[Qle_bool in_quadrant]. rewrite Z.add_0_r, orb_false_r. reflexivity.
Qed.

Lemma in_quadrant_spec k dx dy : (0 <= k < 4)%Z ->
  in_quadrant k dx dy = true <->
  (match k with 0%Z => 0 <= dx /\ 0 <= dy | 1%Z => dx <= 0 /\ 0 <= dy | 2%Z => dx <= 0 /\ dy <= 0 | _ => 0 <= dx /\ dy <= 0 end).
Proof.
  intros Hk. unfold in_quadrant. rewrite Z.mod_small by exact Hk.
  assert (k = 0 \/ k = 1 \/ k = 2 \/ k = 3)%Z as [->|[->|[->| ->]]] by lia;
    rewrite andb_true_iff, !Qle_bool_true; reflexivity.
Qed.
