(* ===== verification/MinimapDraw.v ===== *)
(** * MinimapDraw: the drawing of the ['M'] packet, [src/socketClient.js]

    [drawDynamicMinimapBackground(size)] (lines 14-62) paints, on a new
    canvas of [size] by [size], a dark disc with a drop shadow, two
    lighter quarter fans and a crosshair.  The ['M'] branch of [gotPacket]
    (lines 291-339) draws that canvas onto a second one, sets the
    foreground colour and issues one [fillRect(xx, yy, 1, 1)] per cell
    [Minimap] decodes, in the order of [pixels]; [toDataURL] then encodes
    the canvas, which the model leaves to the [canvas] package: what the
    theorems describe is the picture it encodes.  [getOverlayImage]
    (lines 5-12) memoises the loading of an overlay image; nothing in the
    sources calls it. *)

From Stdlib Require Import QArith Qabs String List Bool ZArith Lia Lqa.
From S2P Require Import Prelude Minimap Canvas.
Import ListNotations.

Local Open Scope Q_scope.

(** The colours of the sources. *)
Definition BASE : string := "#202630".
Definition LIGHT : string := "#404650".
Definition FOREGROUND : string := "#696F74".

(** The calls of [drawDynamicMinimapBackground] on its context, with
    [xx = yy = rad = size / 2]; angles in quarter turns ([Math.PI * 2] is
    4, [Math.PI / 2] is 1, [Math.PI] is 2, [1.5 * Math.PI] is 3). *)
Definition background_cmds (size : Z) : list Cmd :=
  let rad := inject_Z size / 2 in
  let xx := rad in
  let yy := rad in
  [Save; SetFillStyle BASE; SetShadowBlur 12; SetShadowOffsetY 3; SetShadowColor "#000000";
   BeginPath; PArc xx yy rad 0 4; Fill; Restore;
   SetFillStyle LIGHT;
   BeginPath; PMoveTo xx yy; PArc xx yy rad 0 1; PLineTo xx yy; Fill;
   BeginPath; PMoveTo xx yy; PArc xx yy rad 2 3; PLineTo xx yy; Fill;
   SetStrokeStyle BASE; SetLineWidth 1;
   BeginPath; PMoveTo xx (yy - rad); PLineTo xx (yy + rad); Stroke;
   BeginPath; PMoveTo (xx - rad) yy; PLineTo (xx + rad) yy; Stroke].

(** [drawDynamicMinimapBackground(size)]. *)
Definition drawDynamicMinimapBackground (size : Z) : Canvas :=
  mkCanvas (inject_Z size) (inject_Z size) (run_ctx (background_cmds size)).

(** [ctx.fillRect(xx, yy, 1, 1)] for a decoded cell. *)
Definition cell_rect (c : Z * Z) : Cmd := FillRect (inject_Z (fst c)) (inject_Z (snd c)) 1 1.

(** Lines 296-339: the background drawn at the origin, the fill style,
    then the cells. *)
Definition minimap_canvas (mm : Minimap) : Canvas :=
  let bg := drawDynamicMinimapBackground (size mm) in
  mkCanvas (inject_Z (size mm)) (inject_Z (size mm))
    (run_ctx ([DrawImage (width bg) (height bg) (picture bg) 0 0; SetFillStyle FOREGROUND] ++ map cell_rect (pixels mm))).

(** The canvas the ['M'] branch encodes for the packet [a]. *)
Definition drawMinimap (a : list Z) : Canvas := minimap_canvas (minimap_of_packet a).

(** [getOverlayImage()]: the promise is created by the first call, the
    later ones return it. *)
Definition getOverlayImage {I : Type} (loadImage : I) (overlayImagePromise : option I) : I * option I :=
  match overlayImagePromise with
  | Some p => (p, overlayImagePromise)
  | None => (loadImage, Some loadImage)
  end.

(** The cell [(i, j)] holds the point [(x, y)]. *)
Definition in_cell (x y : Q) (c : Z * Z) : bool :=
  Qle_bool (inject_Z (fst c)) x && Qltb x (inject_Z (fst c) + 1) &&
  Qle_bool (inject_Z (snd c)) y && Qltb y (inject_Z (snd c) + 1).

(** ** Lemmas *)

Lemma Qeqb_refl a : Qeqb a a = true.
Proof. apply Qeq_bool_refl. Qed.

(** The five shapes the background paints, in order. *)
Lemma background_paints size :
  let rad := inject_Z size / 2 in
  paints (ctx (drawDynamicMinimapBackground size)) =
  [mkPaint (Sector rad rad rad 0 4) (Solid BASE) (Some (mkShadow 12 3 "#000000"));
   mkPaint (Sector rad rad rad 0 1) (Solid LIGHT) None;
   mkPaint (Sector rad rad rad 2 3) (Solid LIGHT) None;
   mkPaint (Strip rad (rad - rad) rad (rad + rad) 1) (Solid BASE) None;
   mkPaint (Strip (rad - rad) rad (rad + rad) rad 1) (Solid BASE) None].
Proof.
  intros rad. unfold drawDynamicMinimapBackground, background_cmds, run_ctx. fold rad.
  cbn -[Qeqb Qle_bool]. unfold fill_shape. rewrite !Qeqb_refl. reflexivity.
Qed.

Lemma Qminus_0_r_eq x : x - 0 = x.
Proof. destruct x as [n d]. unfold Qminus, Qplus. simpl. rewrite Z.mul_1_r, Z.add_0_r, Pos.mul_1_r. reflexivity. Qed.

(** The cells are painted over what lies under them, in the fill
    colour and without shadow. *)
Lemma run_cells px : forall c acc x y,
  draw c = mkDraw FOREGROUND "#000000" 1 0 0 SHADOW_NONE ->
  fold_left (paint_over x y) (paints (fold_left exec (map cell_rect px) c)) acc =
  if existsb (in_cell x y) px then Some FOREGROUND else fold_left (paint_over x y) (paints c) acc.
Proof.
  induction px as [|p t IH]; intros c acc x y Hd; [reflexivity|].
  simpl. rewrite IH by (simpl; exact Hd). simpl. rewrite fold_left_app. simpl.
  unfold paint_over at 1. rewrite Hd. simpl.
  destruct (in_cell x y p) eqn:E; unfold in_cell in E; simpl in *; rewrite E; simpl;
    destruct (existsb (in_cell x y) t); reflexivity.
Qed.

(** Inside the disc, [|dy| <= rad]. *)
Lemma disc_abs dx dy r : dx * dx + dy * dy <= r * r -> Qabs dy <= Qabs r.
Proof. intros H. apply Qabs_case; intros; apply Qabs_case; intros; nra. Qed.

Lemma between_true a x b : a <= x -> x <= b -> between a x b = true.
Proof. intros H1 H2. unfold between. apply andb_true_iff. split; apply Qle_bool_true; assumption. Qed.

(** Inside the disc, the diameter through the centre spans the point. *)
Lemma diameter_spans r y dx : dx * dx + (y - r) * (y - r) <= r * r ->
  (between (r - r) y (r + r) || between (r + r) y (r - r)) = true.
Proof.
  intros H. assert (Hd : 0 <= dx * dx) by nra.
  destruct (Qlt_le_dec r 0) as [Hr|Hr]; apply orb_true_iff; [right|left]; apply between_true; nra.
Qed.

Lemma strip_vertical r x y : (x - r) * (x - r) + (y - r) * (y - r) <= r * r ->
  covers (Strip r (r - r) r (r + r) 1) x y = Qle_bool (Qabs (x - r)) (1 # 2).
Proof.
  intros H. unfold covers. rewrite Qeqb_refl, (diameter_spans r y (x - r) H), andb_true_r. reflexivity.
Qed.

Lemma strip_horizontal r x y : (x - r) * (x - r) + (y - r) * (y - r) <= r * r ->
  covers (Strip (r - r) r (r + r) r 1) x y = Qle_bool (Qabs (y - r)) (1 # 2).
Proof.
  intros H. unfold covers. destruct (Qeqb (r - r) (r + r)) eqn:E.
  - apply Qeqb_true in E. assert (Hr : r == 0) by lra.
    assert (Hd : (x - r) * (x - r) + (y - r) * (y - r) <= 0) by (rewrite Hr in H |- *; lra).
    assert (Hx : x - r == 0) by nra. assert (Hy : y - r == 0) by nra.
    rewrite (Qabs_wd _ _ Hy), (Qabs_wd (x - _) 0) by lra.
    replace (between r y r || between r y r) with true; [reflexivity|].
    symmetry. apply orb_true_iff. left. apply between_true; lra.
  - rewrite Qeqb_refl. rewrite Qplus_comm in H.
    rewrite (diameter_spans r x (y - r)) by lra. rewrite andb_true_r. reflexivity.
Qed.

(** Away from the axes, the sign tests agree with their strict forms. *)
Lemma sign_off_axis d : ~ Qabs d <= 1 # 2 -> Qle_bool 0 d = Qltb 0 d /\ Qle_bool d 0 = Qltb d 0.
Proof.
  intros H. unfold Qltb. revert H. apply Qabs_case; intros Hs H.
  - split; destruct (Qle_bool 0 d) eqn:E1, (Qle_bool d 0) eqn:E2; simpl; try reflexivity;
      rewrite ?Qle_bool_true, ?Qle_bool_false in *; lra.
  - split; destruct (Qle_bool 0 d) eqn:E1, (Qle_bool d 0) eqn:E2; simpl; try reflexivity;
      rewrite ?Qle_bool_true, ?Qle_bool_false in *; lra.
Qed.

Lemma disk_bool r x y : (x - r) * (x - r) + (y - r) * (y - r) <= r * r ->
  Qle_bool ((x - r) * (x - r) + (y - r) * (y - r)) (r * r) = true.
Proof. apply Qle_bool_true. Qed.

Lemma not_le_bool a b : Qle_bool a b = false -> ~ a <= b.
Proof. intros E H. apply Qle_bool_true in H. congruence. Qed.

(** The colour of the background at a point of the disc of centre and
    radius [r]: the crosshair, the two light fans (bottom-right and
    top-left on the screen), the dark disc elsewhere. *)
Lemma background_color_at r x y : (x - r) * (x - r) + (y - r) * (y - r) <= r * r ->
  color_at [mkPaint (Sector r r r 0 4) (Solid BASE) (Some (mkShadow 12 3 "#000000"));
            mkPaint (Sector r r r 0 1) (Solid LIGHT) None; mkPaint (Sector r r r 2 3) (Solid LIGHT) None;
            mkPaint (Strip r (r - r) r (r + r) 1) (Solid BASE) None;
            mkPaint (Strip (r - r) r (r + r) r 1) (Solid BASE) None] x y =
  Some (if Qle_bool (Qabs (x - r)) (1 # 2) || Qle_bool (Qabs (y - r)) (1 # 2) then BASE
        else if (Qltb 0 (x - r) && Qltb 0 (y - r)) || (Qltb (x - r) 0 && Qltb (y - r) 0) then LIGHT else BASE).
Proof.
  intros H. unfold color_at, paint_over. cbn [fold_left shape ink].
  rewrite (strip_horizontal r x y H), (strip_vertical r x y H).
  unfold covers. change (quarters 0 1) with [0%Z]. change (quarters 2 3) with [2%Z].
  cbn -[Qle_bool Qminus Qmult Qplus Qabs Qltb]. rewrite (disk_bool r x y H).
  destruct (Qle_bool (Qabs (y - r)) (1 # 2)) eqn:Ey; [rewrite orb_true_r; reflexivity|].
  destruct (Qle_bool (Qabs (x - r)) (1 # 2)) eqn:Ex; [reflexivity|].
  destruct (sign_off_axis (x - r) (not_le_bool _ _ Ex)) as [-> ->].
  destruct (sign_off_axis (y - r) (not_le_bool _ _ Ey)) as [-> ->].
  destruct (Qltb 0 (x - r)), (Qltb 0 (y - r)), (Qltb (x - r) 0), (Qltb (y - r) 0); reflexivity.
Qed.

Lemma Qplus_0_l_eq x : 0 + x = x.
Proof. destruct x as [n d]. unfold Qplus. simpl. rewrite Z.mul_1_r. reflexivity. Qed.

(** A canvas drawn at the origin of a canvas of its size shows through
    where it is not transparent. *)
Lemma draw_image_origin w h img x y :
  fold_left (paint_over x y) (paints (run_ctx [DrawImage w h img 0 0; SetFillStyle FOREGROUND])) None =
  if Qle_bool 0 x && Qltb x w && Qle_bool 0 y && Qltb y h then img x y else None.
Proof.
  unfold paint_over. cbn [run_ctx fold_left exec add_paint set_draw paints draw init_ctx app shape ink covers].
  rewrite !Qplus_0_l_eq, !Qminus_0_r_eq. destruct (_ && _); [destruct (img x y)|]; reflexivity.
Qed.

(** ** Theorems *)

(** C33: the background of the minimap.  [drawDynamicMinimapBackground]
    leaves its context with no saved state, only the disc casts a shadow
    (blur 12, offset 3, black), and at every point of the disc the colour
    is the crosshair's dark shade within half a pixel of a diameter, the
    light shade in the bottom-right and top-left quarters of the screen
    ([arc] from 0 to [PI / 2] and from [PI] to [1.5 * PI], angles growing
    clockwise with [y] pointing down), the dark shade elsewhere. *)
Theorem background_colors (size : Z) (x y : Q) :
  let rad := inject_Z size / 2 in
  (x - rad) * (x - rad) + (y - rad) * (y - rad) <= rad * rad ->
  stack (ctx (drawDynamicMinimapBackground size)) = [] /\
  map shadow (paints (ctx (drawDynamicMinimapBackground size))) =
    [Some (mkShadow 12 3 "#000000"); None; None; None; None] /\
  color_at (paints (ctx (drawDynamicMinimapBackground size))) x y =
  Some (if Qle_bool (Qabs (x - rad)) (1 # 2) || Qle_bool (Qabs (y - rad)) (1 # 2) then BASE
        else if (Qltb 0 (x - rad) && Qltb 0 (y - rad)) || (Qltb (x - rad) 0 && Qltb (y - rad) 0) then LIGHT
        else BASE).
Proof.
  intros rad H. rewrite background_paints. fold rad.
  split; [reflexivity | split; [reflexivity | apply background_color_at, H]].
Qed.

Lemma background_colors_witness :
  color_at (paints (ctx (drawDynamicMinimapBackground 100))) 75 25 = Some BASE /\
  color_at (paints (ctx (drawDynamicMinimapBackground 100))) 75 75 = Some LIGHT.
Proof.
  split.
  - destruct (background_colors 100 75 25 ltac:(apply Qle_bool_iff; reflexivity)) as (_ & _ & E).
    rewrite E. vm_compute. reflexivity.
  - destruct (background_colors 100 75 75 ltac:(apply Qle_bool_iff; reflexivity)) as (_ & _ & E).
    rewrite E. vm_compute. reflexivity.
Defined.

(** C32: what the ['M'] branch encodes.  At every point of its canvas the
    picture shows the foreground colour on the cells [Minimap] decodes
    and the background canvas everywhere else; outside the canvas it
    shows nothing. *)
Theorem minimap_picture (a : list Z) (x y : Q) :
  let mm := minimap_of_packet a in
  picture (drawMinimap a) x y =
  if Qle_bool 0 x && Qltb x (inject_Z (size mm)) && Qle_bool 0 y && Qltb y (inject_Z (size mm)) then
    if existsb (in_cell x y) (pixels mm) then Some FOREGROUND
    else picture (drawDynamicMinimapBackground (size mm)) x y
  else None.
Proof.
  intros mm. unfold picture at 1, drawMinimap, minimap_canvas. fold mm. cbn [width height ctx].
  destruct (_ && _) eqn:B; [|reflexivity].
  unfold color_at. rewrite run_app, run_cells by reflexivity. destruct (existsb _ _); [reflexivity|].
  rewrite draw_image_origin.
  change (width (drawDynamicMinimapBackground (size mm))) with (inject_Z (size mm)).
  change (height (drawDynamicMinimapBackground (size mm))) with (inject_Z (size mm)).
  rewrite B. reflexivity.
Qed.
