(* ===== verification/ScoreTable.v ===== *)
(** * ScoreTable: the decay tables of [setMscps] and the score formula

    [src/socketClient.js] keeps three module-level variables (lines 64-66):
    the key [mscps] and two arrays [fmlts] (decay) and [fpsls] (cumulative
    inverse decay), shared by every [SocketClient] of the process.
    [setMscps] (lines 68-92) rebuilds both arrays when the key changes; the
    ['l'] handler (line 362) turns a segment count and a 24-bit fraction
    into a score with them.  JavaScript doubles are modelled as real
    numbers ([Math.pow] as [Rpower], [Math.floor] as [Zfloor]), and an
    array slot holding [undefined], or a NaN result, as [None]. *)

From Stdlib Require Import ZArith Reals Rpower Zfloor List Lia Lra.
From S2P Require Import Prelude.
Import ListNotations.
Open Scope Z_scope.

(** A JavaScript number that may be [undefined] or NaN. *)
Definition jsnum := option R.

Definition jadd (a b : jsnum) : jsnum :=
  match a, b with Some x, Some y => Some (x + y)%R | _, _ => None end.

(** [1 / v]; every divisor reached is positive ([built_entries]). *)
Definition jinv (a : jsnum) : jsnum :=
  match a with Some x => Some (/ x)%R | None => None end.

(** [arr[k]]: a negative or out-of-range index reads [undefined]. *)
Definition js_at (l : list jsnum) (k : Z) : jsnum :=
  if k <? 0 then None
  else match nth_error l (Z.to_nat k) with Some v => v | None => None end.

Record ScoreTable := mkTable { mscps : Z; fmlts : list jsnum; fpsls : list jsnum }.

(** [let fmlts = []; let fpsls = []; let mscps = 0;] (lines 64-66). *)
Definition init_table : ScoreTable := mkTable 0 [] [].

(** [Math.pow(1 - i / mscps, 2.25)]. *)
Definition decay_pow (i m : Z) : R := Rpower (1 - IZR i / IZR m) (9 / 4).

(** The loop of lines 73-83, iteration [i] onwards, [count] iterations
    left; each appends one slot to each array. *)
Fixpoint build (m i : Z) (count : nat) (fm fp : list jsnum) : list jsnum * list jsnum :=
  match count with
  | O => (fm, fp)
  | S c =>
      let fm' := fm ++ [if m <=? i then js_at fm (i - 1) else Some (decay_pow i m)] in
      let fp' := fp ++ [if i =? 0 then Some 0%R
                        else jadd (js_at fp (i - 1)) (jinv (js_at fm' (i - 1)))] in
      build m (i + 1) c fm' fp'
  end.

(** The tables for key [m]: the loop for [i = 0 .. m], then 2048 copies
    of the last slots (lines 84-89). *)
Definition built (m : Z) : ScoreTable :=
  let '(fm, fp) := build m 0 (Z.to_nat (m + 1)) [] [] in
  let t_fmlt := js_at fm (Z.of_nat (length fm) - 1) in
  let t_fpsl := js_at fp (Z.of_nat (length fp) - 1) in
  mkTable m (fm ++ repeat t_fmlt 2048) (fp ++ repeat t_fpsl 2048).

(** [setMscps(nmscps)] (lines 68-92): a no-op when the key is unchanged. *)
Definition setMscps (t : ScoreTable) (nmscps : Z) : ScoreTable :=
  if nmscps =? mscps t then t else built nmscps.

(** Line 362: [Math.floor((fpsls[sct] + fam / fmlts[sct] - 1) * 15 - 5)]
    with [fam] the raw 24-bit value divided by 16777215 (line 358). *)
Definition score (t : ScoreTable) (sct fam : Z) : option Z :=
  match js_at (fpsls t) sct, js_at (fmlts t) sct with
  | Some p, Some d => Some (Zfloor ((p + IZR fam / 16777215 / d - 1) * 15 - 5))
  | _, _ => None
  end.

(** The tables reachable from the initial state by any sequence of
    ['a'] packets. *)
Inductive reachable : ScoreTable -> Prop :=
  | reach_init : reachable init_table
  | reach_set t m : reachable t -> reachable (setMscps t m).

(** ** Lemmas on the tables *)

Definition is_pos (v : jsnum) : Prop := match v with Some x => (0 < x)%R | None => False end.
Definition is_num (v : jsnum) : Prop := match v with Some _ => True | None => False end.

Lemma js_at_in (P : jsnum -> Prop) l k :
  Forall P l -> 0 <= k < Z.of_nat (length l) -> P (js_at l k).
Proof.
  intros H Hk. unfold js_at. rewrite (proj2 (Z.ltb_ge _ _)) by lia.
  destruct (nth_error l (Z.to_nat k)) eqn:E.
  - rewrite Forall_forall in H. apply H. eapply nth_error_In, E.
  - apply nth_error_None in E. lia.
Qed.

Lemma js_at_out l k : Z.of_nat (length l) <= k -> js_at l k = None.
Proof.
  intros Hk. unfold js_at. destruct (k <? 0); [reflexivity|].
  rewrite (proj2 (nth_error_None _ _)) by lia. reflexivity.
Qed.

Lemma js_at_app_l l1 l2 k : 0 <= k < Z.of_nat (length l1) -> js_at (l1 ++ l2) k = js_at l1 k.
Proof.
  intros Hk. unfold js_at. rewrite (proj2 (Z.ltb_ge _ _)) by lia.
  rewrite nth_error_app1 by lia. reflexivity.
Qed.

Lemma decay_pow_pos i m : (0 < decay_pow i m)%R.
Proof. unfold decay_pow, Rpower. apply exp_pos. Qed.

Section Build.

Variable m : Z.
Hypothesis Hm : 1 <= m.

(** The loop invariant of lines 73-83: after [i] iterations both arrays
    have [i] slots, every decay slot is a positive number and every
    cumulative slot a number. *)
Lemma build_entries i count fm fp :
  0 <= i -> length fm = Z.to_nat i -> length fp = Z.to_nat i ->
  Forall is_pos fm -> Forall is_num fp ->
  let '(fm', fp') := build m i count fm fp in
  length fm' = (Z.to_nat i + count)%nat /\ length fp' = (Z.to_nat i + count)%nat /\
  Forall is_pos fm' /\ Forall is_num fp'.
Proof.
  revert i fm fp. induction count as [|c IH]; intros i fm fp Hi Hfm Hfp Pfm Pfp.
  - simpl. rewrite Nat.add_0_r. auto.
  - cbn [build].
    set (fm' := fm ++ [if m <=? i then js_at fm (i - 1) else Some (decay_pow i m)]).
    assert (Pfm' : Forall is_pos fm').
    { apply Forall_app. split; [exact Pfm|]. constructor; [|constructor].
      destruct (m <=? i) eqn:E; zbool.
      - apply js_at_in; [exact Pfm | lia].
      - apply decay_pow_pos. }
    assert (Lfm' : length fm' = Z.to_nat (i + 1)) by (unfold fm'; rewrite length_app; simpl; lia).
    match goal with |- context [build m (i + 1) c fm' ?fp'] => set (fp2 := fp') end.
    assert (Pfp' : Forall is_num fp2).
    { unfold fp2. apply Forall_app. split; [exact Pfp|]. constructor; [|constructor].
      destruct (i =? 0) eqn:E; zbool; [exact I|].
      assert (H1 : is_num (js_at fp (i - 1))) by (apply js_at_in; [exact Pfp | lia]).
      assert (H2 : is_pos (js_at fm' (i - 1))) by (apply js_at_in; [exact Pfm' | lia]).
      destruct (js_at fp (i - 1)), (js_at fm' (i - 1)); simpl in *; tauto. }
    assert (Lfp' : length fp2 = Z.to_nat (i + 1)) by (unfold fp2; rewrite length_app; simpl; lia).
    specialize (IH (i + 1) fm' fp2 ltac:(lia) Lfm' Lfp' Pfm' Pfp').
    destruct (build m (i + 1) c fm' fp2) as [fa fb].
    destruct IH as (? & ? & ? & ?). repeat split; auto; lia.
Qed.

(** The built tables have [m + 2049] slots each, all of them numbers,
    the decay slots positive. *)
Lemma built_entries :
  length (fmlts (built m)) = Z.to_nat (m + 2049) /\
  length (fpsls (built m)) = Z.to_nat (m + 2049) /\
  Forall is_pos (fmlts (built m)) /\ Forall is_num (fpsls (built m)).
Proof.
  unfold built.
  pose proof (build_entries 0 (Z.to_nat (m + 1)) [] [] ltac:(lia) eq_refl eq_refl
                (Forall_nil _) (Forall_nil _)) as Hb.
  destruct (build m 0 (Z.to_nat (m + 1)) [] []) as [fm fp].
  destruct Hb as (Lfm & Lfp & Pfm & Pfp). cbn [fmlts fpsls].
  rewrite !length_app, !repeat_length, Lfm, Lfp.
  repeat split; try lia; apply Forall_app; split; auto; apply Forall_forall;
    intros v Hv; apply repeat_spec in Hv; subst v; apply js_at_in; auto; lia.
Qed.

End Build.

Lemma mscps_built m : mscps (built m) = m.
Proof. unfold built. destruct (build _ _ _ _ _). reflexivity. Qed.

Lemma Zfloor_mono x y : (x <= y)%R -> Zfloor x <= Zfloor y.
Proof. intros H. apply Zfloor_lub. pose proof (Zfloor_bound x). lra. Qed.

Lemma score_formula_mono p d f1 f2 :
  (0 < d)%R -> f1 <= f2 ->
  Zfloor ((p + IZR f1 / 16777215 / d - 1) * 15 - 5)
  <= Zfloor ((p + IZR f2 / 16777215 / d - 1) * 15 - 5).
Proof.
  intros Hd Hf. apply Zfloor_mono. apply IZR_le in Hf.
  assert (H : (IZR f1 / 16777215 / d <= IZR f2 / 16777215 / d)%R).
  { unfold Rdiv. apply Rmult_le_compat_r; [left; apply Rinv_0_lt_compat, Hd|].
    apply Rmult_le_compat_r; [lra | exact Hf]. }
  lra.
Qed.

(** C29: Score definedness.  Once an ['a'] packet has set a key [m >= 1],
    the score of an entry is a number exactly when its segment count lies
    in [0, m + 2048]; a larger count (the field is 16 bits wide) reads
    [undefined] and yields NaN. *)
Theorem score_defined (m sct fam : Z) :
  1 <= m -> (score (built m) sct fam <> None <-> 0 <= sct <= m + 2048).
Proof.
  intros Hm. destruct (built_entries m Hm) as (Lfm & Lfp & Pfm & Pfp). unfold score. split.
  - intros H. destruct (Z_lt_le_dec sct 0) as [Hneg|Hnn].
    + unfold js_at in H. rewrite (proj2 (Z.ltb_lt _ _) Hneg) in H. congruence.
    + destruct (Z_le_gt_dec sct (m + 2048)) as [Hle|Hgt]; [lia|].
      rewrite (js_at_out (fpsls (built m))) in H by lia. congruence.
  - intros Hs.
    assert (Hp : is_num (js_at (fpsls (built m)) sct)) by (apply js_at_in; [exact Pfp | lia]).
    assert (Hd : is_pos (js_at (fmlts (built m)) sct)) by (apply js_at_in; [exact Pfm | lia]).
    destruct (js_at (fpsls (built m)) sct), (js_at (fmlts (built m)) sct);
      simpl in *; congruence || tauto.
Qed.

Lemma score_defined_witness : score (built 10) 2058 0 <> None.
Proof. apply (proj2 (score_defined 10 2058 0 ltac:(lia))). lia. Defined.

(** C30: Score monotonicity.  With a table built for [m >= 1] and a segment
    count in range, the score does not decrease when the fractional
    advance [fam] grows. *)
Theorem score_monotone (m sct f1 f2 : Z) :
  1 <= m -> 0 <= sct <= m + 2048 -> f1 <= f2 ->
  exists s1 s2, score (built m) sct f1 = Some s1 /\ score (built m) sct f2 = Some s2 /\ s1 <= s2.
Proof.
  intros Hm Hs Hf. destruct (built_entries m Hm) as (Lfm & Lfp & Pfm & Pfp).
  assert (Hp : is_num (js_at (fpsls (built m)) sct)) by (apply js_at_in; [exact Pfp | lia]).
  assert (Hd : is_pos (js_at (fmlts (built m)) sct)) by (apply js_at_in; [exact Pfm | lia]).
  unfold score. destruct (js_at (fpsls (built m)) sct) as [p|]; [|contradiction].
  destruct (js_at (fmlts (built m)) sct) as [d|]; [|contradiction].
  do 2 eexists. split; [reflexivity|]. split; [reflexivity|].
  apply score_formula_mono; assumption.
Qed.

Lemma score_monotone_witness :
  exists s1 s2, score (built 3) 1 100 = Some s1 /\ score (built 3) 1 200 = Some s2 /\ s1 <= s2.
Proof. apply (score_monotone 3 1 100 200); lia. Defined.

(** Before any ['a'] packet the tables are empty: every score is NaN. *)
Lemma score_init sct fam : score init_table sct fam = None.
Proof. unfold score, js_at. simpl. destruct (sct <? 0); [reflexivity|]. destruct (Z.to_nat sct); reflexivity. Qed.

(** C35: Table invariant.  Every table reachable by ['a'] packets is either
    the initial empty one or exactly the tables built for its key; so a
    rebuild for another key followed by a rebuild for the old key restores
    every slot, for every reachable table except the initial one. *)
Theorem setMscps_restores (t : ScoreTable) (m' : Z) :
  reachable t -> t <> init_table -> m' <> mscps t ->
  setMscps (setMscps t m') (mscps t) = t.
Proof.
  intros Hr Hne Hm'.
  assert (Hinv : t = init_table \/ t = built (mscps t)).
  { clear Hne Hm'. induction Hr as [|t m Hr IH]; [left; reflexivity|].
    unfold setMscps. destruct (m =? mscps t); [exact IH|]. right. rewrite mscps_built. reflexivity. }
  destruct Hinv as [Hi|Hb]; [contradiction|].
  unfold setMscps at 2. rewrite (proj2 (Z.eqb_neq _ _) Hm').
  unfold setMscps. rewrite mscps_built, (proj2 (Z.eqb_neq _ _)) by congruence.
  symmetry. exact Hb.
Qed.

Lemma setMscps_restores_witness :
  setMscps (setMscps (setMscps init_table 3) 5) 3 = setMscps init_table 3.
Proof.
  apply (setMscps_restores (setMscps init_table 3) 5).
  - apply reach_set, reach_init.
  - intros H. apply (f_equal mscps) in H. unfold setMscps in H. simpl in H.
    unfold built in H. simpl in H. discriminate.
  - unfold setMscps. simpl. unfold built. simpl. discriminate.
Defined.

(** The initial table is not restored: after keys 5 then 0 the tables are
    2049 slots long, where they started empty. *)
Example setMscps_init_not_restored :
  setMscps (setMscps init_table 5) 0 <> init_table.
Proof.
  intros H. apply (f_equal (fun t => length (fmlts t))) in H.
  unfold setMscps, built in H. simpl in H. discriminate.
Qed.
