(* ===== verification/Leaderboard.v ===== *)
(** * Leaderboard: the ['l'] packet decoder

    The ['l'] branch of [gotPacket] ([src/socketClient.js], lines 342-391)
    skips a position byte, reads the raw rank and the player count, then
    reads entries while more than 7 bytes remain: a 16-bit segment count,
    a 24-bit fraction, a colour byte, a name length and the name.  Each
    entry is scored with the shared [ScoreTable] and numbered by its
    position.  [lb_entries] is the loop with fuel (each iteration consumes
    at least 7 bytes), [gotLeaderboard] the whole branch. *)

From Stdlib Require Import ZArith List Lia Bool.
From S2P Require Import Prelude ScoreTable.
Import ListNotations.
Open Scope Z_scope.
Local Open Scope js_scope.

(** An entry object [{rank, name, score, colorIndex}] (lines 373-378);
    the name is the list of its character codes, a NaN score is [None]. *)
Record Entry := mkEntry { rank : Z; name : list Z; escore : option Z; colorIndex : Z }.

(** [this._leaderboardData] (lines 385-390). *)
Record LbData := mkLb {
  totalPlayers : Z; lb_rank : Z; totalScore : option Z; leaderboard : list Entry }.

(** Whitespace removed by [String.prototype.trim] among the codes a byte
    can produce: tab, line feed, vertical tab, form feed, carriage return,
    space and no-break space. *)
Definition js_is_ws (c : Z) : bool :=
  (c =? 9) || (c =? 10) || (c =? 11) || (c =? 12) || (c =? 13) || (c =? 32) || (c =? 160).

Fixpoint drop_ws (l : list Z) : list Z :=
  match l with
  | c :: t => if js_is_ws c then drop_ws t else l
  | [] => []
  end.

Definition js_trim (l : list Z) : list Z := rev (drop_ws (rev (drop_ws l))).

(** The codes of ["(unnamed)"]. *)
Definition unnamed : list Z := [40; 117; 110; 110; 97; 109; 101; 100; 41].

(** [name.trim() || "(unnamed)"] (line 375). *)
Definition display_name (l : list Z) : list Z :=
  match js_trim l with [] => unnamed | t => t end.

(** The entry loop of lines 352-379 on the unread suffix [r] of the
    packet; [pos] counts the entries read so far. *)
Fixpoint lb_entries (t : ScoreTable) (fuel : nat) (pos : Z) (r : list Z) : list Entry :=
  match fuel with
  | O => []
  | S fuel' =>
      if Nat.leb (length r) 7 then []
      else
        let sct := be16 r 0 in
        let fam := be24 r 2 in
        let cv := r.[5] mod 9 in
        let nl := Z.to_nat r.[6] in
        mkEntry (pos + 1) (display_name (firstn nl (skipn 7 r))) (score t sct fam) cv
          :: lb_entries t fuel' (pos + 1) (skipn (7 + nl) r)
  end.

(** [lb.reduce((sum, e) => sum + e.score, 0)] (line 382): NaN absorbs. *)
Definition sum_scores (lb : list Entry) : option Z :=
  fold_left (fun acc e => match acc, escore e with
                          | Some s, Some x => Some (s + x)
                          | _, _ => None
                          end) lb (Some 0).

(** The whole ['l'] branch (lines 343-390) on packet [a] (command byte at
    index 0, position byte at index 1). *)
Definition gotLeaderboard (t : ScoreTable) (a : list Z) : LbData :=
  let rank := be16 a 2 in
  let tp := be16 a 4 in
  let lb := lb_entries t (length a) 0 (skipn 6 a) in
  mkLb tp rank (sum_scores lb) lb.

(** ** Specification: the entries a well-formed packet carries *)

Record RawEntry := mkRaw { r_sct : Z; r_fam : Z; r_color : Z; r_name : list Z }.

Definition raw_ok (e : RawEntry) : Prop :=
  0 <= r_sct e < 65536 /\ 0 <= r_fam e < 16777216 /\ 0 <= r_color e < 256 /\
  Z.of_nat (length (r_name e)) < 256 /\ Forall (fun c => 0 <= c < 256) (r_name e).

Definition encode_entry (e : RawEntry) : list Z :=
  [r_sct e / 256; r_sct e mod 256;
   r_fam e / 65536; (r_fam e / 256) mod 256; r_fam e mod 256;
   r_color e; Z.of_nat (length (r_name e))] ++ r_name e.

(** What the specification says entry number [pos + 1] decodes to. *)
Definition spec_entry (t : ScoreTable) (pos : Z) (e : RawEntry) : Entry :=
  mkEntry (pos + 1) (display_name (r_name e)) (score t (r_sct e) (r_fam e)) (r_color e mod 9).

Fixpoint spec_entries (t : ScoreTable) (pos : Z) (es : list RawEntry) : list Entry :=
  match es with
  | [] => []
  | e :: es' => spec_entry t pos e :: spec_entries t (pos + 1) es'
  end.

(** The ['l'] packet the specification describes: command byte, position
    byte, 16-bit rank and player count, then the entries. *)
Definition lb_packet (mpos rank tp : Z) (es : list RawEntry) : list Z :=
  [108; mpos; rank / 256; rank mod 256; tp / 256; tp mod 256] ++ concat (map encode_entry es).

(** The last entry carries a name, or there is none. *)
Definition last_named (es : list RawEntry) : Prop :=
  match rev es with [] => True | e :: _ => r_name e <> [] end.

(** ** Decoding an encoded entry *)

Lemma be16_split x t : 0 <= x < 65536 -> be16 (x / 256 :: x mod 256 :: t) 0 = x.
Proof.
  intros Hx. unfold be16, byte_at. simpl nth.
  rewrite (lor_shiftl_disjoint _ _ 8) by (pose proof (Z.mod_pos_bound x 256); lia).
  pose proof (Z.div_mod x 256). lia.
Qed.

Lemma be24_split s1 s2 x t :
  0 <= x < 16777216 -> be24 (s1 :: s2 :: x / 65536 :: (x / 256) mod 256 :: x mod 256 :: t) 2 = x.
Proof.
  intros Hx. unfold be24, byte_at. simpl nth.
  replace (Z.shiftl (x / 65536) 16) with (Z.shiftl (Z.shiftl (x / 65536) 8) 8)
    by (rewrite Z.shiftl_shiftl by lia; reflexivity).
  rewrite <- Z.shiftl_lor.
  rewrite (lor_shiftl_disjoint _ (x mod 256) 8) by (pose proof (Z.mod_pos_bound x 256); lia).
  rewrite (lor_shiftl_disjoint _ ((x / 256) mod 256) 8)
    by (pose proof (Z.mod_pos_bound (x / 256) 256); lia).
  pose proof (Z.div_mod x 256). pose proof (Z.div_mod (x / 256) 256).
  assert (E : x / 256 / 256 = x / 65536) by (rewrite Z.div_div by lia; reflexivity).
  rewrite E in *. lia.
Qed.

Lemma lb_entries_cons t fuel pos e rest :
  raw_ok e -> (r_name e <> [] \/ rest <> []) ->
  lb_entries t (S fuel) pos (encode_entry e ++ rest)
  = spec_entry t pos e :: lb_entries t fuel (pos + 1) rest.
Proof.
  intros (Hs & Hf & Hc & Hn & Hb) Hne. destruct e as [sct fam col nm]; simpl in *.
  unfold encode_entry. cbn [r_sct r_fam r_color r_name app].
  cbn [lb_entries]. rewrite (proj2 (Nat.leb_gt _ _)).
  2: { simpl. rewrite length_app. destruct Hne as [Hne|Hne];
       [destruct nm | destruct rest]; simpl; try congruence; lia. }
  rewrite be16_split, be24_split by lia. unfold byte_at. simpl nth.
  rewrite Nat2Z.id. simpl skipn. rewrite firstn_app, firstn_all, Nat.sub_diag, firstn_O, app_nil_r.
  replace (7 + length nm)%nat with (length ([sct / 256; sct mod 256; fam / 65536;
    (fam / 256) mod 256; fam mod 256; col; Z.of_nat (length nm)] ++ nm)) by (rewrite length_app; reflexivity).
  rewrite skipn_app, skipn_all, Nat.sub_diag, skipn_O. reflexivity.
Qed.

Lemma lb_entries_nil t fuel pos : lb_entries t fuel pos [] = [].
Proof. destruct fuel; reflexivity. Qed.

Lemma length_encoded (es : list RawEntry) :
  (7 * length es <= length (concat (map encode_entry es)))%nat.
Proof.
  induction es as [|e es IH]; [simpl; lia|]. cbn [map concat].
  rewrite length_app. unfold encode_entry at 1. rewrite length_app. simpl length. lia.
Qed.

Lemma last_named_tail e es : last_named (e :: es) -> last_named es.
Proof.
  unfold last_named. simpl. destruct (rev es); simpl; auto.
Qed.

Lemma lb_entries_encoded t es fuel pos :
  Forall raw_ok es -> last_named es -> (length es <= fuel)%nat ->
  lb_entries t fuel pos (concat (map encode_entry es)) = spec_entries t pos es.
Proof.
  revert fuel pos. induction es as [|e es IH]; intros fuel pos Hok Hlast Hfuel.
  - apply lb_entries_nil.
  - inversion Hok as [|? ? He Hes]; subst. destruct fuel as [|fuel]; [simpl in Hfuel; lia|].
    cbn [map concat]. rewrite lb_entries_cons by
      (exact He || (destruct es as [|e' es];
        [left; exact Hlast | right; simpl; unfold encode_entry; destruct (r_name e'); simpl; discriminate])).
    simpl spec_entries. f_equal. apply IH; [exact Hes | eapply last_named_tail, Hlast | simpl in Hfuel; lia].
Qed.

(** Each iteration consumes more than 7 bytes, so the length of the
    unread suffix is enough fuel. *)
Lemma lb_entries_fuel_mono t fuel : forall k pos r,
  (length r <= fuel)%nat -> lb_entries t (fuel + k) pos r = lb_entries t fuel pos r.
Proof.
  induction fuel as [|fuel IH]; intros k pos r Hr.
  - destruct r; [rewrite lb_entries_nil; reflexivity | simpl in Hr; lia].
  - cbn [lb_entries Nat.add]. destruct (Nat.leb (length r) 7) eqn:E; [reflexivity|].
    apply Nat.leb_gt in E. f_equal. apply IH. rewrite length_skipn. lia.
Qed.

Lemma lb_entries_fuel t fuel pos r :
  (length r <= fuel)%nat -> lb_entries t fuel pos r = lb_entries t (length r) pos r.
Proof.
  intros H. replace fuel with (length r + (fuel - length r))%nat by lia.
  apply lb_entries_fuel_mono. lia.
Qed.

(** C5: Leaderboard decoding.  A well-formed ['l'] packet whose last entry
    has a name decodes to its player count, its raw rank, and one entry per
    encoded entry, in order, numbered by position from 1, with the name
    trimmed (or ["(unnamed)"]), the score of the shared table and the
    colour byte modulo 9; the total score is the sum of the entry scores. *)
Theorem gotLeaderboard_spec (t : ScoreTable) (mpos rank tp : Z) (es : list RawEntry) :
  0 <= rank < 65536 -> 0 <= tp < 65536 -> Forall raw_ok es -> last_named es ->
  gotLeaderboard t (lb_packet mpos rank tp es)
  = mkLb tp rank (sum_scores (spec_entries t 0 es)) (spec_entries t 0 es).
Proof.
  intros Hr Htp Hok Hlast. unfold gotLeaderboard, lb_packet. cbn [app].
  rewrite !be16_cons, !be16_split by lia.
  simpl skipn. rewrite lb_entries_encoded; [reflexivity | exact Hok | exact Hlast |].
  simpl length. pose proof (length_encoded es). lia.
Qed.

Lemma gotLeaderboard_spec_witness :
  gotLeaderboard init_table (lb_packet 0 1 2 [mkRaw 10 100 3 [65]; mkRaw 4 0 12 [32; 66; 32]])
  = mkLb 2 1 (sum_scores (spec_entries init_table 0 [mkRaw 10 100 3 [65]; mkRaw 4 0 12 [32; 66; 32]]))
         (spec_entries init_table 0 [mkRaw 10 100 3 [65]; mkRaw 4 0 12 [32; 66; 32]]).
Proof.
  apply gotLeaderboard_spec; [lia | lia | | unfold last_named; simpl; discriminate].
  repeat constructor; simpl; lia.
Defined.

(** The final entry is dropped when it has an empty name: it then fills
    exactly the last 7 bytes, and the loop requires more than 7. *)
Example gotLeaderboard_drops_last_unnamed :
  leaderboard (gotLeaderboard init_table (lb_packet 0 1 2 [mkRaw 10 100 3 []])) = [].
Proof. vm_compute. reflexivity. Qed.
