(* ===== verification/Handshake.v ===== *)
(** * Handshake: the answer to the server's ['6'] challenge

    [gotServerVersion] ([src/socketClient.js], lines 407-418) draws a
    random 27-letter identifier [idba], lets [isValidVersion] (lines
    420-453) decode the challenge, overwrite the start of [idba] with the
    recovered secret and transform it in place, and, when the check
    succeeds, sends [idba] and the [clientInit] frame (lines 495-526).
    The pattern extractor [extractStringAndNumber] (lines 455-493) is the
    class [Extractor]: the theorems of this file and of [Session] hold for
    any extractor, and [code_extractor] is the source's, its three
    regular expressions written as matchers with JavaScript's semantics.
    [extract_challenge] shows that on the script the server embeds
    ([challenge_src]) it recovers the secret and the loop bound.

    A subtlety of the source: the transform loop declares [var c = 0],
    which in a JavaScript function rebinds the parameter [c] (the
    challenge).  The final validation loop reads [c.length] on the number
    27, which is [undefined], so the loop never runs and the check always
    succeeds.  [JsVal] models the binding of [c].

    The overwrite loop can also throw (a positive count without a
    secret) or never end (a count beyond [2^53 + 1]); [Completion] says
    which, and [version_halts] names the challenges on which
    [isValidVersion] does not return. *)

From Stdlib Require Import ZArith List Lia Bool.
From S2P Require Import Prelude.
Import ListNotations.
Open Scope Z_scope.

(** The contract of [extractStringAndNumber(src)]: the recovered string
    literal ([str], [null] when no [var a = '...'] is found) and the loop
    bound ([count], [null] when no counted loop is found). *)
Class Extractor := { extractStringAndNumber : list Z -> option (list Z) * option Z }.

(** ** [extractStringAndNumber] (lines 455-493)

    The three regular expressions, as matchers with JavaScript's
    semantics on the character codes of the decoded fragment: leftmost
    match, greedy [\s*], [\w+] and [\d+] (which never need to give back
    characters here, since what follows them cannot start with the
    characters they take), a lazy quoted body whose alternation
    [\\.|(?!\1)[\s\S]] backtracks, and the [/g] scan with [\b] for the
    concatenations. *)

(** [\s] among codes up to 425, [\w], [\d], and the line terminators
    that [.] does not match. *)
Definition is_ws (c : Z) : bool :=
  ((9 <=? c) && (c <=? 13)) || (c =? 32) || (c =? 160).
Definition is_word (c : Z) : bool :=
  ((48 <=? c) && (c <=? 57)) || ((65 <=? c) && (c <=? 90)) || ((97 <=? c) && (c <=? 122)) || (c =? 95).
Definition is_digit (c : Z) : bool := (48 <=? c) && (c <=? 57).
Definition is_line_term (c : Z) : bool := (c =? 10) || (c =? 13).
Definition is_quote (c : Z) : bool := (c =? 39) || (c =? 34) || (c =? 96).

Fixpoint skip_while (p : Z -> bool) (s : list Z) : list Z :=
  match s with c :: t => if p c then skip_while p t else s | [] => [] end.

Fixpoint take_while (p : Z -> bool) (s : list Z) : list Z :=
  match s with c :: t => if p c then c :: take_while p t else [] | [] => [] end.

(** [((?:\\.|(?!\1)[\s\S])*?)\1]: the body up to the first closing quote
    [q] that lets the whole match succeed, and the rest after it. *)
Fixpoint body_match (q : Z) (s : list Z) : option (list Z * list Z) :=
  match s with
  | [] => None
  | c :: t =>
      if c =? q then Some ([], t)
      else
        let esc :=
          if c =? 92 then
            match t with
            | c2 :: t2 => if is_line_term c2 then None
                          else option_map (fun '(b, r) => (c :: c2 :: b, r)) (body_match q t2)
            | [] => None
            end
          else None in
        match esc with
        | Some r => Some r
        | None => option_map (fun '(b, r) => (c :: b, r)) (body_match q t)
        end
  end.

(** A quote, then the body: the quote, the body and the rest after the
    closing quote. *)
Definition quoted (s : list Z) : option (Z * list Z * list Z) :=
  match s with
  | q :: t => if is_quote q then option_map (fun '(b, r) => (q, b, r)) (body_match q t) else None
  | [] => None
  end.

(** One step of a match: the literal character [c], and the text after
    it. *)
Definition lit (c : Z) (s : list Z) : option (list Z) :=
  match s with x :: t => if x =? c then Some t else None | [] => None end.

(** [\s*] (greedy) and [\s+]. *)
Definition ws0 (s : list Z) : list Z := skip_while is_ws s.
Definition ws1 (s : list Z) : option (list Z) :=
  match s with c :: _ => if is_ws c then Some (ws0 s) else None | [] => None end.

(** [\w+] and [\d+] (greedy): the characters taken, and the rest. *)
Definition plus (p : Z -> bool) (s : list Z) : option (list Z * list Z) :=
  match take_while p s with
  | [] => None
  | w => Some (w, skipn (length w) s)
  end.

Declare Scope match_scope.
Local Open Scope match_scope.
Notation "'let?' x := m 'in' k" := (match m with Some x => k | None => None end)
  (at level 10, x pattern, m at level 100, k at level 200, right associativity) : match_scope.

(** [var\s+a\s*=\s*(Q)(...)\1] anchored at the start of [s], where [Q]
    is the class of the three quote characters (codes 39, 34 and 96). *)
Definition match_init (s : list Z) : option (list Z) :=
  let? t := lit 118 s in let? t := lit 97 t in let? t := lit 114 t in
  let? t := ws1 t in let? t := lit 97 t in let? t := lit 61 (ws0 t) in
  let? (_, body, _) := quoted (ws0 t) in Some body.

(** [src.match(re)] for a regex without [/g]: the leftmost match. *)
Fixpoint find_first {A} (f : list Z -> option A) (s : list Z) : option A :=
  match f s with
  | Some r => Some r
  | None => match s with [] => None | _ :: t => find_first f t end
  end.

(** The concatenation regex anchored at the start of [s]: [a], then the
    first alternative [\s*\+=\s*] or, when the rest of the match fails,
    the second [\s*=\s*a\s*\+\s*]; then [(Q)(...)\1].  The [\b] before
    [a] is checked by the caller. *)
Definition match_concat (s : list Z) : option (Z * list Z * list Z) :=
  let? t := lit 97 s in
  let alt1 := let? t2 := lit 43 (ws0 t) in let? t2 := lit 61 t2 in quoted (ws0 t2) in
  match alt1 with
  | Some r => Some r
  | None =>
      let? t2 := lit 61 (ws0 t) in let? t3 := lit 97 (ws0 t2) in
      let? t4 := lit 43 (ws0 t3) in quoted (ws0 t4)
  end.

(** [\b] before [a], a word character: the character before is not one. *)
Definition word_boundary (prev : option Z) : bool :=
  match prev with Some p => negb (is_word p) | None => true end.

(** The [while ((m = concatRe.exec(src)) !== null)] loop: every match in
    order, the search resuming after the previous match; [prev] is the
    character before [s], for [\b] (after a match, its closing quote). *)
Fixpoint concat_all (fuel : nat) (prev : option Z) (s : list Z) : list (list Z) :=
  match fuel with
  | O => []
  | S fuel' =>
      match s with
      | [] => []
      | c :: t =>
          match (if word_boundary prev then match_concat s else None) with
          | Some (q, body, rest) => body :: concat_all fuel' (Some q) rest
          | None => concat_all fuel' (Some c) t
          end
      end
  end.

(** [for\s*\(\s*(?:var\s+)?\w+\s*=\s*0\s*;\s*\w+\s*<\s*(\d+)\s*;\s*\w+\+\+\s*\)]
    after the optional [var\s+] group: the digits of the bound.  The
    greedy [\w+] and [\d+] never give characters back here: what follows
    them cannot start with a word character. *)
Definition for_tail (s : list Z) : option (list Z) :=
  let? (_, t) := plus is_word s in let? t := lit 61 (ws0 t) in
  let? t := lit 48 (ws0 t) in let? t := lit 59 (ws0 t) in
  let? (_, t) := plus is_word (ws0 t) in let? t := lit 60 (ws0 t) in
  let? (ds, t) := plus is_digit (ws0 t) in let? t := lit 59 (ws0 t) in
  let? (_, t) := plus is_word (ws0 t) in let? t := lit 43 t in let? t := lit 43 t in
  let? _ := lit 41 (ws0 t) in Some ds.

(** The whole [forRe] anchored at the start of [s]; the optional group is
    tried first, as the regex engine does. *)
Definition match_for (s : list Z) : option (list Z) :=
  let? t := lit 102 s in let? t := lit 111 t in let? t := lit 114 t in
  let? t := lit 40 (ws0 t) in
  let t := ws0 t in
  let with_var := let? t3 := lit 118 t in let? t3 := lit 97 t3 in let? t3 := lit 114 t3 in
                  let? t3 := ws1 t3 in for_tail t3 in
  match with_var with Some ds => Some ds | None => for_tail t end.

(** [parseInt(digits, 10)], and [Number.isFinite]: the value is the
    integer rounded to the nearest double, ties to even, which is
    [Infinity] from [2^1024 - 2^970] on (the midpoint between the largest
    finite double, whose significand is odd, and [2^1024]). *)
Definition DOUBLE_OVERFLOW : Z := 2 ^ 1024 - 2 ^ 970.

Definition parse_digits (ds : list Z) : Z := fold_left (fun acc d => acc * 10 + (d - 48)) ds 0.

(** [extractStringAndNumber(src)]: the [JSON.parse] round trip of lines
    475-481 doubles every backslash and escapes every quote before
    parsing, so it returns the assembled string unchanged (or throws on a
    control character and leaves it unchanged): it is the identity. *)
Definition extract_code (src : list Z) : option (list Z) * option Z :=
  let str := match find_first match_init src with
             | Some init => Some (init ++ concat (concat_all (length src) None src))
             | None => None
             end in
  let count := match find_first match_for src with
               | Some ds => let v := parse_digits ds in if v <? DOUBLE_OVERFLOW then Some v else None
               | None => None
               end in
  (str, count).

#[export] Instance code_extractor : Extractor := {| extractStringAndNumber := extract_code |}.

(** [ToUint8] on the integral values stored into a [Uint8Array]. *)
Definition to_uint8 (x : Z) : Z := x mod 256.

(** The challenge decode of lines 421-430: the rolling base-26 scheme of
    the directory with offset 23, step 17 and case folding; every two
    characters give one character code of [a]. *)
Fixpoint decode_challenge (c : list Z) (d e f : Z) : list Z :=
  match c with
  | [] => []
  | b0 :: t =>
      let b1 := if b0 <=? 96 then b0 + 32 else b0 in
      let b := js_mod_fix (b1 - 97 - e) 26 in
      let d' := d * 16 + b in
      if f =? 1 then d' :: decode_challenge t 0 (e + 17) 0
      else decode_challenge t d' (e + 17) (f + 1)
  end.

(** [str.charCodeAt(i)], NaN past the end; NaN stored in a [Uint8Array]
    becomes 0. *)
Definition char_code_u8 (s : list Z) (i : nat) : Z :=
  match nth_error s i with Some x => to_uint8 x | None => 0 end.

(** How a piece of synchronous code ends: with a value, by throwing, or
    never. *)
Inductive Completion (A : Type) := Normal (a : A) | Throw | Diverge.
Arguments Normal {A} a.
Arguments Throw {A}.
Arguments Diverge {A}.

(** [i++] on a double stops growing at [2^53], so [i < count] holds
    forever once [count] exceeds [2^53] as a double, that is from the
    integer [2^53 + 2] on ([2^53 + 1] rounds to [2^53]). *)
Definition LOOP_FOREVER : Z := 2 ^ 53 + 2.

(** Lines 433-436: [for (i = 0; i < count; i++) idba[i] = str.charCodeAt(i)].
    A [null] count runs no iteration; a positive count with a [null]
    string throws a TypeError at the first iteration; a count from
    [LOOP_FOREVER] on never ends; writes past index 26 are dropped by
    the typed array. *)
Definition overwrite (idba : list Z) (str : option (list Z)) (count : option Z)
  : Completion (list Z) :=
  match count with
  | None => Normal idba
  | Some n =>
      if n <=? 0 then Normal idba
      else match str with
           | None => Throw
           | Some s =>
               if LOOP_FOREVER <=? n then Diverge
               else Normal (map (fun '(i, x) => if Z.of_nat i <? n then char_code_u8 s i else x)
                                (combine (seq 0 (length idba)) idba))
           end
  end.

(** The transform loop of lines 438-448, from index [c] with running
    seed [b]: JavaScript's [%] is [Z.rem]. *)
Fixpoint transform (idba : list Z) (c b : Z) : list Z :=
  match idba with
  | [] => []
  | a0 :: t =>
      let d := if 97 <=? a0 then 97 else 65 in
      let a1 := (if 97 <=? a0 then a0 - 32 else a0) - 65 in
      let b1 := if c =? 0 then 3 + a1 else b in
      let e := Z.rem (a1 + b1) 26 in
      to_uint8 (e + d) :: transform t (c + 1) (b1 + 2 + a1)
  end.

(** The value bound to [c] at the final loop. *)
Inductive JsVal := JStr (s : list Z) | JNum (x : Z).

(** [for (a = 0; a < c.length; a++) if (65 > b || 122 < b) return false;
    return true] (lines 450-452): [c.length] of a number is [undefined]
    and [0 < undefined] is false. *)
Definition validate (c : JsVal) : bool :=
  match c with
  | JStr s => forallb (fun b => (65 <=? b) && (b <=? 122)) s
  | JNum _ => true
  end.

(** [isValidVersion(c)] on the challenge [c] and the current [idba]:
    the updated [idba] and the verdict, unless the overwrite loop throws
    or never ends. *)
Definition isValidVersion `{Extractor} (c idba : list Z) : Completion (list Z * bool) :=
  let a := decode_challenge c 0 23 0 in
  let '(str, count) := extractStringAndNumber a in
  match overwrite idba str count with
  | Throw => Throw
  | Diverge => Diverge
  | Normal idba1 =>
      let idba2 := transform idba1 0 0 in
      Normal (idba2, validate (JNum (Z.of_nat (length idba2))))
  end.

(** The frame of [clientInit()] (lines 495-526) for the random flavour
    byte [cv]: 28 bytes. *)
Definition cpw : list Z :=
  [54; 206; 204; 169; 97; 178; 74; 136; 124; 117; 14; 210; 106; 236; 8; 208; 136; 213; 140; 111].

Definition client_version : Z := 291.

Definition clientInit_frame (cv : Z) : list Z :=
  [115; 30; Z.land (Z.shiftr client_version 8) 255; Z.land client_version 255] ++ cpw ++
  [cv; 0; 0; 255].

(** The two frames of [onOpen()] (lines 133-143). *)
Definition onOpen_frames : list (list Z) := [[1]; [99; 0]].

(** [gotServerVersion(server_version)] with the random identifier [rid]
    and flavour byte [cv]: the new [idba] and the frames to send, unless
    [isValidVersion] throws or never ends.  The TypeError is raised at
    the first write, before [idba] changes. *)
Definition gotServerVersion `{Extractor} (rid : list Z) (cv : Z) (c : list Z)
  : list Z * Completion (list (list Z)) :=
  match isValidVersion c rid with
  | Throw => (rid, Throw)
  | Diverge => (rid, Diverge)
  | Normal (idba', ok) => (idba', Normal (if ok then [idba'; clientInit_frame cv] else []))
  end.

(** The challenges on which [isValidVersion] does not return, whatever
    [idba] is: a positive loop bound without a secret, or a loop bound
    too large for the loop to end. *)
Definition version_halts `{Extractor} (c : list Z) : bool :=
  match extractStringAndNumber (decode_challenge c 0 23 0) with
  | (None, Some n) => 0 <? n
  | (Some _, Some n) => LOOP_FOREVER <=? n
  | (_, None) => false
  end.

(** The identifiers [gotServerVersion] draws: 27 ASCII letters. *)
Definition is_letter (x : Z) : bool := ((65 <=? x) && (x <=? 90)) || ((97 <=? x) && (x <=? 122)).
Definition letters_id (rid : list Z) : bool := Nat.eqb (length rid) 27 && forallb is_letter rid.

(** ** The transform as the specification states it *)

(** [normalizedValue]: a letter's index in the alphabet, either case. *)
Definition norm (x : Z) : Z := (if 97 <=? x then x - 32 else x) - 65.

(** The first letter of the case class of [x]. *)
Definition case_base (x : Z) : Z := if 97 <=? x then 97 else 65.

(** [seed = 3 + v0] at index 0; [out_i = (seed + v_i) mod 26] in the case
    class of the input; [seed += 2 + v_i]. *)
Fixpoint spec_transform (l : list Z) (seed : Z) (first : bool) : list Z :=
  match l with
  | [] => []
  | x :: t =>
      let s := if first then 3 + norm x else seed in
      case_base x + (s + norm x) mod 26 :: spec_transform t (s + 2 + norm x) false
  end.

Lemma norm_letter x : is_letter x = true -> 0 <= norm x < 26.
Proof. unfold is_letter, norm. intros H. zbool_in H. case_ifs; lia. Qed.

Lemma transform_letters l c b :
  forallb is_letter l = true -> (c = 0 \/ (0 < c /\ 0 <= b)) ->
  transform l c b = spec_transform l b (c =? 0).
Proof.
  revert c b. induction l as [|x t IH]; intros c b Hl Hc; [reflexivity|].
  simpl in Hl. apply andb_true_iff in Hl as [Hx Ht]. pose proof (norm_letter x Hx) as Hn.
  cbn [transform spec_transform]. fold (norm x). fold (case_base x).
  unfold norm in Hn |- *. unfold case_base.
  set (v := (if 97 <=? x then x - 32 else x) - 65) in *.
  set (s := if c =? 0 then 3 + v else b).
  assert (Hs : 0 <= s) by (unfold s; destruct Hc as [->|[Hc Hb]]; [rewrite Z.eqb_refl; lia|]; case_ifs; lia).
  rewrite Z.rem_mod_nonneg by lia. f_equal.
  - unfold to_uint8. pose proof (Z.mod_pos_bound (v + s) 26).
    rewrite Z.mod_small; [rewrite (Z.add_comm s v); lia|].
    unfold is_letter in Hx. zbool_in Hx. case_ifs; lia.
  - rewrite Z.add_comm. rewrite IH by (exact Ht || (right; lia)).
    replace (c + 1 =? 0) with false by (symmetry; apply Z.eqb_neq; destruct Hc; lia).
    f_equal. lia.
Qed.

(** C13: The identifier transform.  On a 27-letter identifier (what
    [gotServerVersion] draws, and what the overwrite keeps when the secret
    is made of letters) the in-place loop of [isValidVersion] computes
    exactly the specification's formula: [seed = 3 + v0],
    [out_i = base_i + (seed + v_i) mod 26], [seed += 2 + v_i]. *)
Theorem transform_spec (l : list Z) :
  forallb is_letter l = true -> transform l 0 0 = spec_transform l 0 true.
Proof. intros H. apply (transform_letters l 0 0 H). left. reflexivity. Qed.

Lemma transform_spec_witness :
  transform [72; 105; 90; 122] 0 0 = spec_transform [72; 105; 90; 122] 0 true.
Proof. apply transform_spec. reflexivity. Defined.

Lemma spec_transform_letters l seed first :
  forallb is_letter l = true ->
  Forall2 (fun x y => case_base y = case_base x /\ is_letter y = true) l (spec_transform l seed first).
Proof.
  revert seed first. induction l as [|x t IH]; intros seed first Hl; [constructor|].
  simpl in Hl. apply andb_true_iff in Hl as [Hx Ht]. cbn [spec_transform]. constructor; [|apply IH, Ht].
  pose proof (Z.mod_pos_bound ((if first then 3 + norm x else seed) + norm x) 26 ltac:(lia)).
  unfold case_base, is_letter in *. zbool_in Hx.
  case_ifs; rewrite ?orb_true_iff, ?andb_true_iff, ?Z.leb_le; lia.
Qed.

(** C7: The challenge is never rejected.  Whatever the challenge text
    and whatever the extractor recovers, [gotServerVersion] sends the
    transformed identifier and the [clientInit] frame, since the
    validation loop of [isValidVersion] reads the length of a number and
    never runs; otherwise it throws the TypeError of a missing secret with
    a positive count, or loops forever on a count beyond [2^53 + 1]. *)
Theorem gotServerVersion_never_rejects `{Extractor} (rid : list Z) (cv : Z) (c : list Z) :
  match gotServerVersion rid cv c with
  | (idba', Normal frames) => frames = [idba'; clientInit_frame cv]
  | (idba', Throw) =>
      idba' = rid /\ exists n, extractStringAndNumber (decode_challenge c 0 23 0) = (None, Some n) /\ 0 < n
  | (idba', Diverge) =>
      idba' = rid /\ exists s n, extractStringAndNumber (decode_challenge c 0 23 0) = (Some s, Some n) /\ LOOP_FOREVER <= n
  end.
Proof.
  unfold gotServerVersion, isValidVersion.
  destruct (extractStringAndNumber (decode_challenge c 0 23 0)) as [str count] eqn:E.
  destruct (overwrite rid str count) as [idba1| |] eqn:Ho; [reflexivity| |];
    (split; [reflexivity|]); unfold overwrite in Ho;
    (destruct count as [n|]; [|discriminate]); destruct (n <=? 0) eqn:En; try discriminate;
    (destruct str as [s|]; [destruct (LOOP_FOREVER <=? n) eqn:Eb|]); try discriminate; zbool.
  - exists n. split; [reflexivity | lia].
  - exists s, n. split; [reflexivity | lia].
Qed.

(** The challenges on which the handshake does not return are exactly
    those of [version_halts], whatever identifier was drawn. *)
Lemma gotServerVersion_halts `{Extractor} rid cv c :
  (match snd (gotServerVersion rid cv c) with Normal _ => false | _ => true end) = version_halts c.
Proof.
  unfold gotServerVersion, isValidVersion, version_halts.
  destruct (extractStringAndNumber (decode_challenge c 0 23 0)) as [[s|] [n|]]; unfold overwrite; try reflexivity;
    destruct (n <=? 0) eqn:E1; cbn -[LOOP_FOREVER]; zbool.
  - symmetry. apply Z.leb_gt. unfold LOOP_FOREVER. lia.
  - destruct (LOOP_FOREVER <=? n); reflexivity.
  - symmetry. apply Z.ltb_ge. lia.
  - symmetry. apply Z.ltb_lt. lia.
Qed.

(** ** The extractor on a well-formed challenge

    The scan of [concat_all] consumes at least one character per
    iteration, so the length of the text is enough fuel; on text of the
    shape the server sends, the three patterns recover the secret and the
    bound. *)

Lemma skip_while_length p s : (length (skip_while p s) <= length s)%nat.
Proof. induction s as [|c t IH]; simpl; [lia|]. destruct (p c); simpl; lia. Qed.

Lemma lit_length c s t : lit c s = Some t -> (length t < length s)%nat.
Proof. destruct s as [|x s]; simpl; [discriminate|]. destruct (x =? c); [|discriminate]. intros [= <-]. lia. Qed.

Lemma body_match_cons q c t :
  body_match q (c :: t) =
  if c =? q then Some ([], t)
  else
    match (if c =? 92 then
             match t with
             | c2 :: t2 => if is_line_term c2 then None
                           else option_map (fun '(b, r) => (c :: c2 :: b, r)) (body_match q t2)
             | [] => None
             end
           else None) with
    | Some r => Some r
    | None => option_map (fun '(b, r) => (c :: b, r)) (body_match q t)
    end.
Proof. reflexivity. Qed.

Lemma body_match_length q n : forall s b r,
  (length s <= n)%nat -> body_match q s = Some (b, r) -> (length r < length s)%nat.
Proof.
  induction n as [|n IH]; intros [|c t] b r Hn E; simpl in Hn; try lia; try discriminate.
  assert (Hsub : forall x b' r', (length x <= length t)%nat -> body_match q x = Some (b', r') ->
                 (length r' < S (length t))%nat).
  { intros x b' r' Hx E'. apply IH in E'; lia. }
  assert (Hfb : option_map (fun '(b, r) => (c :: b, r)) (body_match q t) = Some (b, r) ->
                (length r < S (length t))%nat).
  { destruct (body_match q t) as [[b1 r1]|] eqn:E1; simpl; [|discriminate].
    intros [= _ <-]. apply (Hsub t b1 r1); [lia | exact E1]. }
  rewrite body_match_cons in E. simpl length. destruct (c =? q); [injection E as _ <-; lia|].
  destruct (c =? 92); [|exact (Hfb E)].
  destruct t as [|c2 t2]; [exact (Hfb E)|].
  destruct (is_line_term c2); [exact (Hfb E)|].
  destruct (body_match q t2) as [[b2 r2]|] eqn:E2; cbn [option_map] in E; [|exact (Hfb E)].
  injection E as _ <-. apply (Hsub t2 b2 r2); [simpl; lia | exact E2].
Qed.

Lemma quoted_length s q b r : quoted s = Some (q, b, r) -> (length r < length s)%nat.
Proof.
  destruct s as [|q0 t]; simpl; [discriminate|]. destruct (is_quote q0); [|discriminate].
  destruct (body_match q0 t) as [[b' r']|] eqn:E; simpl; [|discriminate]. intros [= _ _ <-].
  apply (body_match_length q0 (length t)) in E; lia.
Qed.

Lemma ws0_length s : (length (ws0 s) <= length s)%nat.
Proof. apply skip_while_length. Qed.

(** Each step of a match chain leaves a shorter or equal suffix: split a
    chain into its steps and compare the lengths. *)
Ltac chain_len :=
  cbv zeta;
  repeat match goal with
  | |- context [ws0 ?x] => generalize (ws0_length x); generalize (ws0 x); intros ? ?
  | |- context [lit ?c ?x] => let E := fresh "E" in destruct (lit c x) eqn:E; [apply lit_length in E|]
  | |- context [quoted ?x] =>
      let E := fresh "E" in destruct (quoted x) as [[[? ?] ?]|] eqn:E; [apply quoted_length in E|]
  end;
  intros Hm; try discriminate; injection Hm as <- <- <-; lia.

Lemma match_concat_length s q b r : match_concat s = Some (q, b, r) -> (length r < length s)%nat.
Proof. unfold match_concat. chain_len. Qed.

Lemma concat_all_fuel_mono fuel : forall k p s,
  (length s <= fuel)%nat -> concat_all (fuel + k) p s = concat_all fuel p s.
Proof.
  induction fuel as [|fuel IH]; intros k p [|c t] Hs; simpl in Hs; try lia;
    [destruct k; reflexivity | destruct k; reflexivity |].
  cbn [concat_all Nat.add].
  destruct (if word_boundary p then match_concat (c :: t) else None) as [[[q b] r]|] eqn:E.
  - f_equal. apply IH. destruct (word_boundary p); [|discriminate].
    apply match_concat_length in E. simpl in E. lia.
  - apply IH. lia.
Qed.

(** Fuel adequacy: any fuel at least the length of the text computes the
    same matches. *)
Lemma concat_all_fuel fuel p s :
  (length s <= fuel)%nat -> concat_all fuel p s = concat_all (length s) p s.
Proof.
  intros H. replace fuel with (length s + (fuel - length s))%nat by lia.
  apply concat_all_fuel_mono. lia.
Qed.

Lemma concat_step_skip p c t :
  (if word_boundary p then match_concat (c :: t) else None) = None ->
  concat_all (length (c :: t)) p (c :: t) = concat_all (length t) (Some c) t.
Proof. intros E. cbn [length concat_all]. rewrite E. reflexivity. Qed.

Lemma concat_step_match p c t q b r :
  word_boundary p = true -> match_concat (c :: t) = Some (q, b, r) ->
  concat_all (length (c :: t)) p (c :: t) = b :: concat_all (length r) (Some q) r.
Proof.
  intros Hb E. cbn [length concat_all]. rewrite Hb, E. f_equal. apply concat_all_fuel.
  apply match_concat_length in E. simpl in E. lia.
Qed.

Lemma letter_not_special c :
  is_letter c = true -> is_ws c = false /\ c <> 39 /\ c <> 92 /\ is_digit c = false.
Proof. unfold is_letter, is_ws, is_digit. intros H. zbool_in H. repeat split; try lia; zbool; lia. Qed.

(** Letters up to a single quote: no pattern can start in such text. *)
Definition plain (l : list Z) : Prop :=
  exists s rest, l = s ++ 39 :: rest /\ forallb is_letter s = true.

Lemma plain_intro s rest : forallb is_letter s = true -> plain (s ++ 39 :: rest).
Proof. intros H. exists s, rest. split; [reflexivity | exact H]. Qed.

Lemma plain_head l : plain l -> exists c t, l = c :: t /\ (is_letter c = true \/ c = 39).
Proof.
  intros ([|c s] & rest & -> & Hs); simpl; eauto.
  apply andb_true_iff in Hs as [Hc _]. eauto.
Qed.

Lemma lit_plain k l t : plain l -> lit k l = Some t -> is_letter k = true -> plain t.
Proof.
  intros ([|c s] & rest & -> & Hs) E Hk; cbn [app lit] in E.
  - destruct (Z.eqb_spec 39 k) as [<-|]; discriminate.
  - destruct (Z.eqb_spec c k) as [<-|]; [|discriminate]. injection E as <-.
    apply andb_true_iff in Hs. exists s, rest. split; [reflexivity | apply Hs].
Qed.

Lemma lit_plain_none k l : plain l -> is_letter k = false -> k <> 39 -> lit k l = None.
Proof.
  intros Hp Hk Hq. destruct (plain_head l Hp) as (c & t & -> & [Hc | ->]); cbn [lit].
  - destruct (Z.eqb_spec c k) as [->|]; [congruence | reflexivity].
  - destruct (Z.eqb_spec 39 k); [congruence | reflexivity].
Qed.

Lemma ws0_plain l : plain l -> ws0 l = l.
Proof.
  intros Hp. destruct (plain_head l Hp) as (c & t & -> & [Hc | ->]); [|reflexivity].
  unfold ws0. simpl. destruct (letter_not_special c Hc) as [-> _]. reflexivity.
Qed.

Lemma match_concat_plain l : plain l -> match_concat l = None.
Proof.
  intros Hp. unfold match_concat. cbv zeta. destruct (lit 97 l) as [t|] eqn:E; [|reflexivity].
  apply (lit_plain _ _ _ Hp) in E; [|reflexivity].
  rewrite (ws0_plain _ E), (lit_plain_none 43 _ E), (lit_plain_none 61 _ E) by (reflexivity || discriminate).
  reflexivity.
Qed.

Lemma match_for_plain l : plain l -> match_for l = None.
Proof.
  intros Hp. unfold match_for.
  destruct (lit 102 l) as [t1|] eqn:E1; [|reflexivity]. apply (lit_plain _ _ _ Hp) in E1; [|reflexivity].
  destruct (lit 111 t1) as [t2|] eqn:E2; [|reflexivity]. apply (lit_plain _ _ _ E1) in E2; [|reflexivity].
  destruct (lit 114 t2) as [t3|] eqn:E3; [|reflexivity]. apply (lit_plain _ _ _ E2) in E3; [|reflexivity].
  rewrite (ws0_plain _ E3), (lit_plain_none 40 _ E3) by (reflexivity || discriminate). reflexivity.
Qed.

Lemma body_match_letters s r :
  forallb is_letter s = true -> body_match 39 (s ++ 39 :: r) = Some (s, r).
Proof.
  induction s as [|c s IH]; intros Hs; [reflexivity|].
  apply andb_true_iff in Hs as [Hc Hs]. destruct (letter_not_special c Hc) as (_ & Hq & Hb & _).
  simpl app. rewrite body_match_cons.
  rewrite (proj2 (Z.eqb_neq c 39) Hq), (proj2 (Z.eqb_neq c 92) Hb), IH by exact Hs. reflexivity.
Qed.

Lemma quoted_letters s r : forallb is_letter s = true -> quoted (39 :: s ++ 39 :: r) = Some (39, s, r).
Proof. intros Hs. unfold quoted. simpl is_quote. rewrite body_match_letters by exact Hs. reflexivity. Qed.

(** Scanning over plain text finds no concatenation. *)
Lemma concat_plain s rest p : forallb is_letter s = true ->
  concat_all (length (s ++ 39 :: rest)) p (s ++ 39 :: rest) = concat_all (length rest) (Some 39) rest.
Proof.
  revert p. induction s as [|c s IH]; intros p Hs.
  - apply concat_step_skip. destruct (word_boundary p); reflexivity.
  - simpl app. rewrite concat_step_skip.
    + apply IH. apply andb_true_iff in Hs. apply Hs.
    + rewrite match_concat_plain by exact (plain_intro (c :: s) rest Hs). destruct (word_boundary p); reflexivity.
Qed.

(** Text without the letter [a] holds no concatenation. *)
Lemma concat_no_a l p : forallb (fun c => negb (c =? 97)) l = true -> concat_all (length l) p l = [].
Proof.
  revert p. induction l as [|c l IH]; intros p Hl; [reflexivity|].
  apply andb_true_iff in Hl as [Hc Hl]. rewrite concat_step_skip; [apply IH, Hl|].
  unfold match_concat, lit. apply negb_true_iff in Hc. rewrite Hc. destruct (word_boundary p); reflexivity.
Qed.

Lemma find_first_cons {A} (f : list Z -> option A) c t :
  f (c :: t) = None -> find_first f (c :: t) = find_first f t.
Proof. intros E. simpl. rewrite E. reflexivity. Qed.

Lemma find_first_hit {A} (f : list Z -> option A) l r : f l = Some r -> find_first f l = Some r.
Proof. intros E. destruct l; simpl; rewrite E; reflexivity. Qed.

Lemma find_for_plain s rest :
  forallb is_letter s = true -> find_first match_for (s ++ 39 :: rest) = find_first match_for rest.
Proof.
  induction s as [|c s IH]; intros Hs; [apply find_first_cons; reflexivity|].
  simpl app. rewrite find_first_cons.
  - apply IH. apply andb_true_iff in Hs. apply Hs.
  - apply match_for_plain. exact (plain_intro (c :: s) rest Hs).
Qed.

(** ** The shape of a challenge

    The fragment [decode_challenge] recovers is a small script:
    [var a = 's0';], then [ a += 's';] for each further segment of the
    secret, then [ for (var i = 0; i < N; i++) {}]. *)
Definition seg_text (s : list Z) : list Z := [32; 97; 32; 43; 61; 32; 39] ++ s ++ [39; 59].

Definition for_text (ds : list Z) : list Z :=
  [32; 102; 111; 114; 32; 40; 118; 97; 114; 32; 105; 32; 61; 32; 48; 59; 32; 105; 32; 60; 32] ++ ds ++
  [59; 32; 105; 43; 43; 41; 32; 123; 125].

Definition challenge_src (s0 : list Z) (segs : list (list Z)) (ds : list Z) : list Z :=
  [118; 97; 114; 32; 97; 32; 61; 32; 39] ++ s0 ++ [39; 59] ++ concat (map seg_text segs) ++ for_text ds.

(** How a server encodes a fragment for [decode_challenge]: each byte as
    two lowercase letters, its high and its low hexadecimal digit shifted
    by the rolling offset. *)
Fixpoint encode_challenge (frag : list Z) (e : Z) : list Z :=
  match frag with
  | [] => []
  | t :: r => (97 + (t / 16 + e) mod 26) :: (97 + (t mod 16 + e + 17) mod 26) :: encode_challenge r (e + 34)
  end.

Lemma digits_no_a ds : forallb is_digit ds = true -> forallb (fun c => negb (c =? 97)) ds = true.
Proof.
  induction ds as [|d ds IH]; intros H; [reflexivity|]. simpl in *. apply andb_true_iff in H as [Hd H].
  rewrite IH by exact H. unfold is_digit in Hd. zbool_in Hd. destruct (Z.eqb_spec d 97); [lia | reflexivity].
Qed.

Lemma concat_segs segs tail :
  Forall (fun s => forallb is_letter s = true) segs ->
  concat_all (length (concat (map seg_text segs) ++ tail)) (Some 59) (concat (map seg_text segs) ++ tail)
  = segs ++ concat_all (length tail) (Some 59) tail.
Proof.
  induction segs as [|s segs IH]; intros Hs; [reflexivity|].
  inversion Hs as [|? ? Hs0 Hs']; subst.
  cbn [map concat]. unfold seg_text. rewrite <- !app_assoc. cbn [app].
  rewrite concat_step_skip by reflexivity.
  rewrite (concat_step_match _ _ _ 39 s (59 :: concat (map seg_text segs) ++ tail)); [| reflexivity |].
  - rewrite concat_step_skip by reflexivity. cbn [app]. f_equal. apply IH, Hs'.
  - unfold match_concat. cbn -[quoted]. rewrite quoted_letters by exact Hs0. reflexivity.
Qed.

Lemma concat_for ds p : forallb is_digit ds = true -> concat_all (length (for_text ds)) p (for_text ds) = [].
Proof.
  intros Hd. unfold for_text. cbn [app].
  do 8 (rewrite concat_step_skip by (destruct (word_boundary p); reflexivity)).
  apply concat_no_a. cbn [forallb]. rewrite forallb_app, digits_no_a by exact Hd. reflexivity.
Qed.

Lemma find_for_segs segs tail :
  Forall (fun s => forallb is_letter s = true) segs ->
  find_first match_for (concat (map seg_text segs) ++ tail) = find_first match_for tail.
Proof.
  induction segs as [|s segs IH]; intros Hs; [reflexivity|].
  inversion Hs as [|? ? Hs0 Hs']; subst.
  cbn [map concat]. unfold seg_text. rewrite <- !app_assoc. cbn [app].
  do 7 (rewrite find_first_cons by reflexivity).
  rewrite find_for_plain by exact Hs0. rewrite find_first_cons by reflexivity. apply IH, Hs'.
Qed.

Lemma take_digits ds X : forallb is_digit ds = true -> take_while is_digit (ds ++ 59 :: X) = ds.
Proof.
  induction ds as [|d ds IH]; intros H; [reflexivity|]. simpl in H |- *.
  apply andb_true_iff in H as [Hd H]. rewrite Hd, IH by exact H. reflexivity.
Qed.

Lemma ws0_digits ds X : ds <> [] -> forallb is_digit ds = true -> ws0 (ds ++ X) = ds ++ X.
Proof.
  destruct ds as [|d ds]; [congruence|]. intros _ H. simpl in H. apply andb_true_iff in H as [Hd _].
  unfold ws0. simpl. unfold is_digit in Hd. zbool_in Hd.
  replace (is_ws d) with false by (unfold is_ws; symmetry; zbool; lia). reflexivity.
Qed.

Lemma plus_digits ds X :
  ds <> [] -> forallb is_digit ds = true -> plus is_digit (ds ++ 59 :: X) = Some (ds, 59 :: X).
Proof.
  intros Hne Hd. unfold plus. rewrite take_digits by exact Hd.
  destruct ds as [|d ds]; [congruence|].
  rewrite skipn_app, skipn_all, Nat.sub_diag, skipn_O. reflexivity.
Qed.

Lemma for_text_match ds :
  ds <> [] -> forallb is_digit ds = true -> find_first match_for (for_text ds) = Some ds.
Proof.
  intros Hne Hd. unfold for_text. cbn [app]. rewrite find_first_cons by reflexivity.
  apply find_first_hit. unfold match_for. simpl.
  change (ws0 (32 :: ?X)) with (ws0 X). unfold for_tail. simpl.
  change (ws0 (32 :: ?X)) with (ws0 X). rewrite ws0_digits, plus_digits by assumption.
  reflexivity.
Qed.

(** C12: The challenge extractor.  On a challenge of the shape the server
    sends — [var a = 's0';], then [a += 's';] for each further segment,
    then [for (var i = 0; i < N; i++) {}] — with segments made of letters
    and a bound [N] that is a finite double, [extractStringAndNumber]
    returns the concatenation of the segments and [N]. *)
Theorem extract_challenge (s0 : list Z) (segs : list (list Z)) (ds : list Z) :
  forallb is_letter s0 = true -> Forall (fun s => forallb is_letter s = true) segs ->
  ds <> [] -> forallb is_digit ds = true -> parse_digits ds < DOUBLE_OVERFLOW ->
  extract_code (challenge_src s0 segs ds) = (Some (s0 ++ concat segs), Some (parse_digits ds)).
Proof.
  intros H0 Hs Hne Hd Hv. unfold extract_code.
  assert (Hi : find_first match_init (challenge_src s0 segs ds) = Some s0).
  { apply find_first_hit. unfold challenge_src, match_init. cbn -[quoted].
    rewrite quoted_letters by exact H0. reflexivity. }
  assert (Hc : concat_all (length (challenge_src s0 segs ds)) None (challenge_src s0 segs ds) = segs).
  { unfold challenge_src. cbn [app]. do 9 (rewrite concat_step_skip by reflexivity).
    rewrite concat_plain by exact H0. rewrite concat_step_skip by reflexivity.
    rewrite concat_segs by exact Hs. rewrite concat_for by exact Hd. apply app_nil_r. }
  assert (Hf : find_first match_for (challenge_src s0 segs ds) = Some ds).
  { unfold challenge_src. cbn [app]. do 9 (rewrite find_first_cons by reflexivity).
    rewrite find_for_plain by exact H0. rewrite find_first_cons by reflexivity.
    rewrite find_for_segs by exact Hs. apply for_text_match; assumption. }
  rewrite Hi, Hc, Hf. rewrite (proj2 (Z.ltb_lt _ _) Hv). reflexivity.
Qed.

Lemma extract_challenge_witness :
  extract_code (challenge_src [88; 121] [[81]; [122; 65]] [50; 55]) =
    (Some ([88; 121] ++ concat [[81]; [122; 65]]), Some (parse_digits [50; 55])).
Proof.
  apply extract_challenge; [reflexivity | repeat constructor | discriminate | reflexivity | vm_compute; reflexivity].
Defined.
