(* ===== verification/Session.v ===== *)
(** * Session: the [SocketClient] state machine

    One [SocketClient] ([src/socketClient.js], lines 94-563) is one
    connection attempt.  Its fields are the record [Client]; the
    process-wide score table, the clock and the random draws are the
    record [World].  Every method is a computation of the monad [M], which
    threads both records and accumulates the observable effects: frames
    sent, the settlement of the stats promise, socket closes, timers, and
    the end of the process ([Crash], [Hang]).  [handle] dispatches one
    event of the transport, the timer or the caller; [run_events] runs a
    sequence of them in order, until the process stops.

    Environment assumptions, as the [ws] library and Node guarantee them:
    [open] fires only on a connecting socket, a cleared timer does not
    fire, [ws.close()] moves the socket to CLOSING at once, and an
    unhandled promise rejection terminates the process (the default of
    Node from version 15). *)

From Stdlib Require Import ZArith List Lia Bool.
From S2P Require Import Prelude Framing Minimap ScoreTable Leaderboard Handshake.
Import ListNotations.
Open Scope Z_scope.
Local Open Scope js_scope.

(** ** Data *)

Inductive ReadyState := CONNECTING | OPEN | CLOSING | CLOSED.

(** The errors [_fail] receives; [ErrAlreadyCompleted] is the rejection of
    a second [returnStatsPromise] call (line 160). *)
Inductive SessionError :=
  | ErrTimeout | ErrClosedBeforeStats (code : Z) | ErrSocket | ErrAlreadyCompleted.

(** [{...this._leaderboardData, minimap, timestamp}] (lines 397-401). *)
Record Payload := mkPayload { pl_lb : LbData; pl_minimap : Minimap; pl_timestamp : Z }.

(** The fields of a [SocketClient] (lines 95-105): [waiting] says that
    [_resolveStats]/[_rejectStats] hold a pending promise, [statsTimeout]
    that [_statsTimeout] holds an armed timer. *)
Record Client := mkClient {
  ws : option ReadyState; idba : list Z; waiting : bool; statsTimeout : bool;
  completed : bool; pendingSuccess : option Payload; pendingFailure : option SessionError;
  leaderboardData : option LbData; minimapBase64 : option Minimap }.

(** The constructor: a connecting socket and nothing else (lines 95-107). *)
Definition new_client : Client :=
  mkClient (Some CONNECTING) [] false false false None None None None.

(** The module-level score table, [new Date()], and the index of the next
    random draw. *)
Record World := mkWorld { table : ScoreTable; now : Z; draws : nat }.

Inductive Effect :=
  | Send (bytes : list Z)        (** [this.ws.send(data)] *)
  | SendSkipped                  (** [send] on a socket that is not open *)
  | Resolve (p : Payload)        (** the stats promise resolves *)
  | Reject (e : SessionError)    (** the stats promise rejects *)
  | CloseSocket                  (** [this.ws.close()] *)
  | ArmTimeout                   (** [setTimeout(..., 15000)] *)
  | ClearTimeout                 (** [clearTimeout(this._statsTimeout)] *)
  | Crash                        (** the process terminates: see [halts] *)
  | Hang.                        (** a loop that never ends blocks the process *)

(** An exception thrown in the async [gotPacket] rejects its promise,
    which [onMessage] drops (lines 241, 245); the sources install no
    [unhandledRejection] handler, so Node (from version 15) terminates the
    process once the current event has been handled: the rest of the
    frame is still dispatched, no later event is.  A loop that never ends
    stops everything at once. *)
Definition halts (e : Effect) : bool := match e with Crash | Hang => true | _ => false end.
Definition hangs (e : Effect) : bool := match e with Hang => true | _ => false end.

(** ** The state-and-effects monad *)

Definition St : Type := World * Client.
Definition M (A : Type) : Type := St -> A * St * list Effect.

Definition ret {A} (x : A) : M A := fun s => (x, s, []).
Definition bind {A B} (m : M A) (k : A -> M B) : M B :=
  fun s => let '(a, s1, e1) := m s in let '(b, s2, e2) := k a s1 in (b, s2, e1 ++ e2).

Declare Scope session_scope.
Delimit Scope session_scope with session.
Notation "x <- m ;; k" := (bind m (fun x => k))
  (at level 61, m at next level, right associativity) : session_scope.
Notation "m ;; k" := (bind m (fun _ => k))
  (at level 61, right associativity) : session_scope.
Local Open Scope session_scope.

Definition gets {A} (f : Client -> A) : M A := fun s => (f (snd s), s, []).
Definition getw {A} (f : World -> A) : M A := fun s => (f (fst s), s, []).
Definition modify (f : Client -> Client) : M unit := fun s => (tt, (fst s, f (snd s)), []).
Definition modifyw (f : World -> World) : M unit := fun s => (tt, (f (fst s), snd s), []).
Definition emit (e : Effect) : M unit := fun s => (tt, s, [e]).

Fixpoint mapM_ {A} (f : A -> M unit) (l : list A) : M unit :=
  match l with [] => ret tt | x :: t => f x;; mapM_ f t end.

(** [m], then [k] unless [m] had an effect [stop] marks. *)
Definition seq_until (stop : Effect -> bool) (m k : M unit) : M unit :=
  fun s => let '(u, s1, e1) := m s in
           if existsb stop e1 then (u, s1, e1)
           else let '(u2, s2, e2) := k s1 in (u2, s2, e1 ++ e2).

Fixpoint mapM_until {A} (stop : Effect -> bool) (f : A -> M unit) (l : list A) : M unit :=
  match l with [] => ret tt | x :: t => seq_until stop (f x) (mapM_until stop f t) end.

(** Field updates. *)
Definition set_ws v c := mkClient v (idba c) (waiting c) (statsTimeout c) (completed c)
  (pendingSuccess c) (pendingFailure c) (leaderboardData c) (minimapBase64 c).
Definition set_idba v c := mkClient (ws c) v (waiting c) (statsTimeout c) (completed c)
  (pendingSuccess c) (pendingFailure c) (leaderboardData c) (minimapBase64 c).
Definition set_waiting v c := mkClient (ws c) (idba c) v (statsTimeout c) (completed c)
  (pendingSuccess c) (pendingFailure c) (leaderboardData c) (minimapBase64 c).
Definition set_statsTimeout v c := mkClient (ws c) (idba c) (waiting c) v (completed c)
  (pendingSuccess c) (pendingFailure c) (leaderboardData c) (minimapBase64 c).
Definition set_completed v c := mkClient (ws c) (idba c) (waiting c) (statsTimeout c) v
  (pendingSuccess c) (pendingFailure c) (leaderboardData c) (minimapBase64 c).
Definition set_pendingSuccess v c := mkClient (ws c) (idba c) (waiting c) (statsTimeout c)
  (completed c) v (pendingFailure c) (leaderboardData c) (minimapBase64 c).
Definition set_pendingFailure v c := mkClient (ws c) (idba c) (waiting c) (statsTimeout c)
  (completed c) (pendingSuccess c) v (leaderboardData c) (minimapBase64 c).
Definition set_leaderboardData v c := mkClient (ws c) (idba c) (waiting c) (statsTimeout c)
  (completed c) (pendingSuccess c) (pendingFailure c) v (minimapBase64 c).
Definition set_minimapBase64 v c := mkClient (ws c) (idba c) (waiting c) (statsTimeout c)
  (completed c) (pendingSuccess c) (pendingFailure c) (leaderboardData c) v.

Definition is_live (r : option ReadyState) : bool :=
  match r with Some OPEN | Some CONNECTING => true | _ => false end.

(** ** The methods *)

Section Methods.

Context `{Extractor}.

(** The random draws of [gotServerVersion] (27 letters) and [clientInit]
    (the flavour byte), indexed by the draw counter of [World]. *)
Variable random_id : nat -> list Z.
Variable random_cv : nat -> Z.

(** [send(data)] (lines 547-553). *)
Definition send (data : list Z) : M unit :=
  r <- gets ws;;
  match r with Some OPEN => emit (Send data) | _ => emit SendSkipped end.

(** [close()] (lines 555-563). *)
Definition close : M unit :=
  r <- gets ws;;
  match r with
  | None | Some CLOSING | Some CLOSED => ret tt
  | Some _ => emit CloseSocket;; modify (set_ws (Some CLOSING))
  end.

(** The timer handling shared by [_succeed] and [_fail]. *)
Definition clear_timer : M unit :=
  t <- gets statsTimeout;;
  if t then emit ClearTimeout;; modify (set_statsTimeout false) else ret tt.

(** [_succeed(payload)] (lines 173-189). *)
Definition succeed (p : Payload) : M unit :=
  done <- gets completed;;
  if done then ret tt else
  modify (set_completed true);;
  clear_timer;;
  modify (set_pendingFailure None);;
  w <- gets waiting;;
  (if w then emit (Resolve p) else modify (set_pendingSuccess (Some p)));;
  modify (set_waiting false);;
  close.

(** [_fail(error)] (lines 191-214). *)
Definition fail (e : SessionError) : M unit :=
  done <- gets completed;;
  if done then ret tt else
  modify (set_completed true);;
  clear_timer;;
  modify (set_pendingSuccess None);;
  w <- gets waiting;;
  (if w then emit (Reject e) else modify (set_pendingFailure (Some e)));;
  modify (set_waiting false);;
  r <- gets ws;;
  if is_live r then emit CloseSocket;; modify (set_ws (Some CLOSING)) else ret tt.

(** [returnStatsPromise()] (lines 145-171), its executor run at once. *)
Definition returnStatsPromise : M unit :=
  pf <- gets pendingFailure;;
  match pf with
  | Some e => modify (set_pendingFailure None);; emit (Reject e)
  | None =>
      ps <- gets pendingSuccess;;
      match ps with
      | Some p => modify (set_pendingSuccess None);; emit (Resolve p)
      | None =>
          done <- gets completed;;
          if done then emit (Reject ErrAlreadyCompleted)
          else modify (set_waiting true);; emit ArmTimeout;; modify (set_statsTimeout true)
      end
  end.

(** [_maybeWriteJSON()] (lines 395-405). *)
Definition maybeWriteJSON : M unit :=
  lb <- gets leaderboardData;;
  mm <- gets minimapBase64;;
  match lb, mm with
  | Some l, Some m => t <- getw now;; succeed (mkPayload l m t)
  | _, _ => ret tt
  end.

(** The ['6'] branch (lines 280-286) with [gotServerVersion]. *)
Definition on_version (a : list Z) : M unit :=
  k <- getw draws;;
  modifyw (fun w => mkWorld (table w) (now w) (S (draws w)));;
  let '(idba', frames) := gotServerVersion (random_id k) (random_cv k) (skipn 1 a) in
  modify (set_idba idba');;
  match frames with
  | Throw => emit Crash
  | Diverge => emit Hang
  | Normal fs => mapM_ send fs
  end.

(** [gotPacket(a)] (lines 249-393): dispatch on the command byte; an
    empty packet reads [a[0]] as [undefined], which matches no branch. *)
Definition gotPacket (a : list Z) : M unit :=
  let cmd := a.[0] in
  if cmd =? 97 then        (* 'a': arena configuration *)
    modifyw (fun w => mkWorld (setMscps (table w) (be16 a 4)) (now w) (draws w))
  else if cmd =? 54 then   (* '6': server version challenge *)
    on_version a
  else if cmd =? 77 then   (* 'M': minimap *)
    modify (set_minimapBase64 (Some (minimap_of_packet a)));; maybeWriteJSON
  else if cmd =? 108 then  (* 'l': leaderboard *)
    t <- getw table;;
    modify (set_leaderboardData (Some (gotLeaderboard t a)));; maybeWriteJSON
  else ret tt.             (* 'U', 'L', 'u' and anything else *)

(** [onMessage(event)] (lines 216-247): a packet whose handling never
    ends stops the loop over the frame. *)
Definition onMessage (frame : list Z) : M unit := mapM_until hangs gotPacket (onMessage_packets frame).

(** [onOpen()] (lines 133-143); [open] fires on a connecting socket only. *)
Definition onOpen : M unit :=
  r <- gets ws;;
  match r with
  | Some CONNECTING => modify (set_ws (Some OPEN));; mapM_ send onOpen_frames
  | _ => ret tt
  end.

(** [onClose(event)] (lines 528-538). *)
Definition onClose (code : Z) : M unit :=
  modify (set_ws None);;
  done <- gets completed;;
  if done then ret tt else fail (ErrClosedBeforeStats code).

(** [onError(event)] (lines 540-545). *)
Definition onError : M unit := fail ErrSocket.

(** The timer callback of line 167-169; a cleared timer never fires. *)
Definition onTimeout : M unit :=
  t <- gets statsTimeout;;
  if t then fail ErrTimeout else ret tt.

Inductive Event :=
  | EvOpen | EvMessage (frame : list Z) | EvClose (code : Z) | EvError
  | EvTimeout | EvAwait | EvCloseCall.

Definition handle (ev : Event) : M unit :=
  match ev with
  | EvOpen => onOpen
  | EvMessage f => onMessage f
  | EvClose code => onClose code
  | EvError => onError
  | EvTimeout => onTimeout
  | EvAwait => returnStatsPromise
  | EvCloseCall => close
  end.

(** The events in order, until the process terminates or hangs. *)
Fixpoint run_events (evs : list Event) : M unit :=
  match evs with [] => ret tt | e :: t => seq_until halts (handle e) (run_events t) end.

End Methods.

(** ** Invariants of the session, compositionally

    [keeps I cnt m]: running [m] from a client satisfying [I _ n] ends in
    a client satisfying [I _ (n + k)], where [k] counts the effects of [m]
    with weight [cnt].  The counter is the number of settlements of the
    stats promise, or of socket closes. *)

Definition count (cnt : Effect -> nat) (effs : list Effect) : nat := list_sum (map cnt effs).

Lemma count_app cnt e1 e2 : count cnt (e1 ++ e2) = (count cnt e1 + count cnt e2)%nat.
Proof. unfold count. rewrite map_app, list_sum_app. reflexivity. Qed.

Section Keeps.

Variable I : Client -> nat -> Prop.
Variable cnt : Effect -> nat.

Definition keeps {A} (m : M A) : Prop :=
  forall w c n, I c n ->
  let '(_, (_, c'), effs) := m (w, c) in I c' (n + count cnt effs).

Lemma keeps_ret {A} (x : A) : keeps (ret x).
Proof. intros w c n H. simpl. rewrite Nat.add_0_r. exact H. Qed.

Lemma keeps_bind {A B} (m : M A) (k : A -> M B) :
  keeps m -> (forall a, keeps (k a)) -> keeps (bind m k).
Proof.
  intros Hm Hk w c n H. unfold bind. specialize (Hm w c n H).
  destruct (m (w, c)) as [[a [w1 c1]] e1]. specialize (Hk a w1 c1 _ Hm).
  destruct (k a (w1, c1)) as [[b [w2 c2]] e2]. rewrite count_app, Nat.add_assoc. exact Hk.
Qed.

Lemma keeps_gets {A} (f : Client -> A) : keeps (gets f).
Proof. intros w c n H. simpl. rewrite Nat.add_0_r. exact H. Qed.

Lemma keeps_getw {A} (f : World -> A) : keeps (getw f).
Proof. intros w c n H. simpl. rewrite Nat.add_0_r. exact H. Qed.

Lemma keeps_modifyw f : keeps (modifyw f).
Proof. intros w c n H. simpl. rewrite Nat.add_0_r. exact H. Qed.

Lemma keeps_modify f : (forall c n, I c n -> I (f c) n) -> keeps (modify f).
Proof. intros Hf w c n H. simpl. rewrite Nat.add_0_r. apply Hf, H. Qed.

Lemma keeps_emit e : cnt e = 0%nat -> keeps (emit e).
Proof. intros He w c n H. simpl. unfold count. simpl. rewrite He, !Nat.add_0_r. exact H. Qed.

Lemma keeps_mapM_ {A} (f : A -> M unit) l : (forall x, keeps (f x)) -> keeps (mapM_ f l).
Proof.
  intros Hf. induction l as [|x t IH]; [apply keeps_ret|]. apply keeps_bind; [apply Hf | intros; exact IH].
Qed.

Lemma keeps_seq_until stop m k : keeps m -> keeps k -> keeps (seq_until stop m k).
Proof.
  intros Hm Hk w c n H. unfold seq_until. specialize (Hm w c n H).
  destruct (m (w, c)) as [[a [w1 c1]] e1]. destruct (existsb stop e1); [exact Hm|].
  specialize (Hk w1 c1 _ Hm). destruct (k (w1, c1)) as [[b [w2 c2]] e2].
  rewrite count_app, Nat.add_assoc. exact Hk.
Qed.

Lemma keeps_mapM_until {A} stop (f : A -> M unit) l : (forall x, keeps (f x)) -> keeps (mapM_until stop f l).
Proof.
  intros Hf. induction l as [|x t IH]; [apply keeps_ret|]. apply keeps_seq_until; [apply Hf | exact IH].
Qed.

End Keeps.

#[export] Hint Resolve keeps_ret keeps_gets keeps_getw keeps_modifyw keeps_bind keeps_mapM_ keeps_seq_until keeps_mapM_until : slither.

(** Decompose a computation built with [bind], [if] and [match] into the
    [keeps] obligations of its primitives. *)
Ltac keeps_step :=
  repeat (first
    [ apply keeps_bind; [|intros ?]
    | apply keeps_ret | apply keeps_gets | apply keeps_getw | apply keeps_modifyw
    | match goal with
      | |- keeps _ _ (if ?b then _ else _) => destruct b
      | |- keeps _ _ (match ?x with _ => _ end) => destruct x
      end ]).

(** Unfold the monad and the field updates so that a computation on a
    client given field by field reduces to its result. *)
Ltac run_m :=
  cbv [bind ret gets getw modify modifyw emit set_ws set_idba set_waiting set_statsTimeout
       set_completed set_pendingSuccess set_pendingFailure set_leaderboardData
       set_minimapBase64 clear_timer close send succeed fail returnStatsPromise
       onTimeout onError onClose onOpen onOpen_frames mapM_ seq_until is_live] in *; cbn in *.

(** ** The stats promise settles at most once *)

(** A settlement is a resolution or a rejection, except the rejection of a
    second [returnStatsPromise] call, which concerns a second promise. *)
Definition settles (e : Effect) : nat :=
  match e with
  | Resolve _ => 1
  | Reject ErrAlreadyCompleted => 0
  | Reject _ => 1
  | _ => 0
  end.

Definition opt_size {A} (o : option A) : nat := match o with Some _ => 1 | None => 0 end.

(** Before completion nothing is settled or pending; afterwards the
    settlements made plus the one still pending never exceed one. *)
Definition settle_inv (c : Client) (n : nat) : Prop :=
  (completed c = false -> n = 0%nat /\ pendingSuccess c = None /\ pendingFailure c = None) /\
  (n + opt_size (pendingSuccess c) + opt_size (pendingFailure c) <= 1)%nat.

Ltac settle_solve :=
  intros w [ws0 idba0 wt0 st0 cp0 ps0 pf0 lb0 mm0] n [H1 H2]; destruct cp0; run_m;
  repeat (match goal with
  | |- context [match ?x with _ => _ end] => is_var x; destruct x
  | |- context [if ?b then _ else _] => is_var b; destruct b
  end; cbn in * );
  unfold settle_inv, count in *; cbn in *;
  repeat match goal with H : ?a = ?a -> _ |- _ => specialize (H eq_refl) end;
  try match goal with H : _ = 0%nat /\ _ /\ _ |- _ => destruct H as (? & ? & ?); subst; cbn in * end;
  try (exfalso; congruence);
  try (split; [intros; discriminate || (split; [lia | auto]) | cbn in *; lia]).

Lemma succeed_settle p : keeps settle_inv settles (succeed p).
Proof. settle_solve. Qed.

Lemma fail_settle e : keeps settle_inv settles (fail e).
Proof. settle_solve. Qed.

Lemma returnStatsPromise_settle : keeps settle_inv settles returnStatsPromise.
Proof. settle_solve. Qed.

Lemma close_settle : keeps settle_inv settles close.
Proof. settle_solve. Qed.

Lemma send_settle d : keeps settle_inv settles (send d).
Proof. settle_solve. Qed.

(** Close the [keeps] obligations of the primitives of a handler; the
    lemmas about whole methods are tried before [bind] opens them. *)
Ltac keeps_prims lemmas :=
  repeat (first
    [ solve [lemmas]
    | solve [apply keeps_emit; reflexivity]
    | solve [apply keeps_modify; intros ? ? Hinv; exact Hinv]
    | apply keeps_mapM_; intros
    | apply keeps_mapM_until; intros
    | apply keeps_seq_until
    | apply keeps_bind; [|intros ?]
    | apply keeps_ret | apply keeps_gets | apply keeps_getw | apply keeps_modifyw
    | match goal with
      | |- keeps _ _ (if ?b then _ else _) => destruct b
      | |- keeps _ _ (match ?x with _ => _ end) => destruct x
      end ]).

Ltac settle_lemmas :=
  first [ apply succeed_settle | apply fail_settle | apply returnStatsPromise_settle
        | apply close_settle | apply send_settle ].

Section SettleOnce.

Context `{Extractor}.
Variable random_id : nat -> list Z.
Variable random_cv : nat -> Z.

Lemma maybeWriteJSON_settle : keeps settle_inv settles maybeWriteJSON.
Proof. unfold maybeWriteJSON. keeps_prims settle_lemmas. Qed.

Lemma gotPacket_settle a : keeps settle_inv settles (gotPacket random_id random_cv a).
Proof.
  unfold gotPacket, on_version. keeps_prims ltac:(first [settle_lemmas | apply maybeWriteJSON_settle]).
Qed.

Lemma handle_settle ev : keeps settle_inv settles (handle random_id random_cv ev).
Proof.
  destruct ev; unfold handle, onOpen, onMessage, onClose, onError, onTimeout;
    keeps_prims ltac:(first [settle_lemmas | apply gotPacket_settle]).
Qed.

Lemma run_events_settle evs : keeps settle_inv settles (run_events random_id random_cv evs).
Proof.
  induction evs as [|ev evs IH]; [apply keeps_ret|].
  apply keeps_seq_until; [apply handle_settle | exact IH].
Qed.

(** C1: Settle once.  Whatever events the socket, the timer and the
    caller deliver, in whatever order, a [SocketClient] settles its stats
    promise at most once: one resolution or one rejection in total. *)
Theorem settles_at_most_once (evs : list Event) (w : World) :
  let '(_, _, effs) := run_events random_id random_cv evs (w, new_client) in
  (count settles effs <= 1)%nat.
Proof.
  pose proof (run_events_settle evs w new_client 0%nat) as Hk.
  destruct (run_events random_id random_cv evs (w, new_client)) as [[u [w' c']] effs].
  destruct Hk as [_ Hle]; [split; [intros; auto | simpl; lia] | lia].
Qed.

End SettleOnce.

(** ** The socket is closed at most once, and always once completed *)

Definition closes (e : Effect) : nat := match e with CloseSocket => 1 | _ => 0 end.

(** No close was issued while the socket is live; at most one overall;
    and a completed client's socket is no longer live. *)
Definition close_inv (c : Client) (k : nat) : Prop :=
  (is_live (ws c) = true -> k = 0%nat) /\ (k <= 1)%nat /\
  (completed c = true -> is_live (ws c) = false).

Ltac close_solve :=
  intros w [ws0 idba0 wt0 st0 cp0 ps0 pf0 lb0 mm0] n (H1 & H2 & H3);
  destruct cp0, ws0 as [[]|]; run_m;
  repeat (match goal with
  | |- context [match ?x with _ => _ end] => is_var x; destruct x
  | |- context [if ?b then _ else _] => is_var b; destruct b
  end; cbn in * );
  unfold close_inv, count in *; cbn in *;
  repeat match goal with H : ?a = ?a -> _ |- _ => specialize (H eq_refl) end;
  try (exfalso; congruence);
  repeat split; intros; try discriminate; lia.

Lemma succeed_close p : keeps close_inv closes (succeed p).
Proof. close_solve. Qed.

Lemma fail_close e : keeps close_inv closes (fail e).
Proof. close_solve. Qed.

Lemma returnStatsPromise_close : keeps close_inv closes returnStatsPromise.
Proof. close_solve. Qed.

Lemma close_close : keeps close_inv closes close.
Proof. close_solve. Qed.

Lemma send_close d : keeps close_inv closes (send d).
Proof. close_solve. Qed.

Lemma onOpen_close : keeps close_inv closes onOpen.
Proof. unfold onOpen_frames. close_solve. Qed.

Lemma set_ws_none_close : keeps close_inv closes (modify (set_ws None)).
Proof.
  apply keeps_modify. intros c k (H1 & H2 & H3). unfold close_inv. cbn. repeat split; auto; discriminate.
Qed.

Ltac close_lemmas :=
  first [ apply succeed_close | apply fail_close | apply returnStatsPromise_close
        | apply close_close | apply send_close | apply onOpen_close | apply set_ws_none_close ].

Section CloseOnce.

Context `{Extractor}.
Variable random_id : nat -> list Z.
Variable random_cv : nat -> Z.

Lemma maybeWriteJSON_close : keeps close_inv closes maybeWriteJSON.
Proof. unfold maybeWriteJSON. keeps_prims close_lemmas. Qed.

Lemma gotPacket_close a : keeps close_inv closes (gotPacket random_id random_cv a).
Proof.
  unfold gotPacket, on_version. keeps_prims ltac:(first [close_lemmas | apply maybeWriteJSON_close]).
Qed.

Lemma handle_close ev : keeps close_inv closes (handle random_id random_cv ev).
Proof.
  destruct ev; unfold handle, onMessage, onClose, onError, onTimeout;
    keeps_prims ltac:(first [close_lemmas | apply gotPacket_close]).
Qed.

Lemma run_events_close evs : keeps close_inv closes (run_events random_id random_cv evs).
Proof.
  induction evs as [|ev evs IH]; [apply keeps_ret|].
  apply keeps_seq_until; [apply handle_close | exact IH].
Qed.

(** C10: Teardown.  Over any sequence of events, [ws.close()] is called at
    most once, and once the session has completed (resolved, failed or
    timed out) its socket is closing or closed: a completed session never
    holds a live connection. *)
Theorem closes_at_most_once (evs : list Event) (w : World) :
  let '(_, (_, c), effs) := run_events random_id random_cv evs (w, new_client) in
  (count closes effs <= 1)%nat /\ (completed c = true -> is_live (ws c) = false).
Proof.
  pose proof (run_events_close evs w new_client 0%nat) as Hk.
  destruct (run_events random_id random_cv evs (w, new_client)) as [[u [w' c']] effs].
  destruct Hk as (_ & Hle & Hc); [repeat split; auto; discriminate | split; [lia | exact Hc]].
Qed.

End CloseOnce.

(** ** Liveness: an awaited session settles once its timer fires

    The orchestrator calls [returnStatsPromise] right after constructing
    the client.  From then on, until the session completes, the promise is
    waiting and the 15-second timer armed; once it completes, it has
    settled exactly once.  A second [returnStatsPromise] call would
    replace the pending promise, so it is excluded. *)

Definition live_inv (c : Client) (n : nat) : Prop :=
  (completed c = false /\ waiting c = true /\ statsTimeout c = true /\ n = 0%nat) \/
  (completed c = true /\ n = 1%nat).

Ltac live_open :=
  intros w [ws0 idba0 wt0 st0 cp0 ps0 pf0 lb0 mm0] n Hlive;
  destruct Hlive as [(Hc & Hw & Ht & Hn) | (Hc & Hn)]; cbn in *; subst; run_m;
  repeat (match goal with
  | |- context [match ?x with _ => _ end] => is_var x; destruct x
  | |- context [if ?b then _ else _] => is_var b; destruct b
  end; cbn in * );
  unfold live_inv, count; cbn.

Ltac live_solve :=
  live_open; first [ left; repeat split; lia | right; split; [reflexivity | lia] ].

Lemma succeed_live p : keeps live_inv settles (succeed p).
Proof. live_solve. Qed.

Lemma fail_live e : e <> ErrAlreadyCompleted -> keeps live_inv settles (fail e).
Proof. intros He. destruct e; [live_solve.. | contradiction]. Qed.

Lemma close_live : keeps live_inv settles close.
Proof. live_solve. Qed.

Lemma send_live d : keeps live_inv settles (send d).
Proof. live_solve. Qed.

Lemma onOpen_live : keeps live_inv settles onOpen.
Proof. unfold onOpen_frames. live_solve. Qed.

Lemma set_ws_live v : keeps live_inv settles (modify (set_ws v)).
Proof. apply keeps_modify. intros c k Hc. exact Hc. Qed.

Ltac live_lemmas :=
  first [ apply succeed_live | apply close_live | apply send_live | apply onOpen_live
        | apply set_ws_live | apply fail_live; discriminate ].

Section Live.

Context `{Extractor}.
Variable random_id : nat -> list Z.
Variable random_cv : nat -> Z.

Lemma maybeWriteJSON_live : keeps live_inv settles maybeWriteJSON.
Proof. unfold maybeWriteJSON. keeps_prims live_lemmas. Qed.

Lemma gotPacket_live a : keeps live_inv settles (gotPacket random_id random_cv a).
Proof.
  unfold gotPacket, on_version. keeps_prims ltac:(first [live_lemmas | apply maybeWriteJSON_live]).
Qed.

Lemma handle_live ev : ev <> EvAwait -> keeps live_inv settles (handle random_id random_cv ev).
Proof.
  intros Hne. destruct ev; [| | | | | congruence |]; unfold handle, onMessage, onClose, onError, onTimeout;
    keeps_prims ltac:(first [live_lemmas | apply gotPacket_live]).
Qed.

Lemma run_events_cons ev evs :
  run_events random_id random_cv (ev :: evs) = seq_until halts (handle random_id random_cv ev) (run_events random_id random_cv evs).
Proof. reflexivity. Qed.

(** [returnStatsPromise()] on a new client: the promise waits and the
    timer is armed. *)
Definition armed_client : Client := mkClient (Some CONNECTING) [] true true false None None None None.

Lemma await_first evs w :
  run_events random_id random_cv (EvAwait :: evs) (w, new_client) =
  let '(u, s, e) := run_events random_id random_cv evs (w, armed_client) in (u, s, ArmTimeout :: e).
Proof. rewrite run_events_cons. unfold seq_until. reflexivity. Qed.

(** The timer fires last: unless the process has terminated or hangs,
    whatever happened before, the session is complete and has settled
    exactly once. *)
Lemma run_then_timeout evs : forall w c n,
  ~ In EvAwait evs -> live_inv c n ->
  let '(_, (_, c'), effs) := run_events random_id random_cv (evs ++ [EvTimeout]) (w, c) in
  existsb halts effs = false -> completed c' = true /\ (n + count settles effs = 1)%nat.
Proof.
  induction evs as [|ev evs IH]; intros w c n Hno Hinv.
  - revert w c n Hinv. cbn [app run_events handle]. live_open; intros _; (split; [reflexivity | lia]).
  - cbn [app]. rewrite run_events_cons. unfold seq_until at 1.
    assert (Hne : ev <> EvAwait) by (intros ->; apply Hno; left; reflexivity).
    pose proof (handle_live ev Hne w c n Hinv) as H1.
    destruct (handle random_id random_cv ev (w, c)) as [[u [w1 c1]] e1].
    destruct (existsb halts e1) eqn:Eh; [intros Hx; congruence|].
    specialize (IH w1 c1 _ (fun Hin => Hno (or_intror Hin)) H1).
    destruct (run_events random_id random_cv (evs ++ [EvTimeout]) (w1, c1)) as [[u2 [w2 c2]] e2].
    rewrite existsb_app, Eh. intros He2. rewrite count_app, Nat.add_assoc. exact (IH He2).
Qed.

(** ** What makes the process stop

    A computation is quiet when none of its effects stops the process. *)

Definition halt_count (e : Effect) : nat := if halts e then 1 else 0.
Definition quiet {A} (m : M A) : Prop := keeps (fun _ n => n = 0%nat) halt_count m.

(** A ['6'] packet whose challenge [isValidVersion] cannot return on. *)
Definition halting_version (p : list Z) : bool := (p.[0] =? 54) && version_halts (skipn 1 p).

Definition halting_event (ev : Event) : bool :=
  match ev with EvMessage f => existsb halting_version (onMessage_packets f) | _ => false end.

Lemma count_halts effs : count halt_count effs = 0%nat -> existsb halts effs = false.
Proof.
  induction effs as [|e t IH]; [reflexivity|]. unfold count in *. cbn. unfold halt_count at 1.
  destruct (halts e); cbn; [lia|]. exact IH.
Qed.

Lemma quiet_effects {A} (m : M A) s : quiet m -> let '(_, _, effs) := m s in existsb halts effs = false.
Proof.
  intros Hq. destruct s as [w c]. specialize (Hq w c 0%nat eq_refl).
  destruct (m (w, c)) as [[a [w' c']] effs]. apply count_halts. exact Hq.
Qed.

Ltac quiet_solve :=
  unfold quiet, maybeWriteJSON, succeed, fail, close, clear_timer, send, returnStatsPromise,
    onOpen, onClose, onError, onTimeout; keeps_prims fail.

Lemma quiet_gotPacket a : halting_version a = false -> quiet (gotPacket random_id random_cv a).
Proof.
  intros Hb. unfold gotPacket. cbv zeta. destruct (a.[0] =? 97); [quiet_solve|].
  destruct (a.[0] =? 54) eqn:E6; [|quiet_solve].
  unfold on_version. apply keeps_bind; [apply keeps_getw | intros k]. apply keeps_bind; [apply keeps_modifyw | intros _].
  pose proof (gotServerVersion_halts (random_id k) (random_cv k) (skipn 1 a)) as Hh.
  unfold halting_version in Hb. rewrite E6 in Hb. cbn [andb] in Hb. rewrite Hb in Hh.
  destruct (gotServerVersion (random_id k) (random_cv k) (skipn 1 a)) as [idba' [fs| |]]; cbn in Hh; try discriminate.
  quiet_solve.
Qed.

Lemma quiet_run evs : existsb halting_event evs = false -> quiet (run_events random_id random_cv evs).
Proof.
  induction evs as [|ev evs IH]; intros Hb; [apply keeps_ret|]. cbn in Hb. apply orb_false_iff in Hb.
  apply keeps_seq_until; [|apply IH, Hb]. destruct ev; unfold handle; try solve [quiet_solve].
  unfold onMessage. destruct Hb as [Hb _]. cbn in Hb. induction (onMessage_packets frame) as [|p t IHp];
    [apply keeps_ret|]. cbn in Hb. apply orb_false_iff in Hb.
  apply keeps_seq_until; [apply quiet_gotPacket, Hb | apply IHp, Hb].
Qed.

(** C3: Liveness.  A client whose promise is awaited right after its
    construction, as [collectStatsWithProxies] does, settles that promise
    at most once, and exactly once by the time its 15-second timer has
    fired, whatever socket events come first, unless the process has
    terminated or hangs; and that only happens on a ['6'] packet whose
    challenge [isValidVersion] cannot return on (a positive loop bound
    without a secret, or a loop bound beyond [2^53 + 1]). *)
Theorem awaited_session_settles (evs : list Event) (w : World) :
  ~ In EvAwait evs ->
  let '(_, (_, c), effs) := run_events random_id random_cv (EvAwait :: evs ++ [EvTimeout]) (w, new_client) in
  (count settles effs <= 1)%nat /\
  (existsb halts effs = false -> completed c = true /\ count settles effs = 1%nat) /\
  (existsb halts effs = true ->
     exists f p, In (EvMessage f) evs /\ In p (onMessage_packets f) /\ p.[0] = 54 /\ version_halts (skipn 1 p) = true).
Proof.
  intros Hno. rewrite await_first.
  pose proof (run_events_settle random_id random_cv (evs ++ [EvTimeout]) w armed_client 0%nat) as Hs.
  pose proof (run_then_timeout evs w armed_client 0 Hno
                (or_introl (conj eq_refl (conj eq_refl (conj eq_refl eq_refl))))) as Hr.
  assert (Hq : existsb halting_event (evs ++ [EvTimeout]) = false ->
               let '(_, _, effs) := run_events random_id random_cv (evs ++ [EvTimeout]) (w, armed_client) in
               existsb halts effs = false) by (intros Hb; apply quiet_effects, quiet_run, Hb).
  destruct (run_events random_id random_cv (evs ++ [EvTimeout]) (w, armed_client)) as [[u [w' c']] effs].
  change (count settles (ArmTimeout :: effs)) with (0 + count settles effs)%nat.
  change (existsb halts (ArmTimeout :: effs)) with (existsb halts effs).
  destruct Hs as [_ Hle]; [split; [intros; auto | simpl; lia]|].
  split; [lia|]. split; [exact Hr|]. intros Hh.
  destruct (existsb halting_event (evs ++ [EvTimeout])) eqn:Hb; [|rewrite (Hq eq_refl) in Hh; discriminate].
  apply existsb_exists in Hb. destruct Hb as [ev [Hin He]].
  destruct ev as [|f| | | | |]; try discriminate.
  apply in_app_or in Hin. destruct Hin as [Hin|[Hin|[]]]; [|discriminate].
  apply existsb_exists in He. destruct He as [p [Hp Hv]]. unfold halting_version in Hv.
  apply andb_true_iff in Hv. destruct Hv as [H6 Hv]. apply Z.eqb_eq in H6. exists f, p. auto.
Qed.

End Live.

(** ** Order independence, timeout and resolution *)

Section Behaviour.

Context `{Extractor}.
Variable random_id : nat -> list Z.
Variable random_cv : nat -> Z.

(** C34: Order independence.  From a client that holds neither a
    leaderboard nor a minimap, an ['l'] packet followed by an ['M'] packet
    has exactly the effects and the final state of the ['M'] packet
    followed by the ['l'] packet: the snapshot does not depend on the
    arrival order. *)
Theorem lb_minimap_commute (pl pm : list Z) (w : World) (c : Client) :
  pl.[0] = 108 -> pm.[0] = 77 -> leaderboardData c = None -> minimapBase64 c = None ->
  (gotPacket random_id random_cv pl;; gotPacket random_id random_cv pm) (w, c)
  = (gotPacket random_id random_cv pm;; gotPacket random_id random_cv pl) (w, c).
Proof.
  intros Hl Hm Hlb Hmm. destruct c as [ws0 idba0 wt0 st0 cp0 ps0 pf0 lb0 mm0].
  cbn in Hlb, Hmm. subst lb0 mm0. unfold gotPacket. rewrite Hl, Hm.
  cbv [bind getw gets modify ret maybeWriteJSON set_leaderboardData set_minimapBase64].
  cbn -[succeed]. destruct (succeed _ _) as [[u s'] e]. reflexivity.
Qed.

(** Timeout.  An awaited session that has not completed fails with
    the timeout error when its 15-second timer fires: the promise is
    rejected with [ErrTimeout] and the socket is left closing or closed. *)
Lemma await_then_timeout (w : World) (c : Client) :
  completed c = false -> pendingSuccess c = None -> pendingFailure c = None ->
  let '(_, (_, c'), effs) := run_events random_id random_cv [EvAwait; EvTimeout] (w, c) in
  In (Reject ErrTimeout) effs /\ completed c' = true /\ is_live (ws c') = false.
Proof.
  intros Hc Hs Hf. destruct c as [ws0 idba0 wt0 st0 cp0 ps0 pf0 lb0 mm0]. cbn in Hc, Hs, Hf.
  subst. unfold run_events, handle. destruct ws0 as [[]|]; run_m; cbn;
    repeat split; auto 10 using in_or_app, in_eq, in_cons.
Qed.

(** C2: Resolution.  An awaited, uncompleted session that holds no
    minimap yet resolves its promise with the leaderboard of an ['l']
    packet and the minimap of an ['M'] packet as soon as both arrive. *)
Theorem resolves_with_both (pl pm : list Z) (w : World) (c : Client) :
  pl.[0] = 108 -> pm.[0] = 77 -> completed c = false -> waiting c = true ->
  minimapBase64 c = None ->
  let '(_, _, effs) := (gotPacket random_id random_cv pl;; gotPacket random_id random_cv pm) (w, c) in
  In (Resolve (mkPayload (gotLeaderboard (table w) pl) (minimap_of_packet pm) (now w))) effs.
Proof.
  intros Hl Hm Hc Hw Hmm. destruct c as [ws0 idba0 wt0 st0 cp0 ps0 pf0 lb0 mm0].
  cbn in Hc, Hw, Hmm. subst. unfold gotPacket. rewrite Hl, Hm.
  cbv [maybeWriteJSON]. destruct st0, ws0 as [[]|]; run_m; cbn; auto 10 using in_or_app, in_eq, in_cons.
Qed.

End Behaviour.

Definition world0 : World := mkWorld init_table 0 0.

Lemma lb_minimap_commute_witness :
  (gotPacket (fun _ => []) (fun _ => 0) [108];; gotPacket (fun _ => []) (fun _ => 0) [77; 0; 0])
    (world0, new_client)
  = (gotPacket (fun _ => []) (fun _ => 0) [77; 0; 0];; gotPacket (fun _ => []) (fun _ => 0) [108])
    (world0, new_client).
Proof. apply lb_minimap_commute; reflexivity. Defined.

Lemma await_then_timeout_witness :
  let '(_, (_, c'), effs) := run_events (fun _ => []) (fun _ => 0) [EvAwait; EvTimeout] (world0, new_client) in
  In (Reject ErrTimeout) effs /\ completed c' = true /\ is_live (ws c') = false.
Proof. apply await_then_timeout; reflexivity. Defined.

Lemma resolves_with_both_witness :
  let '(_, _, effs) := (gotPacket (fun _ => []) (fun _ => 0) [108];; gotPacket (fun _ => []) (fun _ => 0) [77; 0; 0])
                         (world0, set_waiting true new_client) in
  In (Resolve (mkPayload (gotLeaderboard (table world0) [108]) (minimap_of_packet [77; 0; 0]) (now world0))) effs.
Proof. apply resolves_with_both; reflexivity. Defined.

Lemma awaited_session_settles_witness :
  let '(_, (_, c), effs) := run_events (fun _ => []) (fun _ => 0) (EvAwait :: [EvOpen; EvClose 1006] ++ [EvTimeout])
                              (world0, new_client) in
  (count settles effs <= 1)%nat /\
  (existsb halts effs = false -> completed c = true /\ count settles effs = 1%nat) /\
  (existsb halts effs = true ->
     exists f p, In (EvMessage f) [EvOpen; EvClose 1006] /\ In p (onMessage_packets f) /\
                 p.[0] = 54 /\ version_halts (skipn 1 p) = true).
Proof. apply awaited_session_settles. simpl. intros [H|[H|H]]; discriminate || exact H. Defined.

(** A ['6'] challenge hiding a counted loop and no secret: the handshake
    throws its TypeError, nothing handles the rejection of [gotPacket],
    and the process terminates with the session's promise unsettled. *)
Example version_crash :
  let p := 54 :: encode_challenge (for_text [53]) 23 in
  let '(_, _, effs) := run_events (fun _ => []) (fun _ => 0) [EvAwait; EvOpen; EvMessage p; EvTimeout]
                         (world0, new_client) in
  existsb halts effs = true /\ count settles effs = 0%nat /\ last effs ArmTimeout = Crash.
Proof. vm_compute. repeat split. Qed.
