(* ===== verification/Geo.v ===== *)
(** * Geo: the geo lookup of [src/geo.js]

    [lookupGeo(ip)] (lines 23-41) asks [geoip-lite] about the address with
    its brackets removed ([normalizeIp], lines 18-21) and completes the
    country code it gets with the country's name and continent, read from
    [COUNTRY_LOOKUP] (lines 4-16), the table built once from the
    [countries-list] package.  The two packages are data here: the
    database is the function [db] standing for [geoip.lookup], and the
    tables [countries] and [continents] are the lists of their entries in
    the order [Object.entries] gives them.  [toUpperCase] is written for
    ASCII, the alphabet of the country codes. *)

From Stdlib Require Import String Ascii List Bool Arith Lia.
From S2P Require Import Prelude.
Import ListNotations.
Local Open Scope string_scope.

(** An entry of [countries]: [entry.name] and [entry.continent]. *)
Record Country := mkCountry { c_name : string; c_continent : option string }.

(** A value of [continents]: a string, or an object with an optional
    [name]. *)
Inductive ContinentRaw := CName (s : string) | CObj (name : option string).

(** The value stored in [COUNTRY_LOOKUP] (lines 10-14). *)
Record Meta := mkMeta { m_name : string; m_continentCode : option string; m_continentName : option string }.

(** The fields of a [geoip.lookup] result that [lookupGeo] reads. *)
Record GeoipResult := mkGeoip { g_country : option string; g_timezone : option string; g_region : option string }.

(** The object [lookupGeo] returns (lines 33-40). *)
Record Geo := mkGeo {
  countryCode : option string; countryName : option string; continentCode : option string;
  continentName : option string; timezone : option string; regionCode : option string }.

(** JavaScript truthiness of a string that may be [null]: the empty
    string is falsy. *)
Definition truthy (s : option string) : bool :=
  match s with Some (String _ _) => true | _ => false end.

Definition upper_char (a : ascii) : ascii :=
  let n := nat_of_ascii a in if Nat.leb 97 n && Nat.leb n 122 then ascii_of_nat (n - 32) else a.

(** [s.toUpperCase()]. *)
Fixpoint toUpperCase (s : string) : string :=
  match s with EmptyString => EmptyString | String a t => String (upper_char a) (toUpperCase t) end.

(** Lines 6-8: [continentCode ? continents[continentCode] : null], then
    the string itself or its [name]. *)
Definition continent_name (continents : list (string * ContinentRaw)) (code : option string) : option string :=
  match code with
  | Some c =>
      if truthy code then
        match obj_get c continents with
        | Some (CName s) => Some s
        | Some (CObj n) => n
        | None => None
        end
      else None
  | None => None
  end.

(** The reducer of lines 4-16 on one entry [[code, entry]]. *)
Definition add_country (continents : list (string * ContinentRaw)) (acc : list (string * Meta))
    (e : string * Country) : list (string * Meta) :=
  let '(code, entry) := e in
  obj_set (toUpperCase code)
    (mkMeta (c_name entry) (c_continent entry) (continent_name continents (c_continent entry))) acc.

Definition COUNTRY_LOOKUP (countries : list (string * Country)) (continents : list (string * ContinentRaw))
    : list (string * Meta) :=
  fold_left (add_country continents) countries [].

(** [.replace(/^\[/, "")]. *)
Definition strip_open (s : string) : string :=
  match s with String c t => if Ascii.eqb c "["%char then t else s | EmptyString => s end.

(** [.replace(/\]$/, "")]: without the flag [m], [$] is the end of the
    text only. *)
Fixpoint strip_close (s : string) : string :=
  match s with
  | EmptyString => EmptyString
  | String c EmptyString => if Ascii.eqb c "]"%char then EmptyString else s
  | String c t => String c (strip_close t)
  end.

(** [normalizeIp(ip)] on a string. *)
Definition normalizeIp (ip : string) : string := strip_close (strip_open ip).

Section Lookup.

(** [geoip.lookup] and the two tables of [countries-list]. *)
Variable db : string -> option GeoipResult.
Variable countries : list (string * Country).
Variable continents : list (string * ContinentRaw).

(** [lookupGeo(ip)]. *)
Definition lookupGeo (ip : string) : option Geo :=
  if negb (truthy (Some ip)) then None
  else
    match db (normalizeIp ip) with
    | None => None
    | Some r =>
        let cc := g_country r in
        let metadata :=
          match cc with
          | Some c => if truthy cc then obj_get (toUpperCase c) (COUNTRY_LOOKUP countries continents) else None
          | None => None
          end in
        Some (mkGeo cc (option_map m_name metadata)
                    (match metadata with Some m => m_continentCode m | None => None end)
                    (match metadata with Some m => m_continentName m | None => None end)
                    (g_timezone r) (g_region r))
    end.

End Lookup.

(** ** Lemmas *)

Lemma strip_close_cons c s : s <> EmptyString -> strip_close (String c s) = String c (strip_close s).
Proof. destruct s; [congruence | reflexivity]. Qed.

Lemma strip_close_bracket x : strip_close (x ++ "]") = x.
Proof.
  induction x as [|c t IH]; [reflexivity|]. simpl (String c t ++ _)%string.
  rewrite strip_close_cons by (destruct t; discriminate). rewrite IH. reflexivity.
Qed.

(** Without a final [\]] the second replacement changes nothing. *)
Lemma strip_close_id x : (forall y, x <> (y ++ "]")%string) -> strip_close x = x.
Proof.
  induction x as [|c t IH]; intros Hx; [reflexivity|].
  destruct t as [|c' t'].
  - simpl. destruct (Ascii.eqb_spec c "]"%char) as [->|]; [|reflexivity].
    exfalso. apply (Hx EmptyString). reflexivity.
  - rewrite strip_close_cons by discriminate. rewrite IH; [reflexivity|].
    intros y E. apply (Hx (String c y)). rewrite E. reflexivity.
Qed.

Lemma add_country_set continents acc e :
  add_country continents acc e =
  obj_set (toUpperCase (fst e))
    (mkMeta (c_name (snd e)) (c_continent (snd e)) (continent_name continents (c_continent (snd e)))) acc.
Proof. destruct e. reflexivity. Qed.

(** ** Theorems *)

(** [normalizeIp] removes exactly one pair of brackets: a bracketed
    address gives back its inside, whatever it holds, and an address
    that neither starts with [\[] nor ends with [\]] is unchanged. *)
Lemma normalizeIp_brackets (x : string) :
  normalizeIp ("[" ++ x ++ "]") = x /\
  ((forall c t, x = String c t -> c <> "["%char) -> (forall y, x <> (y ++ "]")%string) -> normalizeIp x = x).
Proof.
  split.
  - unfold normalizeIp. simpl. apply strip_close_bracket.
  - intros Ho Hc. unfold normalizeIp.
    replace (strip_open x) with x; [apply strip_close_id, Hc|].
    destruct x as [|c t]; [reflexivity|]. simpl.
    destruct (Ascii.eqb_spec c "["%char) as [E|]; [exfalso; exact (Ho c t eq_refl E) | reflexivity].
Qed.

Fixpoint last_char (s : string) : option ascii :=
  match s with EmptyString => None | String c EmptyString => Some c | String _ t => last_char t end.

Lemma last_char_bracket y : last_char (y ++ "]") = Some "]"%char.
Proof.
  induction y as [|c y IH]; [reflexivity|]. simpl.
  destruct (y ++ "]")%string eqn:E; [destruct y; discriminate | exact IH].
Qed.

Lemma normalizeIp_brackets_witness :
  normalizeIp "[2a01:4f8::1]" = "2a01:4f8::1"%string /\ normalizeIp "10.0.0.1" = "10.0.0.1"%string.
Proof.
  destruct (normalizeIp_brackets "2a01:4f8::1") as [H1 _]. split; [exact H1|].
  destruct (normalizeIp_brackets "10.0.0.1") as [_ H2]. apply H2.
  - intros c t E. injection E as <- _. discriminate.
  - intros y E. apply (f_equal last_char) in E. rewrite last_char_bracket in E. discriminate.
Defined.

Section LookupSpec.

Variable db : string -> option GeoipResult.
Variable countries : list (string * Country).
Variable continents : list (string * ContinentRaw).

(** The reference: the last entry of [countries] whose code is [c] up to
    case. *)
Definition country_of (c : string) : option (string * Country) :=
  find (fun e => String.eqb (toUpperCase (fst e)) (toUpperCase c)) (rev countries).

Lemma country_lookup_get c :
  obj_get (toUpperCase c) (COUNTRY_LOOKUP countries continents) =
  option_map (fun e => mkMeta (c_name (snd e)) (c_continent (snd e)) (continent_name continents (c_continent (snd e))))
             (country_of c).
Proof.
  unfold COUNTRY_LOOKUP, country_of. rewrite (obj_get_fold _ (fun e => toUpperCase (fst e)) _ (add_country_set continents)).
  destruct (find _ (rev countries)); reflexivity.
Qed.

(** C38: [lookupGeo] against the package data.  It returns [null] exactly
    for the empty address and for an address the database does not know;
    otherwise the country fields are those of the last [countries] entry
    whose code equals the database's code up to case (none when the code
    is missing or empty), the continent name is read from [continents],
    and the time zone and region are the database's. *)
Theorem lookupGeo_spec (ip : string) :
  lookupGeo db countries continents ip =
  if String.eqb ip "" then None
  else
    match db (normalizeIp ip) with
    | None => None
    | Some r =>
        let e := match g_country r with
                 | Some c => if truthy (g_country r) then country_of c else None
                 | None => None
                 end in
        Some (mkGeo (g_country r) (option_map (fun e => c_name (snd e)) e)
                    (match e with Some e => c_continent (snd e) | None => None end)
                    (match e with Some e => continent_name continents (c_continent (snd e)) | None => None end)
                    (g_timezone r) (g_region r))
    end.
Proof.
  unfold lookupGeo. destruct ip as [|a ip]; [reflexivity|]. simpl negb.
  destruct (db _) as [r|]; [|reflexivity].
  destruct (g_country r) as [[|x c]|]; cbn [truthy]; [reflexivity| |reflexivity].
  rewrite country_lookup_get. destruct (country_of _); reflexivity.
Qed.

End LookupSpec.
