(* ===== verification/Orchestrator.v ===== *)
(** * Orchestrator: the collection cycle of [src/index.js]

    [refreshStats] (lines 120-194) runs one collection cycle: guarded by
    the module-level flag [isRefreshing], it loads the proxies and the
    servers (the [servers.json] seeds when present, the live directory
    otherwise) and launches one task per server.  A task runs
    [collectStatsWithProxies] (lines 52-102): up to [PROXY_RETRY_LIMIT = 3]
    sessions, each through a proxy drawn without replacement from a copy
    of the pool ([drawProxy], lines 37-46), then one direct session when
    the address is a bracketed IPv6 literal ([isIPv6Literal], lines 48-50).
    When the task finishes it writes its entry into [latestStats] under
    [ip:port], or deletes that key when every session failed.  The flag is
    cleared once every task has finished.

    The outcome of one session is the class [Transport]; [session_transport]
    implements it with the [Session] model.  [Math.random] is the oracle
    [draw] and the clock are inputs, and so are the proxy file and the geo
    data, read through [getProxies] and [lookupGeo].  The cycle is a
    state machine: [ostep] on [OState] with the events [Start] (a call of
    [refreshStats]), [Loaded] (the directory fetch of line 133 completes)
    and [Finish i] (the [i]-th running task completes).  Between [Start]
    and [Loaded] the flag is set and no task runs: other events interleave
    there, and a call of [refreshStats] is dropped.  Everything the cycle
    reads ([Inputs], the fetched directory included) is an input chosen by
    the environment, fixed at [Start]. *)

From Stdlib Require Import String Ascii ZArith List Lia Bool Permutation.
From S2P Require Import Prelude Directory Minimap Leaderboard Handshake Session Geo Proxies.
Import ListNotations.
Open Scope Z_scope.

(** ** Proxies *)

Definition same_proxy (p q : Proxy) : bool := Nat.eqb (p_id p) (p_id q).

(** [pool.indexOf(proxy)]: the first index of the same object. *)
Fixpoint index_of (p : Proxy) (pool : list Proxy) : option nat :=
  match pool with
  | [] => None
  | q :: t => if same_proxy p q then Some 0%nat else option_map S (index_of p t)
  end.

(** [array.splice(i, 1)]: the array without its element [i]. *)
Fixpoint remove_nth {A} (k : nat) (l : list A) : list A :=
  match l, k with
  | [], _ => []
  | _ :: t, O => t
  | x :: t, S k' => x :: remove_nth k' t
  end.

(** [drawProxy(pool)]: the proxy drawn, and the pool after the splice. *)
Definition drawProxy (pool : list Proxy) (r : nat) : option Proxy * list Proxy :=
  match getRandomProxy pool r with
  | None => (None, pool)
  | Some p =>
      match index_of p pool with
      | Some i => (Some p, remove_nth i pool)
      | None => (Some p, pool)
      end
  end.

(** ** Addresses *)

Definition is_hex_or_colon (a : ascii) : bool :=
  let c := nat_of_ascii a in
  (Nat.leb 48 c && Nat.leb c 57) || (Nat.leb 65 c && Nat.leb c 70) ||
  (Nat.leb 97 c && Nat.leb c 102) || Nat.eqb c 58.

(** [/^\[[0-9a-fA-F:]+\]$/.test(ip)]. *)
Definition isIPv6Literal (ip : string) : bool :=
  match list_ascii_of_string ip with
  | "["%char :: rest =>
      match rev rest with
      | "]"%char :: (_ :: _) as body => forallb is_hex_or_colon body
      | _ => false
      end
  | _ => false
  end.

(** [`${server.ip}:${server.po}`] and the WebSocket URL (lines 53-54). *)
Definition serverKey (s : Server) : string := (ip s ++ ":" ++ js_dec (po s))%string.
Definition wsUrl (s : Server) : string := ("ws://" ++ serverKey s ++ "/slither")%string.

(** ** Sessions *)

(** Why one attempt failed: its session rejected the stats promise, or
    [new SocketClient(...)] threw (the [ws] constructor throws on a
    malformed URL, which a seed entry can produce). *)
Inductive AttemptError := SessionFailed (e : SessionError) | ConnectThrew.

(** What the [try] block of one attempt yields for the session opened for
    [url] through [proxy] ([None]: direct), as attempt number [k] of its
    task: the error caught, or the stats payload. *)
Class Transport := { session_result : string -> option Proxy -> nat -> AttemptError + Payload }.

(** ** [collectStatsWithProxies] *)

Definition PROXY_RETRY_LIMIT : nat := 3.

(** The error the task throws: [Failed after n proxy attempt(s)] with
    the last session error, or [no proxies available]. *)
Inductive CollectError := Exhausted (attempts : nat) (last : AttemptError) | NoProxies (key : string).

Section Collect.

Context `{Transport}.
(** [Math.floor(Math.random() * n)] at draw number [k] from a pool of [n]. *)
Variable draw : nat -> nat -> nat.
Variable url : string.

(** The [while] loop of lines 59-80: [budget] is [PROXY_RETRY_LIMIT -
    attempt]; the sessions opened so far are accumulated in [tried].  It
    ends with the payload, or with [attempt] and [lastError]. *)
Fixpoint proxy_loop (budget attempt : nat) (available : list Proxy) (lastError : option AttemptError)
    (tried : list (option Proxy)) : (Payload + (nat * option AttemptError)) * list (option Proxy) :=
  match budget, available with
  | O, _ | _, [] => (inr (attempt, lastError), tried)
  | S b, _ =>
      match drawProxy available (draw attempt (length available)) with
      | (None, _) => (inr (attempt, lastError), tried)
      | (Some p, available') =>
          match session_result url (Some p) attempt with
          | inr stats => (inl stats, tried ++ [Some p])
          | inl e => proxy_loop b (S attempt) available' (Some e) (tried ++ [Some p])
          end
      end
  end.

End Collect.

(** The whole function: the result and the sessions opened, in order. *)
Definition collectStatsWithProxies `{Transport} (draw : nat -> nat -> nat) (s : Server)
    (proxies : list Proxy) : (CollectError + Payload) * list (option Proxy) :=
  let '(r, tried) := proxy_loop draw (wsUrl s) PROXY_RETRY_LIMIT 0 proxies None [] in
  match r with
  | inl stats => (inr stats, tried)
  | inr (attempt, lastError) =>
      let '(r2, tried2, lastError2) :=
        if isIPv6Literal (ip s) then
          match session_result (wsUrl s) None attempt with
          | inr stats => (Some stats, tried ++ [None], lastError)
          | inl e => (None, tried ++ [None], Some e)
          end
        else (None, tried, lastError) in
      match r2, lastError2 with
      | Some stats, _ => (inr stats, tried2)
      | None, Some e => (inl (Exhausted attempt e), tried2)
      | None, None => (inl (NoProxies (serverKey s)), tried2)
      end
  end.

(** ** The snapshot store [latestStats] *)

(** The entry of lines 157-173.  The payload is spread last, so its own
    [timestamp] (taken in [_maybeWriteJSON]) replaces the one of line 161:
    [now] does not reach the entry. *)
Record Snapshot := mkSnap {
  s_ip : string; s_port : Z; s_cluster : Z; s_timestamp : Z; s_geo : option Geo;
  s_stats : LbData; s_minimap : Minimap }.

Definition entry_of (s : Server) (geo : option Geo) (now : Z) (stats : Payload) : Snapshot :=
  mkSnap (ip s) (po s) (clu s) (pl_timestamp stats) geo (pl_lb stats) (pl_minimap stats).

(** [latestStats], a JavaScript object used as a map ([obj_set] and the
    others of [Prelude]). *)
Definition Store := list (string * Snapshot).

(** The [/stats] route lists the values in property order (lines 252-254). *)
Definition store_values (o : Store) : list Snapshot := map snd o.

(** What a finished task does to the store: write its entry, or delete
    its key (line 176). *)
Definition Write := (string * option Snapshot)%type.

Definition apply_write (o : Store) (w : Write) : Store :=
  match snd w with
  | Some v => obj_set (fst w) v o
  | None => obj_delete (fst w) o
  end.

(** ** [refreshStats] *)

(** What [servers.json] holds: no file, a text [JSON.parse] rejects, an
    array (its elements, [None] for a falsy one), or another value. *)
Inductive SeedsFile := NoFile | Unparsable | ParsedArray (elems : list (option Server)) | ParsedOther.

(** [loadServerSeeds()] (lines 104-118): the array when it is not
    empty, [null] otherwise. *)
Definition loadServerSeeds (f : SeedsFile) : option (list (option Server)) :=
  match f with ParsedArray ((_ :: _) as l) => Some l | _ => None end.

(** What one call of [refreshStats] reads from its environment: the
    proxy file ([fs.existsSync], its text, and which URLs
    [HttpsProxyAgent] accepts), the seed file, the live directory, the sessions,
    the random draws of each task, the geo database and tables, and the
    clock. *)
Record Inputs := mkInputs {
  in_proxy_file : bool;
  in_proxy_text : list Z;
  in_url_ok : list Z -> bool;
  in_seeds_file : SeedsFile;
  in_feed : list Server;
  in_transport : Transport;
  in_draw : nat -> nat -> nat -> nat;
  in_geoip : string -> option GeoipResult;
  in_countries : list (string * Country);
  in_continents : list (string * ContinentRaw);
  in_now : Z }.

(** Line 125: [getProxies()]. *)
Definition cycle_proxies (i : Inputs) : list Proxy :=
  getProxies (in_url_ok i) (in_proxy_file i) (in_proxy_text i).

(** The task of lines 153-181 for the server at index [k]: the stats,
    then [lookupGeo(server.ip)]. *)
Definition task_of (i : Inputs) (k : nat) (s : Server) : Write :=
  (serverKey s,
   match fst (@collectStatsWithProxies (in_transport i) (in_draw i k) s (cycle_proxies i)) with
   | inr stats => Some (entry_of s (lookupGeo (in_geoip i) (in_countries i) (in_continents i) (ip s)) (in_now i) stats)
   | inl _ => None
   end).

(** Lines 143-183: one task per non-null server ([TEST_MODE] is false). *)
Fixpoint launch (i : Inputs) (k : nat) (servers : list (option Server)) : list Write :=
  match servers with
  | [] => []
  | None :: t => launch i (S k) t
  | Some s :: t => task_of i k s :: launch i (S k) t
  end.

(** The module-level state: [latestStats], [isRefreshing], the cycle
    suspended in the [await getActiveServers()] of line 133 (with the
    inputs it resumes with), and the writes of the tasks still running. *)
Record OState := mkO { latestStats : Store; isRefreshing : bool; fetching : option Inputs; running : list Write }.

Definition init_ostate : OState := mkO [] false None [].

(** Lines 136-191, from the list of servers on: one task per server, or,
    when there is none, the [return] through [finally], which clears the
    flag. *)
Definition start_tasks (i : Inputs) (servers : list (option Server)) (st : OState) : OState :=
  match launch i 0 servers with
  | [] => mkO (latestStats st) false None []
  | tasks => mkO (latestStats st) true None tasks
  end.

(** A call of [refreshStats()] up to its first suspension.  Without
    proxies it returns through [finally]; with seeds the tasks start at
    once; otherwise the cycle suspends in [await getActiveServers()] with
    the flag set and no task running. *)
Definition refreshStats (i : Inputs) (st : OState) : OState :=
  if isRefreshing st then st
  else
    match cycle_proxies i with
    | [] => st
    | _ =>
        match loadServerSeeds (in_seeds_file i) with
        | Some seeds => start_tasks i seeds st
        | None => mkO (latestStats st) true (Some i) []
        end
    end.

(** The directory fetch of the suspended cycle completes with [in_feed]
    (a failed fetch yields [[]], [Directory.getActiveServers]) and the
    cycle resumes at line 136. *)
Definition serversLoaded (st : OState) : OState :=
  match fetching st with
  | None => st
  | Some i => start_tasks i (map Some (in_feed i)) st
  end.

(** The running task number [k] completes and writes; when it was the
    last, [Promise.allSettled] resolves and [finally] clears the flag. *)
Definition finish (k : nat) (st : OState) : OState :=
  match nth_error (running st) k with
  | None => st
  | Some w =>
      let rest := remove_nth k (running st) in
      mkO (apply_write (latestStats st) w) (match rest with [] => false | _ => true end) (fetching st) rest
  end.

Inductive OEvent := Start (i : Inputs) | Loaded | Finish (k : nat).

Definition ostep (st : OState) (ev : OEvent) : OState :=
  match ev with Start i => refreshStats i st | Loaded => serversLoaded st | Finish k => finish k st end.

(** The states the process can reach from its start (lines 22-23). *)
Inductive oreach : OState -> Prop :=
  | oreach_init : oreach init_ostate
  | oreach_step st ev : oreach st -> oreach (ostep st ev).

(** ** Drawing without replacement *)

Lemma index_of_nth pool r p :
  NoDup (map p_id pool) -> nth_error pool r = Some p -> index_of p pool = Some r.
Proof.
  revert r. induction pool as [|q t IH]; intros r Hnd Hn; [destruct r; discriminate|].
  inversion Hnd as [|? ? Hnotin Hnd']; subst. destruct r as [|r]; simpl in Hn |- *.
  - injection Hn as ->. unfold same_proxy. rewrite Nat.eqb_refl. reflexivity.
  - unfold same_proxy. destruct (Nat.eqb_spec (p_id p) (p_id q)) as [E|E].
    + exfalso. apply Hnotin. rewrite <- E. apply in_map. eapply nth_error_In, Hn.
    + rewrite (IH r Hnd' Hn). reflexivity.
Qed.

Lemma remove_nth_perm {A} (l : list A) r x : nth_error l r = Some x -> Permutation l (x :: remove_nth r l).
Proof.
  revert r. induction l as [|y t IH]; intros r Hn; [destruct r; discriminate|].
  destruct r as [|r]; simpl in Hn |- *.
  - injection Hn as ->. reflexivity.
  - eapply perm_trans; [apply perm_skip, IH, Hn | apply perm_swap].
Qed.

(** With an index in range and distinct objects, [drawProxy] removes
    exactly the proxy it returns. *)
Lemma drawProxy_spec pool r :
  NoDup (map p_id pool) -> (r < length pool)%nat ->
  exists p pool', drawProxy pool r = (Some p, pool') /\ Permutation pool (p :: pool').
Proof.
  intros Hnd Hr. destruct (nth_error pool r) as [p|] eqn:E; [|apply nth_error_None in E; lia].
  exists p, (remove_nth r pool). split; [|apply remove_nth_perm, E].
  unfold drawProxy, getRandomProxy. destruct pool as [|q t]; [simpl in Hr; lia|].
  rewrite E, (index_of_nth _ _ _ Hnd E). reflexivity.
Qed.

Lemma perm_nodup_tail p pool pool' :
  Permutation pool (p :: pool') -> NoDup (map p_id pool) ->
  NoDup (map p_id pool') /\ ~ In (p_id p) (map p_id pool') /\ incl pool' pool /\ In p pool.
Proof.
  intros Hp Hnd. apply (Permutation_map p_id) in Hp as Hpm.
  apply (Permutation_NoDup Hpm) in Hnd. inversion Hnd as [|? ? Hnotin Hnd']; subst.
  repeat split; [exact Hnd' | exact Hnotin | | ].
  - intros x Hx. apply (Permutation_in x (Permutation_sym Hp)). right. exact Hx.
  - apply (Permutation_in p (Permutation_sym Hp)). left. reflexivity.
Qed.

Lemma not_in_ids_incl (p : Proxy) ps pool :
  incl ps pool -> ~ In (p_id p) (map p_id pool) -> ~ In (p_id p) (map p_id ps).
Proof.
  intros Hi Hn Hin. apply Hn. apply in_map_iff in Hin as (q & Eq & Hq). rewrite <- Eq. apply in_map, Hi, Hq.
Qed.

(** ** The attempt loop *)

(** The result of a session is an error. *)
Definition failed (r : AttemptError + Payload) : Prop := exists e, r = inl e.

Section Loop.

Context `{Transport}.
Variable draw : nat -> nat -> nat.
Variable url : string.

(** The sessions [ps], opened as attempts [a], [a + 1], ..., all failed. *)
Fixpoint all_failed (a : nat) (ps : list (option Proxy)) : Prop :=
  match ps with
  | [] => True
  | y :: t => failed (session_result url y a) /\ all_failed (S a) t
  end.

Lemma all_failed_app a l1 l2 :
  all_failed a l1 -> all_failed (a + length l1) l2 -> all_failed a (l1 ++ l2).
Proof.
  revert a. induction l1 as [|y l1 IH]; intros a H1 H2; simpl in *.
  - rewrite Nat.add_0_r in H2. exact H2.
  - split; [apply H1|]. apply IH; [apply H1|].
    replace (S a + length l1)%nat with (a + S (length l1))%nat by lia. exact H2.
Qed.

(** What the loop returns: the sessions it opened, all failed but the
    last when it returns a payload, which that last session produced. *)
Lemma proxy_loop_outcome b : forall a av le t,
  let '(r, tried) := proxy_loop draw url b a av le t in
  exists ps, tried = t ++ map Some ps /\
  match r with
  | inl stats => exists pre p, ps = pre ++ [p] /\ all_failed a (map Some pre) /\
                 session_result url (Some p) (a + length pre) = inr stats
  | inr (a', le') => a' = (a + length ps)%nat /\ all_failed a (map Some ps) /\
                     (ps = [] -> le' = le) /\ (ps <> [] -> exists e, le' = Some e)
  end.
Proof.
  induction b as [|b IH]; intros a av le t.
  - exists []. rewrite app_nil_r. simpl. repeat split; [lia | congruence].
  - destruct av as [|q av].
    + exists []. rewrite app_nil_r. simpl. repeat split; [lia | congruence].
    + cbn [proxy_loop]. destruct (drawProxy (q :: av) _) as [[p|] av'].
      2: { exists []. rewrite app_nil_r. simpl. repeat split; [lia | congruence]. }
      destruct (session_result url (Some p) a) as [e|stats] eqn:Er.
      * specialize (IH (S a) av' (Some e) (t ++ [Some p])).
        destruct (proxy_loop draw url b (S a) av' (Some e) (t ++ [Some p])) as [r tried].
        destruct IH as (ps & -> & Hr). exists (p :: ps). split; [rewrite <- app_assoc; reflexivity|].
        destruct r as [stats|[a' le']].
        -- destruct Hr as (pre & p' & -> & Hf & Hs). exists (p :: pre), p'.
           split; [reflexivity|]. split; [split; [exists e; exact Er | exact Hf]|].
           rewrite <- Hs. f_equal. simpl. lia.
        -- destruct Hr as (Ha & Hf & H1 & H2). split; [simpl; lia|].
           split; [split; [exists e; exact Er | exact Hf]|]. split; [discriminate|intros _].
           destruct ps as [|p1 ps]; [rewrite H1 by reflexivity; eauto | apply H2; discriminate].
      * exists [p]. split; [reflexivity|]. exists [], p. rewrite Nat.add_0_r. repeat split; auto.
Qed.

Hypothesis draw_range : forall k n, (0 < n)%nat -> (draw k n < n)%nat.

(** The proxies the loop draws are distinct members of the pool; when no
    session succeeded it drew [min budget (length pool)] of them. *)
Lemma proxy_loop_draws b : forall a av le t,
  NoDup (map p_id av) ->
  let '(r, tried) := proxy_loop draw url b a av le t in
  exists ps, tried = t ++ map Some ps /\ NoDup (map p_id ps) /\ incl ps av /\
  match r with inr _ => length ps = Nat.min b (length av) | inl _ => True end.
Proof.
  induction b as [|b IH]; intros a av le t Hnd.
  - exists []. rewrite app_nil_r. repeat split; [apply NoDup_nil | intros x [] ].
  - destruct av as [|q av].
    + exists []. rewrite app_nil_r. repeat split; [apply NoDup_nil | intros x [] ].
    + cbn [proxy_loop].
      destruct (drawProxy_spec (q :: av) (draw a (length (q :: av))) Hnd
                  (draw_range a (length (q :: av)) ltac:(simpl; lia))) as (p & av' & -> & Hp).
      destruct (perm_nodup_tail _ _ _ Hp Hnd) as (Hnd' & Hnotin & Hincl & Hin).
      assert (Hlen : length (q :: av) = S (length av')) by (apply Permutation_length in Hp; exact Hp).
      destruct (session_result url (Some p) a) as [e|stats].
      * specialize (IH (S a) av' (Some e) (t ++ [Some p]) Hnd').
        destruct (proxy_loop draw url b (S a) av' (Some e) (t ++ [Some p])) as [r tried].
        destruct IH as (ps & -> & Hndps & Hi & Hr). exists (p :: ps).
        split; [rewrite <- app_assoc; reflexivity|].
        split; [constructor; [eapply not_in_ids_incl; eauto | exact Hndps]|].
        split; [intros x [<-|Hx]; [exact Hin | apply Hincl, Hi, Hx]|].
        destruct r; [exact I|]. rewrite Hlen. simpl. lia.
      * exists [p]. repeat split; [repeat constructor; intros [] | intros x [<-|[]]; exact Hin].
Qed.

(** The loop opens at most [budget] sessions. *)
Lemma proxy_loop_length b : forall a av le t,
  (length (snd (proxy_loop draw url b a av le t)) <= length t + b)%nat.
Proof.
  induction b as [|b IH]; intros a av le t; [destruct av; simpl; lia|].
  destruct av as [|q av]; [simpl; lia|]. cbn [proxy_loop].
  destruct (drawProxy (q :: av) _) as [[p|] av']; [|simpl; lia].
  destruct (session_result url (Some p) a) as [e|stats]; cbn [snd]; [|rewrite length_app; simpl; lia].
  specialize (IH (S a) av' (Some e) (t ++ [Some p])). rewrite length_app in IH. simpl in IH. lia.
Qed.

End Loop.

Lemma map_Some_inj {A} (l l' : list A) : map Some l = map Some l' -> l = l'.
Proof.
  revert l'. induction l as [|x l IH]; intros [|y l'] E; simpl in E; try discriminate; [reflexivity|].
  injection E as -> E. f_equal. apply IH, E.
Qed.

(** ** What [collectStatsWithProxies] does *)

(** C11: First success.  [collectStatsWithProxies] returns a payload
    exactly when the last session it opened produced it, every earlier
    session having failed; it throws only when every session it opened
    failed.  Session number [k] of the task, proxy-routed or the direct
    IPv6 one, is the [k]-th attempt. *)
Theorem collect_outcome `{Transport} (draw : nat -> nat -> nat) (s : Server) (proxies : list Proxy) :
  let '(r, tried) := collectStatsWithProxies draw s proxies in
  match r with
  | inr stats => exists pre y, tried = pre ++ [y] /\ all_failed (wsUrl s) 0 pre /\
                 session_result (wsUrl s) y (length pre) = inr stats
  | inl _ => all_failed (wsUrl s) 0 tried
  end.
Proof.
  unfold collectStatsWithProxies.
  pose proof (proxy_loop_outcome draw (wsUrl s) PROXY_RETRY_LIMIT 0 proxies None []) as Hl.
  destruct (proxy_loop draw (wsUrl s) PROXY_RETRY_LIMIT 0 proxies None []) as [r tried].
  destruct Hl as (ps & -> & Hr). simpl app.
  destruct r as [stats|[a le]].
  - destruct Hr as (pre & p & -> & Hf & Hs). exists (map Some pre), (Some p).
    rewrite map_app, length_map. auto.
  - destruct Hr as (-> & Hf & H1 & H2). cbn [Nat.add] in *.
    destruct (isIPv6Literal (ip s)).
    + destruct (session_result (wsUrl s) None (length ps)) as [e|stats] eqn:E.
      * apply all_failed_app; [exact Hf|]. rewrite length_map. split; [exists e; exact E | exact I].
      * exists (map Some ps), None. rewrite length_map. auto.
    + destruct le; exact Hf.
Qed.

(** C8: Bounded retries.  Against a server every session of which fails,
    with [Math.random] drawing indices in range and a pool of distinct
    proxies, [collectStatsWithProxies] opens exactly [min 3 P] sessions
    through distinct proxies of the pool, then one direct session exactly
    when the address is an IPv6 literal, and throws: the exhausted error
    with the number of proxy attempts, or [no proxies available] when it
    opened no session at all. *)
Theorem collect_always_failing `{Transport} (draw : nat -> nat -> nat) (s : Server) (proxies : list Proxy) :
  (forall k n, (0 < n)%nat -> (draw k n < n)%nat) ->
  (forall u y k, failed (session_result u y k)) ->
  NoDup (map p_id proxies) ->
  let '(r, tried) := collectStatsWithProxies draw s proxies in
  exists ps, tried = map Some ps ++ (if isIPv6Literal (ip s) then [None] else []) /\
    length ps = Nat.min PROXY_RETRY_LIMIT (length proxies) /\ NoDup (map p_id ps) /\ incl ps proxies /\
    match r with
    | inl (Exhausted n _) => n = length ps /\ tried <> []
    | inl (NoProxies k) => tried = [] /\ k = serverKey s
    | inr _ => False
    end.
Proof.
  intros Hdraw Hfail Hnd. unfold collectStatsWithProxies.
  pose proof (proxy_loop_outcome draw (wsUrl s) PROXY_RETRY_LIMIT 0 proxies None []) as Ho.
  pose proof (proxy_loop_draws draw (wsUrl s) Hdraw PROXY_RETRY_LIMIT 0 proxies None [] Hnd) as Hd.
  destruct (proxy_loop draw (wsUrl s) PROXY_RETRY_LIMIT 0 proxies None []) as [r tried].
  destruct Ho as (ps & -> & Hr). destruct Hd as (ps' & Eps & Hndps & Hi & Hlen).
  apply map_Some_inj in Eps. subst ps'. simpl app in *.
  destruct r as [stats|[a le]].
  - destruct Hr as (pre & p & _ & _ & Hs). destruct (Hfail (wsUrl s) (Some p) (0 + length pre)%nat) as [e He].
    congruence.
  - destruct Hr as (-> & _ & H1 & H2). cbn [Nat.add].
    destruct (isIPv6Literal (ip s)).
    + destruct (Hfail (wsUrl s) None (length ps)) as [e He]. rewrite He. cbv beta iota zeta.
      exists ps. repeat split; auto. destruct ps; discriminate.
    + destruct le as [e|]; cbv beta iota zeta; exists ps; rewrite ?app_nil_r; (repeat split; auto).
      * destruct ps; [specialize (H1 eq_refl); discriminate | discriminate].
      * destruct ps as [|p ps]; [reflexivity|]. destruct (H2 ltac:(discriminate)). discriminate.
Qed.

Definition example_proxies : list Proxy :=
  [mkProxy 1 (units "http://10.0.0.1:8080") (units "http://10.0.0.1:8080");
   mkProxy 2 (units "http://10.0.0.2:8080") (units "http://10.0.0.2:8080");
   mkProxy 3 (units "http://10.0.0.3:8080") (units "http://10.0.0.3:8080");
   mkProxy 4 (units "http://10.0.0.4:8080") (units "http://10.0.0.4:8080")].

Definition example_v6 : Server := mkServer "[2a01:4f8:0:1]" 444 10 1 true 15 1003.

Lemma collect_always_failing_witness :
  let '(r, tried) := @collectStatsWithProxies {| session_result := fun _ _ _ => inl ConnectThrew |}
                       (fun k n => Nat.modulo k n) example_v6 example_proxies in
  exists ps, tried = map Some ps ++ (if isIPv6Literal (ip example_v6) then [None] else []) /\
    length ps = Nat.min PROXY_RETRY_LIMIT (length example_proxies) /\ NoDup (map p_id ps) /\
    incl ps example_proxies /\
    match r with
    | inl (Exhausted n _) => n = length ps /\ tried <> []
    | inl (NoProxies k) => tried = [] /\ k = serverKey example_v6
    | inr _ => False
    end.
Proof.
  apply collect_always_failing.
  - intros k n Hn. apply Nat.mod_upper_bound. lia.
  - intros u y k. exists ConnectThrew. reflexivity.
  - vm_compute. repeat constructor; simpl; intuition discriminate.
Defined.

(** C15: No proxy is used twice by a task.  For every server of a cycle,
    with [Math.random] drawing indices in range, the sessions its task
    opens go through pairwise distinct proxies of the array [getProxies]
    loaded, at most three of them, followed by at most one direct session,
    and only for an IPv6 literal. *)
Theorem cycle_task_sessions (i : Inputs) (k : nat) (s : Server) :
  (forall a n, (0 < n)%nat -> (in_draw i k a n < n)%nat) ->
  exists ps d, snd (@collectStatsWithProxies (in_transport i) (in_draw i k) s (cycle_proxies i)) = map Some ps ++ d /\
    (d = [] \/ (d = [None] /\ isIPv6Literal (ip s) = true)) /\
    NoDup (map p_id ps) /\ incl ps (cycle_proxies i) /\ (length ps <= PROXY_RETRY_LIMIT)%nat.
Proof.
  intros Hdraw. unfold collectStatsWithProxies.
  pose proof (proxy_loop_draws (H := in_transport i) (in_draw i k) (wsUrl s) Hdraw PROXY_RETRY_LIMIT 0
                (cycle_proxies i) None [] (getProxies_nodup _ _ _)) as Hd.
  pose proof (proxy_loop_length (H := in_transport i) (in_draw i k) (wsUrl s) PROXY_RETRY_LIMIT 0
                (cycle_proxies i) None []) as Hl.
  destruct (proxy_loop _ _ _ _ _ _ _) as [r tried].
  destruct Hd as (ps & -> & Hnd & Hincl & _). simpl in Hl |- *. rewrite length_map in Hl.
  destruct r as [stats|[a le]].
  - exists ps, []. rewrite app_nil_r. auto.
  - destruct (isIPv6Literal (ip s)) eqn:E.
    + destruct (session_result _ None a) as [e|stats];
        [destruct le|]; exists ps, [None]; simpl; auto.
    + exists ps, []. rewrite app_nil_r. destruct le; simpl; auto.
Qed.

Definition example_inputs : Inputs :=
  mkInputs true (units "# pool" ++ [10] ++ units "10.0.0.1:8080" ++ [10] ++ units "10.0.0.2:8080:u:p")
    (fun _ => true) NoFile [example_v6] {| session_result := fun _ _ _ => inl ConnectThrew |}
    (fun _ a n => Nat.modulo a n) (fun _ => None) [] [] 0.

Lemma cycle_task_sessions_witness :
  exists ps d, snd (@collectStatsWithProxies (in_transport example_inputs) (in_draw example_inputs 0) example_v6
                      (cycle_proxies example_inputs)) = map Some ps ++ d /\
    (d = [] \/ (d = [None] /\ isIPv6Literal (ip example_v6) = true)) /\
    NoDup (map p_id ps) /\ incl ps (cycle_proxies example_inputs) /\ (length ps <= PROXY_RETRY_LIMIT)%nat.
Proof. apply cycle_task_sessions. intros a n Hn. apply Nat.mod_upper_bound. lia. Defined.

(** ** The store as a map *)

Lemma store_get_apply o w k :
  obj_get k (apply_write o w) = if String.eqb (fst w) k then snd w else obj_get k o.
Proof.
  destruct w as [k0 [v|]]; unfold apply_write; simpl;
    [rewrite obj_get_set | rewrite obj_get_delete]; reflexivity.
Qed.

Definition key_is (k : string) (w : Write) : bool := String.eqb (fst w) k.

Lemma find_key_none k (ws : list Write) : ~ In k (map fst ws) -> find (key_is k) ws = None.
Proof.
  induction ws as [|w ws IH]; intros Hn; [reflexivity|]. simpl. unfold key_is at 1.
  destruct (String.eqb_spec (fst w) k) as [E|E]; [exfalso; apply Hn; left; exact E|].
  apply IH. intros Hin. apply Hn. right. exact Hin.
Qed.

(** Applying writes with distinct keys: each key ends with its own write. *)
Lemma store_get_writes k (ws : list Write) : forall o,
  NoDup (map fst ws) ->
  obj_get k (fold_left apply_write ws o) =
  match find (key_is k) ws with Some w => snd w | None => obj_get k o end.
Proof.
  induction ws as [|w ws IH]; intros o Hnd; [reflexivity|].
  inversion Hnd as [|? ? Hnotin Hnd']; subst. simpl. rewrite IH by exact Hnd'.
  rewrite store_get_apply. unfold key_is at 2. destruct (String.eqb_spec (fst w) k) as [<-|E].
  - rewrite find_key_none by exact Hnotin. reflexivity.
  - reflexivity.
Qed.

Lemma nodup_key_unique (ws : list Write) w w' :
  NoDup (map fst ws) -> In w ws -> In w' ws -> fst w = fst w' -> w = w'.
Proof.
  induction ws as [|x t IH]; intros Hnd Hin Hin' E; [destruct Hin|].
  simpl in Hnd. apply NoDup_cons_iff in Hnd as [Hno Hnd'].
  destruct Hin as [<-|Hin], Hin' as [<-|Hin']; auto; exfalso; apply Hno;
    [rewrite E | rewrite <- E]; apply in_map; assumption.
Qed.

Lemma find_key_perm k (ws ws' : list Write) :
  Permutation ws ws' -> NoDup (map fst ws) -> find (key_is k) ws = find (key_is k) ws'.
Proof.
  intros Hp Hnd. assert (Hnd' : NoDup (map fst ws')) by exact (Permutation_NoDup (Permutation_map fst Hp) Hnd).
  destruct (find (key_is k) ws) as [w|] eqn:E.
  - apply find_some in E as [Hin Hk]. apply (Permutation_in _ Hp) in Hin.
    destruct (find (key_is k) ws') as [w'|] eqn:E'.
    + apply find_some in E' as [Hin' Hk']. unfold key_is in *. apply String.eqb_eq in Hk, Hk'.
      f_equal. apply (nodup_key_unique ws' w w' Hnd' Hin Hin'). congruence.
    + exfalso. eapply find_none in E'; [|exact Hin]. rewrite Hk in E'. discriminate.
  - symmetry. apply find_key_none. intros Hin. apply in_map_iff in Hin as (w & Hw & Hin).
    apply (Permutation_in _ (Permutation_sym Hp)) in Hin. eapply find_none in E; [|exact Hin].
    unfold key_is in E. rewrite Hw, String.eqb_refl in E. discriminate.
Qed.

(** ** A cycle as a sequence of task completions *)

Definition finish_all (ks : list nat) (st : OState) : OState := fold_left (fun s k => finish k s) ks st.

(** Completing tasks until none runs applies every write once, in some
    order. *)
Lemma finish_all_perm ks : forall st,
  running (finish_all ks st) = [] ->
  exists ws, Permutation ws (running st) /\
             latestStats (finish_all ks st) = fold_left apply_write ws (latestStats st).
Proof.
  induction ks as [|k ks IH]; intros st Hr.
  - exists []. simpl in *. rewrite Hr. split; [constructor | reflexivity].
  - change (finish_all (k :: ks) st) with (finish_all ks (finish k st)) in *.
    unfold finish in Hr |- *.
    destruct (nth_error (running st) k) as [w|] eqn:E; [|apply IH, Hr].
    destruct (IH _ Hr) as (ws & Hp & Hs). exists (w :: ws). split; [|exact Hs].
    cbn [running] in Hp. eapply perm_trans; [apply perm_skip, Hp|]. symmetry. apply remove_nth_perm, E.
Qed.

Lemma nonempty_flag {A} (l : list A) : (match l with [] => false | _ => true end) = true <-> l <> [].
Proof. destruct l; split; intros H; try discriminate; try reflexivity. exfalso. apply H. reflexivity. Qed.

(** The phases of a cycle: the flag is set exactly while the cycle is
    suspended in its fetch or has tasks running, never both at once. *)
Definition oinv (st : OState) : Prop :=
  (isRefreshing st = true <-> fetching st <> None \/ running st <> []) /\
  (fetching st = None \/ running st = []).

Lemma oinv_idle o (l : list Write) : oinv (mkO o (match l with [] => false | _ => true end) None l).
Proof.
  unfold oinv; cbn [isRefreshing fetching running]. split; [|left; reflexivity].
  rewrite nonempty_flag. split; [intros H; right; exact H | intros [H|H]; [congruence | exact H]].
Qed.

Lemma start_tasks_inv i l st : oinv (start_tasks i l st).
Proof. unfold start_tasks. destruct (launch i 0 l) as [|w ws]; [apply (oinv_idle _ []) | apply (oinv_idle _ (w :: ws))]. Qed.

Lemma oreach_inv st : oreach st -> oinv st.
Proof.
  induction 1 as [|st [i| |k] Hr IH]; simpl.
  - split; [split; [discriminate | intros [H|H]; exfalso; apply H; reflexivity] | left; reflexivity].
  - unfold refreshStats. destruct (isRefreshing st); [exact IH|]. destruct (cycle_proxies i); [exact IH|].
    destruct (loadServerSeeds (in_seeds_file i)); [apply start_tasks_inv|].
    split; [split; [intros _; left; discriminate | reflexivity] | right; reflexivity].
  - unfold serversLoaded. destruct (fetching st); [apply start_tasks_inv | exact IH].
  - unfold finish. destruct (nth_error (running st) k) eqn:E; [|exact IH].
    destruct IH as [_ [Hf|Hr']]; [|rewrite Hr', nth_error_nil in E; discriminate].
    rewrite Hf. apply oinv_idle.
Qed.

(** While tasks run, the flag is set. *)
Lemma oreach_running st : oreach st -> running st <> [] -> isRefreshing st = true.
Proof. intros Hr Hne. apply (oreach_inv st Hr). right. exact Hne. Qed.

(** Once the fetch is over and no task runs, the flag is clear. *)
Lemma oreach_idle st : oreach st -> fetching st = None -> running st = [] -> isRefreshing st = false.
Proof.
  intros Hr Hf Hn. destruct (isRefreshing st) eqn:B; [|reflexivity].
  apply (oreach_inv st Hr) in B. rewrite Hf, Hn in B. destruct B as [B|B]; exfalso; apply B; reflexivity.
Qed.

Lemma serversLoaded_fetching st : fetching (serversLoaded st) = None.
Proof. unfold serversLoaded, start_tasks. destruct (fetching st) eqn:E; [|exact E]. destruct (launch _ _ _); reflexivity. Qed.

Lemma finish_fetching k st : fetching (finish k st) = fetching st.
Proof. unfold finish. destruct (nth_error (running st) k); reflexivity. Qed.

(** C9: Order independence of a cycle.  When the running tasks have
    distinct keys, completing them in any order until none runs leaves,
    for every key, the entry its task wrote (or no entry when that task
    failed), and the previous entry for every key no task had. *)
Theorem cycle_store (st : OState) (ks : list nat) :
  NoDup (map fst (running st)) -> running (finish_all ks st) = [] ->
  forall key, obj_get key (latestStats (finish_all ks st)) =
    match find (key_is key) (running st) with
    | Some w => snd w
    | None => obj_get key (latestStats st)
    end.
Proof.
  intros Hnd Hr key. destruct (finish_all_perm ks st Hr) as (ws & Hp & ->).
  assert (Hnd' : NoDup (map fst ws)) by exact (Permutation_NoDup (Permutation_map fst (Permutation_sym Hp)) Hnd).
  rewrite store_get_writes by exact Hnd'. rewrite (find_key_perm key ws (running st) Hp Hnd'). reflexivity.
Qed.

Definition example_snap (t : Z) : Snapshot :=
  mkSnap "1.2.3.4" 444 2 t None (mkLb 0 0 (Some 0) []) (mkMinimap 0 []).

Definition example_cycle : OState :=
  mkO [("5.6.7.8:444"%string, example_snap 0)] true None
      [("1.2.3.4:444"%string, Some (example_snap 1)); ("5.6.7.8:444"%string, None)].

Lemma cycle_store_witness :
  obj_get "5.6.7.8:444" (latestStats (finish_all [1%nat; 0%nat] example_cycle)) =
    match find (key_is "5.6.7.8:444") (running example_cycle) with
    | Some w => snd w
    | None => obj_get "5.6.7.8:444" (latestStats example_cycle)
    end.
Proof.
  apply cycle_store; [|reflexivity]. simpl. repeat constructor; simpl; intuition discriminate.
Defined.

(** Two tasks for the same key (a duplicated seed or directory entry):
    the store then depends on which finishes last. *)
Example cycle_duplicate_keys :
  let st := mkO [] true None [("1.2.3.4:444"%string, Some (example_snap 1)); ("1.2.3.4:444"%string, None)] in
  obj_get "1.2.3.4:444" (latestStats (finish_all [0%nat; 0%nat] st)) = None /\
  obj_get "1.2.3.4:444" (latestStats (finish_all [1%nat; 0%nat] st)) = Some (example_snap 1).
Proof. split; reflexivity. Qed.

(** The [/stats] listing follows property creation order, so it depends
    on the completion order of the tasks of new keys. *)
Example stats_order_follows_completion :
  let st := mkO [] true None [("1.2.3.4:444"%string, Some (example_snap 1)); ("5.6.7.8:444"%string, Some (example_snap 2))] in
  store_values (latestStats (finish_all [0%nat; 0%nat] st)) = [example_snap 1; example_snap 2] /\
  store_values (latestStats (finish_all [1%nat; 0%nat] st)) = [example_snap 2; example_snap 1].
Proof. split; reflexivity. Qed.

Lemma finish_head st w t : running st = w :: t -> running (finish 0 st) = t /\ latestStats (finish 0 st) = apply_write (latestStats st) w.
Proof. intros E. unfold finish. rewrite E. split; reflexivity. Qed.

(** Completing the running tasks one by one, from a state past its fetch,
    reaches a reachable state where nothing runs and the flag is clear. *)
Lemma cycle_drains (st : OState) :
  oreach st -> fetching st = None ->
  let st' := finish_all (repeat 0%nat (length (running st))) st in
  isRefreshing st' = false /\ fetching st' = None /\ running st' = [] /\ oreach st'.
Proof.
  intros Hr Hf. remember (length (running st)) as n eqn:En. revert st Hr Hf En.
  induction n as [|n IH]; intros st Hr Hf En; simpl.
  - destruct (running st) eqn:E; [|discriminate]. auto using oreach_idle.
  - destruct (running st) as [|w t] eqn:E; [discriminate|].
    destruct (finish_head st w t E) as [Ht _].
    apply (IH (finish 0 st)); [apply (oreach_step st (Finish 0)), Hr | rewrite finish_fetching; exact Hf |
                               rewrite Ht; simpl in En; congruence].
Qed.

(** C14: Mutual exclusion and completion of cycles.  In every reachable
    state the flag [isRefreshing] is set exactly while a cycle is in
    progress: suspended in its directory fetch, or with tasks running,
    never both.  A call of [refreshStats] in that time changes nothing: it
    is dropped, not queued.  Once the fetch has completed and each task
    has completed, the flag is clear and nothing runs, so the next call
    starts a cycle. *)
Theorem refresh_exclusive (st : OState) :
  oreach st ->
  (isRefreshing st = true <-> fetching st <> None \/ running st <> []) /\
  (fetching st = None \/ running st = []) /\
  (isRefreshing st = true -> forall i, ostep st (Start i) = st) /\
  (let st1 := ostep st Loaded in
   let st' := finish_all (repeat 0%nat (length (running st1))) st1 in
   isRefreshing st' = false /\ fetching st' = None /\ running st' = [] /\ oreach st').
Proof.
  intros Hr. destruct (oreach_inv st Hr) as [Hf Hx]. split; [exact Hf|]. split; [exact Hx|]. split.
  - intros B i. simpl. unfold refreshStats. rewrite B. reflexivity.
  - apply cycle_drains; [apply (oreach_step st Loaded), Hr | apply serversLoaded_fetching].
Qed.

Lemma refresh_exclusive_witness :
  let st := ostep init_ostate (Start example_inputs) in
  (isRefreshing st = true <-> fetching st <> None \/ running st <> []) /\
  (fetching st = None \/ running st = []) /\
  (isRefreshing st = true -> forall i, ostep st (Start i) = st) /\
  (let st1 := ostep st Loaded in
   let st' := finish_all (repeat 0%nat (length (running st1))) st1 in
   isRefreshing st' = false /\ fetching st' = None /\ running st' = [] /\ oreach st').
Proof. intros st. apply refresh_exclusive. apply oreach_step, oreach_init. Defined.

(** The window of line 133: without seeds the first call sets the flag
    and suspends in the fetch, with no task running yet. *)
Example fetch_window :
  let st := ostep init_ostate (Start example_inputs) in
  isRefreshing st = true /\ fetching st = Some example_inputs /\ running st = [].
Proof. repeat split. Qed.

(** ** The [Session] model as the transport *)

(** The first settlement of the stats promise among a session's effects
    (the rejection of a second [returnStatsPromise] call concerns another
    promise). *)
Fixpoint first_settlement (effs : list Effect) : option (SessionError + Payload) :=
  match effs with
  | [] => None
  | Resolve p :: _ => Some (inr p)
  | Reject ErrAlreadyCompleted :: t => first_settlement t
  | Reject e :: _ => Some (inl e)
  | _ :: t => first_settlement t
  end.

Lemma first_settlement_some effs : (1 <= count settles effs)%nat -> exists r, first_settlement effs = Some r.
Proof.
  induction effs as [|e t IH]; intros Hc; [unfold count in Hc; simpl in Hc; lia|].
  unfold count in Hc. simpl in Hc.
  destruct e as [| |p|[| | |]| | | | |]; simpl in *; eauto.
Qed.

Section FromSession.

Variable random_id : nat -> list Z.
Variable random_cv : nat -> Z.
(** For each session: the world it starts in and the events its socket
    delivers before the 15-second timer fires. *)
Variable script : string -> option Proxy -> nat -> World * list Event.

(** [new SocketClient(url, ...)], then [await client.returnStatsPromise()]
    at once: the effects of the session, the timer firing last. *)
Definition session_effects (u : string) (y : option Proxy) (k : nat) : list Effect :=
  let '(w, evs) := script u y k in
  let '(_, _, effs) := run_events random_id random_cv (EvAwait :: evs ++ [EvTimeout]) (w, new_client) in
  effs.

Definition session_transport : Transport :=
  {| session_result u y k :=
       match first_settlement (session_effects u y k) with
       | Some (inr p) => inr p
       | Some (inl e) => inl (SessionFailed e)
       | None => inl (SessionFailed ErrTimeout)
       end |}.

Lemma session_effects_count u y k :
  ~ In EvAwait (snd (script u y k)) -> existsb halts (session_effects u y k) = false ->
  count settles (session_effects u y k) = 1%nat.
Proof.
  unfold session_effects. destruct (script u y k) as [w evs]. simpl snd. intros Hno.
  rewrite await_first.
  pose proof (run_then_timeout random_id random_cv evs w armed_client 0 Hno
                (or_introl (conj eq_refl (conj eq_refl (conj eq_refl eq_refl))))) as Hr.
  destruct (run_events random_id random_cv (evs ++ [EvTimeout]) (w, armed_client)) as [[u' [w' c']] effs].
  intros Hh. exact (proj2 (Hr Hh)).
Qed.

(** The transport refines the [Session] model: for a session whose
    promise is awaited once and during which the process goes on, the
    result [collectStatsWithProxies] receives is the one settlement of
    the promise.  (When the process terminates or hangs during the
    session, nothing after it is observable.) *)
Lemma session_transport_settles u y k :
  ~ In EvAwait (snd (script u y k)) -> existsb halts (session_effects u y k) = false ->
  exists r, first_settlement (session_effects u y k) = Some r /\
    @session_result session_transport u y k =
      match r with inr p => inr p | inl e => inl (SessionFailed e) end.
Proof.
  intros Hno Hh. pose proof (session_effects_count u y k Hno Hh) as Hc.
  destruct (first_settlement_some (session_effects u y k) ltac:(lia)) as [r E].
  exists r. split; [exact E|]. simpl. rewrite E. destruct r; reflexivity.
Qed.

End FromSession.
