(* ===== verification/Connect.v ===== *)
(** * Connect: how a [SocketClient] opens its socket

    The constructor of [SocketClient] ([src/socketClient.js], lines
    95-107) records the URL, the proxy agent and the proxy label of its
    options, puts every other field in the state [Session.new_client]
    models, and calls [connect()] (lines 109-131), which opens the
    [WebSocket] with the headers of a browser and, when the client has an
    agent, that agent.  [collectStatsWithProxies] ([src/index.js], lines
    67-70 and 86) builds the options from the proxy of the attempt, or
    none for the direct IPv6 attempt.  An agent is the object
    [new HttpsProxyAgent(url)] of [getProxies]; it is named by its URL. *)

From Stdlib Require Import String List ZArith.
From S2P Require Import Prelude Session Proxies.
Import ListNotations.
Local Open Scope string_scope.

Module SocketClient.

(** [new HttpsProxyAgent(url)] (getProxies.js line 51). *)
Inductive Agent := HttpsProxyAgent (url : list Z).

(** The options of the constructor ([{}] when absent). *)
Record ClientOptions := mkOpts { o_agent : option Agent; o_proxyLabel : option (list Z) }.

Definition no_options : ClientOptions := mkOpts None None.

(** [this.url], [this.agent] and [this.proxyLabel] (lines 96-98). *)
Record Identity := mkIdentity { c_url : string; c_agent : option Agent; c_proxyLabel : option (list Z) }.

(** [wsOptions.headers] (lines 111-118), in property order. *)
Definition HEADERS : list (string * string) :=
  [("accept-encoding", "gzip, deflate");
   ("accept-language", "en-US,en;q=0.9,de;q=0.8,tr;q=0.7,es;q=0.6,th;q=0.5,ru;q=0.4,pl;q=0.3,ko;q=0.2,ja;q=0.1,zh-CN;q=0.1,zh;q=0.1,hu;q=0.1,fr;q=0.1,it;q=0.1");
   ("cache-control", "no-cache");
   ("origin", "http://slither.com");
   ("pragma", "no-cache");
   ("user-agent", "Mozilla/5.0 (Windows NT 10.0; Win64; x64) AppleWebKit/537.36 (KHTML, like Gecko) Chrome/138.0.0.0 Safari/537.36 OPR/122.0.0.0")].

(** The object [wsOptions]: its headers and its [agent] property. *)
Record WsOptions := mkWs { headers : list (string * string); ws_agent : option Agent }.

(** [new WebSocket(this.url, wsOptions)] with [binaryType] set; the four
    handlers bound to the client are the events [Session.handle]
    dispatches. *)
Record Socket := mkSocket { ws_url : string; ws_options : WsOptions; binaryType : string }.

(** [connect()]: an agent is an object, so [if (this.agent)] holds exactly
    when there is one. *)
Definition connect (c : Identity) : Socket :=
  let wsOptions := mkWs HEADERS None in
  let wsOptions := match c_agent c with Some a => mkWs (headers wsOptions) (Some a) | None => wsOptions end in
  mkSocket (c_url c) wsOptions "arraybuffer".

(** [new SocketClient(url, options)]: the identity, the state of the
    remaining fields and the socket [connect()] opened. *)
Definition SocketClient_new (url : string) (options : ClientOptions) : Identity * Client * Socket :=
  let c := mkIdentity url (o_agent options) (o_proxyLabel options) in
  (c, new_client, connect c).

(** The options of an attempt of [collectStatsWithProxies]:
    [{ agent: proxy.agent, proxyLabel: proxy.label }], or none. *)
Definition proxy_agent (p : Proxy) : Agent := HttpsProxyAgent (p_url p).

Definition attempt_options (y : option Proxy) : ClientOptions :=
  match y with
  | Some p => mkOpts (Some (proxy_agent p)) (Some (p_label p))
  | None => no_options
  end.

End SocketClient.

Import SocketClient.

(** ** Lemmas *)

(** The socket of an attempt: the URL, the browser headers, and the
    agent of the proxy, or no agent for the direct attempt. *)
Lemma attempt_socket url y :
  let '(c, st, s) := SocketClient_new url (attempt_options y) in
  s = mkSocket url (mkWs HEADERS (option_map proxy_agent y)) "arraybuffer" /\
  c_proxyLabel c = option_map p_label y /\ st = new_client.
Proof. destruct y; repeat split. Qed.
