(* ===== verification/HttpApi.v ===== *)
(** * HttpApi: the HTTP routes of [src/index.js]

    [/live-viewers] (lines 214-239) keeps one server-sent-events stream
    per page viewer: the set [viewerClients], the counter [viewerCount],
    one heartbeat interval per stream, and [broadcastViewerCount]
    (lines 29-35) writing the count to every stream.  [/stats] (lines
    242-271) lists the entries of [latestStats], after awaiting a
    [refreshStats] cycle when asked to with [?refresh=1].

    Module [Viewers]: the state of the counter with the chunks written to
    each stream, one step per request or close event and per heartbeat.
    Module [App]: the process as one state machine over the orchestrator
    state of [Orchestrator], the viewers, and the [/stats] requests
    waiting for a cycle, with the responses sent.  Module [Routes]: the
    middleware and routes in the order they are registered (lines
    205-214, 242), paths matched as [express] matches them by default. *)

From Stdlib Require Import String Ascii ZArith List Lia Bool Permutation.
From S2P Require Import Prelude Directory Session Orchestrator.
Import ListNotations.
Open Scope Z_scope.

Module Viewers.

(** A response object [res] of [/live-viewers], by identity. *)
Definition Res := nat.

(** What is written on a stream: [data: {"viewerCount":n}] with its
    blank line, or the comment [: heartbeat]. *)
Inductive Chunk := Data (count : Z) | Heartbeat.

(** The module-level [viewerClients] (a [Set], in insertion order) and
    [viewerCount]; the heartbeat intervals still running, by the stream
    they write to; the next response object; every chunk written so
    far. *)
Record VState := mkV {
  viewerClients : list Res; viewerCount : Z; heartbeats : list Res; next_res : Res;
  written : list (Res * Chunk) }.

Definition init_vstate : VState := mkV [] 0 [] 0%nat [].

Definition has (r : Res) (s : list Res) : bool := existsb (Nat.eqb r) s.

(** [Set.prototype.add] and [delete]. *)
Definition set_add (r : Res) (s : list Res) : list Res := if has r s then s else s ++ [r].
Definition set_delete (r : Res) (s : list Res) : list Res := filter (fun x => negb (Nat.eqb x r)) s.

Definition write (st : VState) (w : list (Res * Chunk)) : VState :=
  mkV (viewerClients st) (viewerCount st) (heartbeats st) (next_res st) (written st ++ w).

(** [broadcastViewerCount()], lines 29-35. *)
Definition broadcastViewerCount (st : VState) : VState :=
  match viewerClients st with
  | [] => st
  | cs => write st (map (fun c => (c, Data (viewerCount st))) cs)
  end.

(** The handler of [/live-viewers] for a new response [res] (lines
    220-226): add, count, broadcast, then start the heartbeat. *)
Definition connect (st : VState) : VState :=
  let res := next_res st in
  let st1 := mkV (set_add res (viewerClients st)) (viewerCount st + 1) (heartbeats st) (S res) (written st) in
  let st2 := broadcastViewerCount st1 in
  mkV (viewerClients st2) (viewerCount st2) (heartbeats st2 ++ [res]) (next_res st2) (written st2).

(** [cleanup] of the stream [res] (lines 228-235), run on the [close]
    event of the request and again on that of the response. *)
Definition cleanup (res : Res) (st : VState) : VState :=
  let st1 := mkV (viewerClients st) (viewerCount st) (set_delete res (heartbeats st)) (next_res st) (written st) in
  if has res (viewerClients st1) then
    broadcastViewerCount
      (mkV (set_delete res (viewerClients st1)) (Z.max 0 (viewerCount st1 - 1)) (heartbeats st1)
           (next_res st1) (written st1))
  else st1.

(** The heartbeat interval of [res] fires (line 225). *)
Definition beat (res : Res) (st : VState) : VState :=
  if has res (heartbeats st) then write st [(res, Heartbeat)] else st.

Inductive VEvent := Connect | Close (res : Res) | Beat (res : Res).

Definition vstep (st : VState) (ev : VEvent) : VState :=
  match ev with Connect => connect st | Close r => cleanup r st | Beat r => beat r st end.

Inductive vreach : VState -> Prop :=
  | vreach_init : vreach init_vstate
  | vreach_step st ev : vreach st -> vreach (vstep st ev).

(** The last count written on the stream [r]. *)
Definition last_count (r : Res) (w : list (Res * Chunk)) : option Z :=
  fold_left (fun acc rc => match rc with (r', Data n) => if Nat.eqb r' r then Some n else acc | _ => acc end) w None.

(** The invariant of the counter: one heartbeat per connected stream,
    the count equal to the number of streams, and every stream's last
    count the current one. *)
Definition vinv (st : VState) : Prop :=
  heartbeats st = viewerClients st /\ NoDup (viewerClients st) /\
  (forall r, In r (viewerClients st) -> (r < next_res st)%nat) /\
  viewerCount st = Z.of_nat (length (viewerClients st)) /\
  (forall r, In r (viewerClients st) -> last_count r (written st) = Some (viewerCount st)).

(** ** Lemmas *)

Lemma has_In r s : has r s = true <-> In r s.
Proof.
  unfold has. rewrite existsb_exists. split.
  - intros (x & Hx & E). apply Nat.eqb_eq in E. subst. exact Hx.
  - intros H. exists r. split; [exact H | apply Nat.eqb_refl].
Qed.

Lemma has_notIn r s : has r s = false <-> ~ In r s.
Proof. rewrite <- has_In. destruct (has r s); split; congruence. Qed.

Lemma set_delete_In r x s : In x (set_delete r s) <-> In x s /\ x <> r.
Proof.
  unfold set_delete. rewrite filter_In. rewrite negb_true_iff, Nat.eqb_neq. reflexivity.
Qed.

Lemma set_delete_notin r s : ~ In r s -> set_delete r s = s.
Proof.
  induction s as [|x s IH]; intros Hn; [reflexivity|]. simpl.
  destruct (Nat.eqb_spec x r) as [->|]; [exfalso; apply Hn; left; reflexivity|].
  simpl. rewrite IH; [reflexivity|]. intros H. apply Hn. right. exact H.
Qed.

Lemma set_delete_nodup r s : NoDup s -> NoDup (set_delete r s).
Proof. intros H. apply NoDup_filter, H. Qed.

Lemma set_delete_length r s : NoDup s -> In r s -> S (length (set_delete r s)) = length s.
Proof.
  induction s as [|x s IH]; intros Hnd Hin; [destruct Hin|]. inversion Hnd as [|? ? Hx Hnd']; subst.
  simpl. destruct (Nat.eqb_spec x r) as [->|Hne]; simpl.
  - rewrite set_delete_notin by exact Hx. reflexivity.
  - destruct Hin as [->|Hin]; [congruence|]. rewrite IH; auto.
Qed.

Lemma last_count_snoc r w x c :
  last_count r (w ++ [(x, c)]) =
  match c with Data n => if Nat.eqb x r then Some n else last_count r w | Heartbeat => last_count r w end.
Proof. unfold last_count. rewrite fold_left_app. reflexivity. Qed.

(** Writing the count [n] to the streams [cs]. *)
Lemma last_count_broadcast r w cs n :
  last_count r (w ++ map (fun c => (c, Data n)) cs) = if has r cs then Some n else last_count r w.
Proof.
  revert w. induction cs as [|x cs IH]; intros w; [rewrite app_nil_r; reflexivity|].
  change (x :: cs) with ([x] ++ cs). rewrite map_app, app_assoc, IH. cbn [map]. rewrite last_count_snoc.
  unfold has. cbn [app existsb]. rewrite (Nat.eqb_sym r x).
  destruct (existsb (Nat.eqb r) cs), (Nat.eqb x r); reflexivity.
Qed.

(** After a broadcast every stream shows the current count. *)
Lemma broadcast_last st r :
  In r (viewerClients st) -> last_count r (written (broadcastViewerCount st)) = Some (viewerCount st).
Proof.
  unfold broadcastViewerCount. destruct (viewerClients st) as [|c cs] eqn:E; [intros []|].
  intros Hin. cbn [written write]. rewrite <- E, last_count_broadcast.
  rewrite E. apply has_In in Hin. rewrite Hin. reflexivity.
Qed.

Lemma broadcast_fields st :
  viewerClients (broadcastViewerCount st) = viewerClients st /\ viewerCount (broadcastViewerCount st) = viewerCount st /\
  heartbeats (broadcastViewerCount st) = heartbeats st /\ next_res (broadcastViewerCount st) = next_res st.
Proof. unfold broadcastViewerCount. destruct (viewerClients st) eqn:E; repeat split; simpl; congruence. Qed.

Lemma vinv_init : vinv init_vstate.
Proof. repeat split; try constructor; intros r []. Qed.

Lemma vinv_connect st : vinv st -> vinv (connect st).
Proof.
  intros (Hh & Hnd & Hlt & Hc & Hl). unfold connect. cbv zeta.
  set (res := next_res st).
  assert (Hn : ~ In res (viewerClients st)) by (intros H; specialize (Hlt _ H); unfold res in Hlt; lia).
  set (st1 := mkV (set_add res (viewerClients st)) (viewerCount st + 1) (heartbeats st) (S res) (written st)).
  destruct (broadcast_fields st1) as (E1 & E2 & E3 & E4).
  unfold vinv. cbn [viewerClients viewerCount heartbeats next_res written]. rewrite E1, E2, E3, E4.
  assert (Eset : set_add res (viewerClients st) = viewerClients st ++ [res])
    by (unfold set_add; rewrite (proj2 (has_notIn _ _) Hn); reflexivity).
  unfold st1; cbn [viewerClients viewerCount heartbeats next_res]. rewrite Eset.
  split; [rewrite Hh; reflexivity|]. split; [apply NoDup_app; [exact Hnd | repeat constructor; intros [] | intros x Hx [<-|[]]; exact (Hn Hx)]|].
  split; [intros r Hr; apply in_app_iff in Hr as [Hr|[<-|[]]]; [specialize (Hlt r Hr); lia | lia]|].
  split; [rewrite length_app, Hc; simpl; lia|].
  intros r Hr. pose proof (broadcast_last st1 r) as HB. unfold st1 in HB. cbn [viewerClients viewerCount] in HB.
  rewrite Eset in HB. exact (HB Hr).
Qed.

Lemma vinv_cleanup res st : vinv st -> vinv (cleanup res st).
Proof.
  intros (Hh & Hnd & Hlt & Hc & Hl). unfold cleanup. cbv zeta. cbn [viewerClients viewerCount heartbeats next_res written].
  rewrite Hh. destruct (has res (viewerClients st)) eqn:Hin.
  - apply has_In in Hin.
    set (st2 := mkV (set_delete res (viewerClients st)) (Z.max 0 (viewerCount st - 1)) (set_delete res (viewerClients st))
                    (next_res st) (written st)).
    destruct (broadcast_fields st2) as (E1 & E2 & E3 & E4). unfold vinv. rewrite E1, E2, E3, E4.
    unfold st2; cbn [viewerClients viewerCount heartbeats next_res].
    split; [reflexivity|]. split; [apply set_delete_nodup, Hnd|].
    split; [intros r Hr; apply set_delete_In in Hr; apply Hlt, Hr|].
    split; [pose proof (set_delete_length res _ Hnd Hin); lia|].
    intros r Hr. fold st2. apply (broadcast_last st2 r Hr).
  - apply has_notIn in Hin. rewrite (set_delete_notin _ _ Hin). repeat split; assumption.
Qed.

Lemma vinv_beat res st : vinv st -> vinv (beat res st).
Proof.
  intros Hv. unfold beat. destruct (has res (heartbeats st)); [|exact Hv].
  destruct Hv as (Hh & Hnd & Hlt & Hc & Hl). repeat split; try assumption.
  intros r Hr. cbn [written write viewerCount]. rewrite last_count_snoc. apply Hl, Hr.
Qed.

Lemma vinv_step st ev : vinv st -> vinv (vstep st ev).
Proof. destruct ev; [apply vinv_connect | apply vinv_cleanup | apply vinv_beat]. Qed.

(** C17: The viewer counter is exact.  In every state the server reaches,
    whatever the interleaving of new streams, [close] events (each stream
    closes twice, request and response) and heartbeats: [viewerCount] is
    the number of open streams, exactly the open streams have a heartbeat
    interval running, and the last count every open stream was sent is
    the current one. *)
Theorem viewers_consistent (st : VState) : vreach st -> vinv st.
Proof. induction 1; [apply vinv_init | apply vinv_step; assumption]. Qed.

Lemma viewers_consistent_witness :
  vinv (vstep (vstep (vstep (vstep init_vstate Connect) Connect) (Close 0%nat)) (Close 0%nat)).
Proof. apply viewers_consistent. repeat constructor. Defined.

End Viewers.

Module App.

Import Viewers.

Definition REFRESH_INTERVAL : Z := 120000.
Definition TEST_MODE : bool := false.

(** The JSON body of a [200] response (lines 263-270). *)
Record StatsBody := mkBody {
  testMode : bool; updatedAt : string; refreshIntervalSeconds : Z; serverCount : nat;
  onlineViewers : Z; servers : list Snapshot }.

Inductive Response :=
  | Collecting (message : string) (refreshIntervalSeconds : Z)   (** status [202], lines 256-261 *)
  | StatsOk (body : StatsBody).                                  (** status [200] *)

(** The HTTP status of a response: [res.status(202)], or [200] by
    default for [res.json]. *)
Definition status_of (r : Response) : Z := match r with Collecting _ _ => 202 | StatsOk _ => 200 end.

(** Lines 252-254: the values of [latestStats] without the [null]s.
    Only [TEST_MODE] stores [null] (line 150), and it is [false], so the
    filter keeps every value. *)
Definition stats_list (o : Store) : list Snapshot := store_values o.

(** The response of lines 252-270, [now] being [new Date().toISOString()]. *)
Definition stats_response (now : string) (o : Store) (count : Z) : Response :=
  match stats_list o with
  | [] => Collecting "No stats yet. Collecting..." (REFRESH_INTERVAL / 1000)
  | l => StatsOk (mkBody TEST_MODE now (REFRESH_INTERVAL / 1000) (length l) count l)
  end.

(** The process: the orchestrator state, the viewers, the [/stats]
    requests suspended in [await refreshStats()] (line 245), the
    responses sent, by request, and the next request. *)
Record AState := mkA {
  orch : OState; viewers : VState; waiting : list nat; responses : list (nat * Response); next_req : nat }.

Definition init_astate : AState := mkA init_ostate init_vstate [] [] 0%nat.

Inductive AEvent :=
  | Interval (i : Inputs)                          (** [refreshStats()] of lines 197-203 *)
  | ServersFetched (now : string)                  (** the fetch of line 133 completes *)
  | TaskDone (k : nat) (now : string)              (** the running task [k] completes *)
  | GetStats (refresh : bool) (i : Inputs) (now : string)   (** a [GET /stats] request *)
  | ViewerEvent (ev : VEvent).

(** Request [q] gets its response now. *)
Definition respond (now : string) (q : nat) (st : AState) : AState :=
  mkA (orch st) (viewers st) (waiting st)
      (responses st ++ [(q, stats_response now (latestStats (orch st)) (viewerCount (viewers st)))]) (next_req st).

Definition with_orch (o : OState) (st : AState) : AState :=
  mkA o (viewers st) (waiting st) (responses st) (next_req st).

(** The handler of lines 242-271 for request number [next_req]: with
    [refresh=1] it calls [refreshStats], which returns at once when a
    cycle is in progress or when it starts none, and otherwise completes
    with the cycle. *)
Definition get_stats (refresh : bool) (i : Inputs) (now : string) (st : AState) : AState :=
  let q := next_req st in
  let st := mkA (orch st) (viewers st) (waiting st) (responses st) (S q) in
  if refresh then
    let o := refreshStats i (orch st) in
    if isRefreshing (orch st) then respond now q st
    else if isRefreshing o then mkA o (viewers st) (waiting st ++ [q]) (responses st) (next_req st)
    else respond now q (with_orch o st)
  else respond now q st.

(** The cycle moves on to the state [o]; when that ends it ([finally]
    clears the flag), the promise of [refreshStats()] settles and the
    requests waiting for it resume, in order. *)
Definition resume (o : OState) (now : string) (st : AState) : AState :=
  if isRefreshing (orch st) && negb (isRefreshing o) then
    fold_left (fun s q => respond now q s) (waiting st)
              (mkA o (viewers st) [] (responses st) (next_req st))
  else with_orch o st.

(** A task completes. *)
Definition task_done (k : nat) (now : string) (st : AState) : AState := resume (finish k (orch st)) now st.

Definition astep (st : AState) (ev : AEvent) : AState :=
  match ev with
  | Interval i => with_orch (refreshStats i (orch st)) st
  | ServersFetched now => resume (serversLoaded (orch st)) now st
  | TaskDone k now => task_done k now st
  | GetStats r i now => get_stats r i now st
  | ViewerEvent ev => mkA (orch st) (vstep (viewers st) ev) (waiting st) (responses st) (next_req st)
  end.

Inductive areach : AState -> Prop :=
  | areach_init : areach init_astate
  | areach_step st ev : areach st -> areach (astep st ev).

(** The requests seen so far: answered, or waiting. *)
Definition seen (st : AState) : list nat := map fst (responses st) ++ waiting st.

(** The invariant of the process: the orchestrator state is reachable, a
    request only waits while a cycle is in progress, at most one waits,
    and every request is answered at most once, no request both waiting
    and answered. *)
Definition ainv (st : AState) : Prop :=
  oreach (orch st) /\ (waiting st <> [] -> isRefreshing (orch st) = true) /\
  NoDup (seen st) /\ (forall q, In q (seen st) -> (q < next_req st)%nat) /\
  (length (waiting st) <= 1)%nat.

(** ** Lemmas *)

Lemma respond_all now ws : forall st,
  fold_left (fun s q => respond now q s) ws st =
  mkA (orch st) (viewers st) (waiting st)
      (responses st ++ map (fun q => (q, stats_response now (latestStats (orch st)) (viewerCount (viewers st)))) ws)
      (next_req st).
Proof.
  induction ws as [|q ws IH]; intros st; simpl.
  - rewrite app_nil_r. destruct st; reflexivity.
  - rewrite IH. simpl. rewrite <- app_assoc. reflexivity.
Qed.

Lemma map_fst_answers (f : nat -> Response) ws : map fst (map (fun q => (q, f q)) ws) = ws.
Proof. rewrite map_map. apply map_id. Qed.

Lemma refresh_keeps_flag i o : isRefreshing o = true -> refreshStats i o = o.
Proof. intros H. unfold refreshStats. rewrite H. reflexivity. Qed.

Lemma fresh_request st : ainv st -> ~ In (next_req st) (seen st).
Proof. intros (_ & _ & _ & Hlt & _) H. specialize (Hlt _ H). lia. Qed.

(** Adding the fresh request [n] to the requests seen. *)
Lemma add_fresh (l l' : list nat) n :
  Permutation l' (n :: l) -> NoDup l -> (forall x, In x l -> (x < n)%nat) ->
  NoDup l' /\ (forall x, In x l' -> (x < S n)%nat).
Proof.
  intros Hp Hnd Hlt. split.
  - apply (Permutation_NoDup (Permutation_sym Hp)). constructor; [intros H; specialize (Hlt n H); lia | exact Hnd].
  - intros x Hx. apply (Permutation_in _ Hp) in Hx. destruct Hx as [<-|Hx]; [lia | specialize (Hlt x Hx); lia].
Qed.

Lemma perm_answer (R W : list nat) q : Permutation ((R ++ [q]) ++ W) (q :: R ++ W).
Proof. rewrite <- app_assoc. simpl. symmetry. apply Permutation_middle. Qed.

Lemma perm_wait (R W : list nat) q : Permutation (R ++ W ++ [q]) (q :: R ++ W).
Proof. rewrite app_assoc. symmetry. apply Permutation_cons_append. Qed.

Lemma ainv_respond now st :
  ainv st -> forall q, q = next_req st -> ainv (respond now q (mkA (orch st) (viewers st) (waiting st) (responses st) (S q))).
Proof.
  intros (Ho & Hw & Hnd & Hlt & Hl) q ->. unfold ainv, seen, respond in *. cbn [orch waiting responses next_req].
  rewrite map_app. cbn [map fst].
  destruct (add_fresh _ _ _ (perm_answer (map fst (responses st)) (waiting st) (next_req st)) Hnd Hlt) as [H1 H2].
  auto.
Qed.

(** After [resume o], the orchestrator state is [o], and the request
    counter is unchanged. *)
Lemma resume_orch o now st : next_req (resume o now st) = next_req st /\ orch (resume o now st) = o.
Proof. unfold resume. destruct (_ && _); [rewrite respond_all|]; split; reflexivity. Qed.

(** A step of the cycle keeps the invariant, resuming the waiting
    requests when it ends the cycle. *)
Lemma ainv_resume o now st : ainv st -> oreach o -> ainv (resume o now st).
Proof.
  intros (Ho & Hw & Hnd & Hlt & Hl) Ho'. unfold resume.
  destruct (isRefreshing (orch st) && negb (isRefreshing o)) eqn:B.
  - rewrite respond_all. unfold ainv, seen in *. cbn [orch waiting responses next_req].
    rewrite app_nil_r, map_app, map_fst_answers.
    split; [exact Ho'|]. split; [intros H; congruence|]. split; [exact Hnd|]. split; [exact Hlt | simpl; lia].
  - unfold ainv, seen, with_orch in *. cbn [orch waiting responses next_req]. repeat split; auto.
    intros Hne. rewrite (Hw Hne) in B. destruct (isRefreshing o); [reflexivity | discriminate].
Qed.

(** Every request seen stays seen: a waiting request is only ever
    answered. *)
Lemma resume_seen o now st : incl (seen st) (seen (resume o now st)).
Proof.
  unfold resume, seen. destruct (_ && _).
  - rewrite respond_all. cbn [responses waiting]. rewrite app_nil_r, map_app, map_fst_answers. apply incl_refl.
  - apply incl_refl.
Qed.

(** No request waits once the cycle is over. *)
Lemma ainv_idle st : ainv st -> isRefreshing (orch st) = false -> waiting st = [].
Proof.
  intros (_ & Hw & _) F. destruct (waiting st) eqn:E; [reflexivity|].
  rewrite Hw in F; [discriminate | discriminate].
Qed.

Lemma ainv_step st ev : ainv st -> ainv (astep st ev).
Proof.
  intros Hinv. pose proof Hinv as (Ho & Hw & Hnd & Hlt & Hl). destruct ev as [i|now|k now|[|] i now|ev]; cbn [astep].
  - unfold ainv, seen, with_orch in *. cbn [orch waiting responses next_req].
    split; [apply (oreach_step _ (Start i)), Ho|]. split; [|auto].
    intros Hne. rewrite refresh_keeps_flag; apply Hw, Hne.
  - apply ainv_resume; [exact Hinv | apply (oreach_step _ Loaded), Ho].
  - apply ainv_resume; [exact Hinv | apply (oreach_step _ (Finish k)), Ho].
  - unfold get_stats. cbv zeta. cbn [orch].
    destruct (isRefreshing (orch st)) eqn:F; [apply ainv_respond; auto|].
    pose proof (ainv_idle st Hinv F) as W.
    destruct (isRefreshing (refreshStats i (orch st))) eqn:F'.
    + unfold ainv, seen in *. cbn [orch waiting responses next_req].
      destruct (add_fresh _ _ _ (perm_wait (map fst (responses st)) (waiting st) (next_req st)) Hnd Hlt) as [H1 H2].
      split; [apply (oreach_step _ (Start i)), Ho|]. split; [intros _; exact F'|].
      split; [exact H1|]. split; [exact H2|]. rewrite W. simpl. lia.
    + apply (ainv_respond now (with_orch (refreshStats i (orch st)) st)); [|reflexivity].
      unfold ainv, seen, with_orch in *. cbn [orch waiting responses next_req].
      split; [apply (oreach_step _ (Start i)), Ho|]. split; [|auto]. intros Hne. discriminate (Hw Hne).
  - apply ainv_respond; auto.
  - unfold ainv, seen in *. cbn [orch waiting responses next_req]. auto.
Qed.

Lemma areach_ainv st : areach st -> ainv st.
Proof.
  induction 1 as [|st ev Hr IH]; [|apply ainv_step, IH].
  unfold ainv, seen. cbn. repeat split; [constructor | congruence | constructor | intros q [] | lia].
Qed.

(** Completing the running tasks one by one, from a state past its
    fetch, ends the cycle and keeps every request seen. *)
Lemma tasks_drain now n : forall st,
  areach st -> fetching (orch st) = None -> n = length (running (orch st)) ->
  let st' := fold_left astep (repeat (TaskDone 0 now) n) st in
  isRefreshing (orch st') = false /\ incl (seen st) (seen st') /\ areach st'.
Proof.
  induction n as [|n IH]; intros st Hr Hf En; cbn [repeat fold_left].
  - destruct (areach_ainv st Hr) as (Ho & _).
    split; [apply oreach_idle; auto; destruct (running (orch st)); [reflexivity | discriminate] |].
    split; [apply incl_refl | exact Hr].
  - destruct (running (orch st)) as [|w t] eqn:E; [discriminate|].
    destruct (finish_head (orch st) w t E) as [Ht _].
    destruct (IH (task_done 0 now st)) as (F & Hi & Hr'');
      [exact (areach_step st (TaskDone 0 now) Hr) | unfold task_done; rewrite (proj2 (resume_orch _ _ _)), finish_fetching; exact Hf |
       unfold task_done; rewrite (proj2 (resume_orch _ _ _)), Ht; simpl in En; congruence |].
    split; [exact F|]. split; [|exact Hr'']. eapply incl_tran; [apply resume_seen | exact Hi].
Qed.

(** C18: [/stats] requests.  In every reachable state of the process each
    request has been answered at most once, no request is both answered
    and waiting, at most one request waits (the one whose call started the
    cycle in progress: any other refresh meanwhile is answered at once),
    and a request waits only while that cycle is in progress, suspended in
    its directory fetch or with tasks running. *)
Theorem stats_requests_safe (st : AState) :
  areach st ->
  NoDup (map fst (responses st) ++ waiting st) /\ (length (waiting st) <= 1)%nat /\
  (waiting st <> [] -> fetching (orch st) <> None \/ running (orch st) <> []).
Proof.
  intros Hr. destruct (areach_ainv st Hr) as (Ho & Hw & Hnd & _ & Hl). split; [exact Hnd|]. split; [exact Hl|].
  intros Hne. apply (oreach_inv _ Ho), Hw, Hne.
Qed.

Lemma stats_requests_safe_witness :
  let st := astep init_astate (GetStats true example_inputs "t0") in
  NoDup (map fst (responses st) ++ waiting st) /\ (length (waiting st) <= 1)%nat /\
  (waiting st <> [] -> fetching (orch st) <> None \/ running (orch st) <> []).
Proof. apply stats_requests_safe. apply areach_step, areach_init. Defined.

(** C16: A refresh request is answered.  From any reachable state, once
    the directory fetch of the cycle in progress has completed and then
    each running task has completed, no request waits any more, every
    request that was waiting has its response, and the flag
    [isRefreshing] is cleared. *)
Theorem waiting_answered (st : AState) (now : string) :
  areach st ->
  let st1 := astep st (ServersFetched now) in
  let st' := fold_left astep (repeat (TaskDone 0 now) (length (running (orch st1)))) st1 in
  waiting st' = [] /\ isRefreshing (orch st') = false /\
  (forall q, In q (waiting st) -> In q (map fst (responses st'))) /\ areach st'.
Proof.
  intros Hr st1 st'. assert (Hr1 : areach st1) by exact (areach_step st _ Hr).
  destruct (tasks_drain now (length (running (orch st1))) st1 Hr1) as (F & Hi & Hr');
    [unfold st1; cbn [astep]; rewrite (proj2 (resume_orch _ _ _)); apply serversLoaded_fetching | reflexivity |].
  fold st' in F, Hi, Hr'. pose proof (ainv_idle st' (areach_ainv st' Hr') F) as W.
  split; [exact W|]. split; [exact F|]. split; [|exact Hr'].
  intros q Hq. assert (Hs : In q (seen st')).
  { apply Hi, (resume_seen _ now st). unfold seen. apply in_or_app. right. exact Hq. }
  unfold seen in Hs. rewrite W, app_nil_r in Hs. exact Hs.
Qed.

Lemma waiting_answered_witness :
  let st := astep init_astate (GetStats true example_inputs "t0") in
  let st1 := astep st (ServersFetched "t1") in
  let st' := fold_left astep (repeat (TaskDone 0 "t1") (length (running (orch st1)))) st1 in
  waiting st' = [] /\ isRefreshing (orch st') = false /\
  (forall q, In q (waiting st) -> In q (map fst (responses st'))) /\ areach st'.
Proof. intros st. apply waiting_answered. apply areach_step, areach_init. Defined.

(** C26: A manual refresh during a cycle does not wait for it.
    [/stats?refresh=1] sent while a cycle is in progress (suspended in its
    directory fetch, or with tasks running) gets its response at once,
    from the store as it is, without the cycle's results, and changes
    nothing else. *)
Theorem refresh_during_cycle (st : AState) (i : Inputs) (now : string) :
  areach st -> fetching (orch st) <> None \/ running (orch st) <> [] ->
  astep st (GetStats true i now) =
  mkA (orch st) (viewers st) (waiting st)
      (responses st ++ [(next_req st, stats_response now (latestStats (orch st)) (viewerCount (viewers st)))])
      (S (next_req st)).
Proof.
  intros Hr Hne. destruct (areach_ainv st Hr) as (Ho & _).
  apply (oreach_inv _ Ho) in Hne. cbn [astep]. unfold get_stats. cbv zeta. cbn [orch]. rewrite Hne. reflexivity.
Qed.

Lemma refresh_during_cycle_witness :
  let st := astep init_astate (Interval example_inputs) in
  astep st (GetStats true example_inputs "t0") =
  mkA (orch st) (viewers st) (waiting st)
      (responses st ++ [(next_req st, stats_response "t0" (latestStats (orch st)) (viewerCount (viewers st)))])
      (S (next_req st)).
Proof.
  apply refresh_during_cycle; [apply areach_step, areach_init|].
  left. intros Hx. vm_compute in Hx. discriminate Hx.
Defined.

End App.

(** ** The route table of the [express] app *)

Module Routes.

Import App.

(** A request as the app sees it: its method, its path, and the value
    [req.query.refresh] of its parsed query ([None] when absent, a list of
    several values being no string). *)
Inductive Method := GET | HEAD | OtherMethod.
Record Request := mkReq { method : Method; rpath : string; query_refresh : option string }.

(** Which handler answers: a file of [public/] served by
    [express.static], the [/] route, [/live-viewers], [/stats] with the
    outcome of its test [req.query.refresh === "1"], or the final 404 of
    the app. *)
Inductive Outcome := StaticFile (file : string) | IndexPage | LiveViewers | StatsRoute (refresh : bool) | NotFound.

Definition lower_char (a : ascii) : ascii :=
  let n := nat_of_ascii a in if Nat.leb 65 n && Nat.leb n 90 then ascii_of_nat (n + 32) else a.

Fixpoint lower (s : string) : string :=
  match s with EmptyString => EmptyString | String a t => String (lower_char a) (lower t) end.

(** [s] without one final [/]. *)
Fixpoint strip_slash (s : string) : string :=
  match s with
  | EmptyString => EmptyString
  | String "/"%char EmptyString => EmptyString
  | String a t => String a (strip_slash t)
  end.

(** A route path matches as [express] matches by default: up to case and
    with an optional final [/]. *)
Definition route_matches (route p : string) : bool := String.eqb (strip_slash (lower p)) (strip_slash route).

Section Dispatch.

(** What [express.static(publicDir)] serves for the path of a [GET] or
    [HEAD] request, [None] when it calls [next()]. *)
Variable static_file : string -> option string.

(** Lines 205-212, 214, 242-243: the middleware and the routes in the
    order they are registered; [app.get] routes answer [GET] and [HEAD]. *)
Definition dispatch (r : Request) : Outcome :=
  let get := match method r with GET | HEAD => true | OtherMethod => false end in
  match if get then static_file (rpath r) else None with
  | Some f => StaticFile f
  | None =>
      if negb get then NotFound
      else if route_matches "/" (rpath r) then IndexPage
      else if route_matches "/live-viewers" (rpath r) then LiveViewers
      else if route_matches "/stats" (rpath r) then
        StatsRoute (match query_refresh r with Some v => String.eqb v "1" | None => false end)
      else NotFound
  end.

(** The event of the process a request starts, if any. *)
Definition request_event (i : Inputs) (now : string) (r : Request) : option AEvent :=
  match dispatch r with
  | LiveViewers => Some (ViewerEvent Viewers.Connect)
  | StatsRoute b => Some (GetStats b i now)
  | _ => None
  end.

End Dispatch.

(** A [GET /stats] that no file of [public/] shadows starts the [/stats]
    handler, which refreshes exactly for [refresh=1]. *)
Lemma dispatch_stats static_file p q :
  static_file p = None -> route_matches "/stats" p = true ->
  dispatch static_file (mkReq GET p q) = StatsRoute (match q with Some v => String.eqb v "1" | None => false end).
Proof.
  intros Hs Hm. unfold dispatch. cbn [method rpath query_refresh]. rewrite Hs. cbn [negb].
  destruct (route_matches "/" p) eqn:E1.
  - unfold route_matches in *. apply String.eqb_eq in E1, Hm. rewrite E1 in Hm. discriminate.
  - destruct (route_matches "/live-viewers" p) eqn:E2; [|rewrite Hm; reflexivity].
    unfold route_matches in *. apply String.eqb_eq in E2, Hm. rewrite E2 in Hm. discriminate.
Qed.

End Routes.
