(* ===== verification/DashText.v ===== *)
(** * DashText: the text helpers of the dashboard, [src/public/main.js]

    [escapeHtml] (lines 55-62) makes a value safe to paste into HTML by
    five successive global replacements; [escapeRegExp] (lines 64-66)
    backslash-escapes the regular-expression syntax characters, and
    [highlightTerm] (lines 68-73) wraps every case-insensitive occurrence
    of the search term in [<mark>] tags, searching the escaped text with
    the pattern [(escapeRegExp(term))] and the flags [ig].
    [formatUpdated] (lines 80-94) renders the age of a snapshot.

    Strings are lists of UTF-16 code units ([Z]); the names shown come
    from [String.fromCharCode] on bytes, so their units are 0..255.  The
    regular expression built by [highlightTerm] is read by
    [regex_literal], which accepts the patterns [escapeRegExp] produces
    (and nothing with unescaped syntax characters); case-insensitive
    matching compares units through the [Canonicalize] of the
    specification for non-Unicode patterns.  [canonicalize] is exact on
    units 0..255 and on the comparison of any unit with one of them,
    which is every comparison the page makes: the term is matched
    against escaped names, whose units are 0..255. *)

From Stdlib Require Import String ZArith List Lia Bool DecimalString.
From S2P Require Import Prelude.
Import ListNotations.
Open Scope Z_scope.

(** ** [escapeHtml] *)

(** [s.replace(/c/g, rep)] for a one-character pattern. *)
Definition replace_all (c : Z) (rep : list Z) (s : list Z) : list Z :=
  flat_map (fun x => if x =? c then rep else [x]) s.

(** [escapeHtml(value)]: [None] is [null] or [undefined]. *)
Definition escapeHtml (value : option (list Z)) : list Z :=
  let s := match value with Some s => s | None => [] end in
  replace_all 39 (units "&#039;")
    (replace_all 34 (units "&quot;")
      (replace_all 62 (units "&gt;")
        (replace_all 60 (units "&lt;")
          (replace_all 38 (units "&amp;") s)))).

(** ** [escapeRegExp] and the pattern it builds *)

(** The class [[.*+?^${}()|[\]\\]]. *)
Definition regex_special (c : Z) : bool :=
  existsb (Z.eqb c) [46; 42; 43; 63; 94; 36; 123; 125; 40; 41; 124; 91; 93; 92].

(** [value.replace(/[.*+?^${}()|[\]\\]/g, "\\$&")]. *)
Definition escapeRegExp (value : list Z) : list Z :=
  flat_map (fun c => if regex_special c then [92; c] else [c]) value.

(** The text a pattern made of literal characters and escaped syntax
    characters matches; [None] for any other pattern. *)
Fixpoint regex_literal (p : list Z) : option (list Z) :=
  match p with
  | [] => Some []
  | c :: t =>
      if c =? 92 then
        match t with
        | d :: t' => if regex_special d then option_map (cons d) (regex_literal t') else None
        | [] => None
        end
      else if regex_special c then None
      else option_map (cons c) (regex_literal t)
  end.

(** [Canonicalize(ch)] of a non-Unicode case-insensitive pattern: the
    upper case of [ch] when it is one unit and does not map a non-ASCII
    unit to ASCII.  Among the units above 255, only the Greek small mu
    (956) has the canonical form of a unit 0..255: the capital mu (924),
    which is also that of the micro sign (181). *)
Definition canonicalize (c : Z) : Z :=
  if (97 <=? c) && (c <=? 122) then c - 32
  else if ((224 <=? c) && (c <=? 254)) && negb (c =? 247) then c - 32
  else if (c =? 181) || (c =? 956) then 924
  else if c =? 255 then 376
  else c.

(** The text [s] begins with [p] up to case. *)
Fixpoint ci_prefix (p s : list Z) : bool :=
  match p, s with
  | [], _ => true
  | a :: p', b :: s' => (canonicalize a =? canonicalize b) && ci_prefix p' s'
  | _ :: _, [] => false
  end.

Definition mark_open : list Z := units "<mark>".
Definition mark_close : list Z := units "</mark>".

(** [s.replace(/(p)/ig, "<mark>$1</mark>")] for a non-empty literal [p]:
    from left to right, each occurrence up to case is wrapped and the
    search resumes after it.  [fuel] bounds the units scanned. *)
Fixpoint mark_all (fuel : nat) (p s : list Z) : list Z :=
  match fuel with
  | O => s
  | S fuel' =>
      match s with
      | [] => []
      | c :: t =>
          if ci_prefix p s then
            mark_open ++ firstn (length p) s ++ mark_close ++ mark_all fuel' p (skipn (length p) s)
          else c :: mark_all fuel' p t
      end
  end.

(** [highlightTerm(text)] with [state.searchTerm = term]. *)
Definition highlightTerm (term : list Z) (text : option (list Z)) : list Z :=
  let safe := escapeHtml text in
  match term with
  | [] => safe
  | _ =>
      match regex_literal (escapeRegExp term) with
      | Some ((_ :: _) as p) => mark_all (length safe) p safe
      | _ => safe
      end
  end.

(** ** [formatUpdated] *)

(** [timestamp] is [new Date(timestamp).getTime()] ([None]: a missing
    timestamp or NaN), [now] is [Date.now()]. *)
Definition formatUpdated (now : Z) (updated : option Z) : list Z :=
  match updated with
  | None => units "Unknown"
  | Some u =>
      let diffMinutes := (now - u) / 60000 in
      if diffMinutes <? 1 then units "just now"
      else if diffMinutes =? 1 then units "1 minute ago"
      else if diffMinutes <? 60 then units (js_dec diffMinutes) ++ units " minutes ago"
      else
        let diffHours := diffMinutes / 60 in
        if diffHours =? 1 then units "1 hour ago"
        else if diffHours <? 24 then units (js_dec diffHours) ++ units " hours ago"
        else
          let diffDays := diffHours / 24 in
          units (js_dec diffDays) ++ units " day" ++ (if diffDays =? 1 then [] else units "s") ++ units " ago"
  end.

(** ** Reference definitions *)

(** One pass over the text: each unit and its escape. *)
Definition escape_unit (c : Z) : list Z :=
  if c =? 38 then units "&amp;" else if c =? 60 then units "&lt;" else if c =? 62 then units "&gt;"
  else if c =? 34 then units "&quot;" else if c =? 39 then units "&#039;" else [c].

Definition list_Z_eqb (a b : list Z) : bool := if list_eq_dec Z.eq_dec a b then true else false.

(** The unit an entity [&name;] stands for. *)
Definition entity (name : list Z) : list Z :=
  if list_Z_eqb name (units "amp") then [38] else if list_Z_eqb name (units "lt") then [60]
  else if list_Z_eqb name (units "gt") then [62] else if list_Z_eqb name (units "quot") then [34]
  else if list_Z_eqb name (units "#039") then [39] else 38 :: name ++ [59].

(** How a browser reads the five entities back: [pending] is the name of
    an entity being read, reversed. *)
Fixpoint decode_go (s : list Z) (pending : option (list Z)) : list Z :=
  match s with
  | [] => match pending with None => [] | Some p => 38 :: rev p end
  | c :: t =>
      match pending with
      | None => if c =? 38 then decode_go t (Some []) else c :: decode_go t None
      | Some p => if c =? 59 then entity (rev p) ++ decode_go t None else decode_go t (Some (c :: p))
      end
  end.

Definition unescapeHtml (s : list Z) : list Z := decode_go s None.

(** The text with its marked occurrences: [(true, seg)] is shown as
    [<mark>seg</mark>]. *)
Definition render (bs : bool * list Z) : list Z := if fst bs then mark_open ++ snd bs ++ mark_close else snd bs.

(** The segments of a search for [p] from left to right: a marked
    segment is an occurrence of [p] up to case, a plain segment is one
    unit at which no occurrence starts. *)
Fixpoint leftmost (p : list Z) (segs : list (bool * list Z)) : Prop :=
  match segs with
  | [] => True
  | (true, m) :: t => ci_prefix p m = true /\ length m = length p /\ leftmost p t
  | (false, u) :: t => (exists c, u = [c] /\ ci_prefix p (c :: concat (map snd t)) = false) /\ leftmost p t
  end.

(** ** Lemmas *)

Lemma replace_all_app c rep a b : replace_all c rep (a ++ b) = replace_all c rep a ++ replace_all c rep b.
Proof. apply flat_map_app. Qed.

Lemma escapeHtml_cons c s : escapeHtml (Some (c :: s)) = escapeHtml (Some [c]) ++ escapeHtml (Some s).
Proof. unfold escapeHtml. change (c :: s) with ([c] ++ s). rewrite !replace_all_app. reflexivity. Qed.

Lemma replace_all_other c rep x : x <> c -> replace_all c rep [x] = [x].
Proof. intros H. unfold replace_all. simpl. rewrite (proj2 (Z.eqb_neq x c) H). reflexivity. Qed.

(** The five replacements in a row escape each unit as [escape_unit]
    does: the entities they write hold no unit a later replacement
    changes. *)
Lemma escapeHtml_unit c : escapeHtml (Some [c]) = escape_unit c.
Proof.
  unfold escape_unit. destruct (Z.eqb_spec c 38) as [->|H1]; [reflexivity|].
  destruct (Z.eqb_spec c 60) as [->|H2]; [reflexivity|].
  destruct (Z.eqb_spec c 62) as [->|H3]; [reflexivity|].
  destruct (Z.eqb_spec c 34) as [->|H4]; [reflexivity|].
  destruct (Z.eqb_spec c 39) as [->|H5]; [reflexivity|].
  unfold escapeHtml. rewrite !replace_all_other by assumption. reflexivity.
Qed.

Lemma escapeHtml_flat s : escapeHtml (Some s) = flat_map escape_unit s.
Proof.
  induction s as [|c s IH]; [reflexivity|]. rewrite escapeHtml_cons, escapeHtml_unit, IH. reflexivity.
Qed.

Lemma decode_escape_unit c t : decode_go (escape_unit c ++ t) None = c :: decode_go t None.
Proof.
  unfold escape_unit. destruct (Z.eqb_spec c 38) as [->|H1]; [reflexivity|].
  destruct (Z.eqb_spec c 60) as [->|H2]; [reflexivity|].
  destruct (Z.eqb_spec c 62) as [->|H3]; [reflexivity|].
  destruct (Z.eqb_spec c 34) as [->|H4]; [reflexivity|].
  destruct (Z.eqb_spec c 39) as [->|H5]; [reflexivity|].
  simpl. rewrite (proj2 (Z.eqb_neq c 38) H1). reflexivity.
Qed.

Lemma escape_unit_safe c x : In x (escape_unit c) -> x <> 60 /\ x <> 62 /\ x <> 34 /\ x <> 39.
Proof.
  unfold escape_unit. destruct (Z.eqb_spec c 38); [simpl; intuition lia|].
  destruct (Z.eqb_spec c 60); [simpl; intuition lia|]. destruct (Z.eqb_spec c 62); [simpl; intuition lia|].
  destruct (Z.eqb_spec c 34); [simpl; intuition lia|]. destruct (Z.eqb_spec c 39); [simpl; intuition lia|].
  intros [<-|[]]. auto.
Qed.

Lemma escapeRegExp_literal t : regex_literal (escapeRegExp t) = Some t.
Proof.
  induction t as [|c t IH]; [reflexivity|]. unfold escapeRegExp in *. simpl.
  destruct (regex_special c) eqn:E; simpl.
  - rewrite E, IH. reflexivity.
  - assert (c <> 92) by (intros ->; discriminate E). rewrite (proj2 (Z.eqb_neq c 92)) by assumption.
    rewrite E, IH. reflexivity.
Qed.

Lemma ci_prefix_firstn p s :
  ci_prefix p s = true -> ci_prefix p (firstn (length p) s) = true /\ length (firstn (length p) s) = length p.
Proof.
  revert s. induction p as [|a p IH]; intros s H; [split; reflexivity|].
  destruct s as [|b s]; [discriminate|]. simpl in H |- *. apply andb_true_iff in H as [H1 H2].
  destruct (IH s H2) as [H3 H4]. rewrite H1, H3, H4. split; reflexivity.
Qed.

Lemma ci_prefix_length p s : ci_prefix p s = true -> (length p <= length s)%nat.
Proof.
  revert s. induction p as [|a p IH]; intros s H; [simpl; lia|].
  destruct s as [|b s]; [discriminate|]. simpl in H |- *. apply andb_true_iff in H as [_ H]. specialize (IH s H). lia.
Qed.

(** [mark_all] with enough fuel cuts the text into plain units and
    occurrences of the pattern, from left to right, and wraps the
    occurrences. *)
Lemma mark_all_segments p fuel : p <> [] -> forall s, (length s <= fuel)%nat ->
  exists segs, s = concat (map snd segs) /\ mark_all fuel p s = concat (map render segs) /\ leftmost p segs.
Proof.
  intros Hp. induction fuel as [|fuel IH]; intros s Hs.
  - destruct s; [|simpl in Hs; lia]. exists []. repeat split.
  - destruct s as [|c t]; [exists []; repeat split|]. cbn [mark_all].
    destruct (ci_prefix p (c :: t)) eqn:E.
    + destruct (ci_prefix_firstn _ _ E) as [E1 E2].
      destruct (IH (skipn (length p) (c :: t))) as (segs & H1 & H2 & H3).
      { rewrite length_skipn. destruct p; [congruence|]. simpl in Hs |- *. lia. }
      exists ((true, firstn (length p) (c :: t)) :: segs). cbn [map concat snd fst render leftmost].
      rewrite <- H1, H2, firstn_skipn. split; [reflexivity|]. split; [unfold render; simpl; rewrite <- !app_assoc; reflexivity|].
      auto.
    + destruct (IH t) as (segs & H1 & H2 & H3); [simpl in Hs; lia|].
      exists ((false, [c]) :: segs). cbn [map concat snd render fst leftmost]. rewrite <- H1, H2.
      split; [reflexivity|]. split; [reflexivity|]. split; [exists c; auto | exact H3].
Qed.

(** ** Text without markup

    A value is free of markup when it holds none of [<], [>] and the two
    quote characters: pasted between tags or inside a quoted attribute,
    it can start no tag and end no attribute. *)

Definition markup_free (v : list Z) : bool := forallb (fun c => negb (existsb (Z.eqb c) [60; 62; 34; 39])) v.

Lemma markup_free_app a b : markup_free (a ++ b) = markup_free a && markup_free b.
Proof. apply forallb_app. Qed.

Lemma markup_free_In v : markup_free v = true <-> forall x, In x v -> x <> 60 /\ x <> 62 /\ x <> 34 /\ x <> 39.
Proof.
  unfold markup_free. rewrite forallb_forall. split; intros H x Hx; specialize (H x Hx).
  - apply negb_true_iff in H. simpl in H. rewrite !orb_false_iff, !Z.eqb_neq in H. intuition.
  - apply negb_true_iff. simpl. rewrite !orb_false_iff, !Z.eqb_neq. intuition.
Qed.

Lemma escapeHtml_free v : markup_free (escapeHtml v) = true.
Proof.
  destruct v as [s|]; [|reflexivity]. apply markup_free_In. intros x Hx. rewrite escapeHtml_flat in Hx.
  apply in_flat_map in Hx as (c & _ & Hx). exact (escape_unit_safe c x Hx).
Qed.

Lemma markup_free_concat l : markup_free (concat l) = true -> Forall (fun v => markup_free v = true) l.
Proof.
  induction l as [|v l IH]; intros H; [constructor|]. simpl in H. rewrite markup_free_app in H.
  apply andb_true_iff in H as [H1 H2]. constructor; [exact H1 | exact (IH H2)].
Qed.

(** The decimal digits of a number, with its sign. *)
Lemma uint_free d : markup_free (units (NilEmpty.string_of_uint d)) = true.
Proof. induction d; simpl; auto. Qed.

Lemma js_dec_free z : markup_free (units (js_dec z)) = true.
Proof.
  unfold js_dec, NilZero.string_of_int.
  assert (Hu : forall d, markup_free (units (NilZero.string_of_uint d)) = true)
    by (intros d; destruct d; try reflexivity; apply uint_free).
  destruct (Z.to_int z) as [d|d]; [apply Hu|].
  change (markup_free (units (NilZero.string_of_uint d)) = true). apply Hu.
Qed.

(** [highlightTerm] adds the [<mark>] tags and nothing else: its result
    is escaped text cut into segments, some of them marked. *)
Lemma highlight_free term text :
  exists segs, highlightTerm term text = concat (map render segs) /\ Forall (fun bs => markup_free (snd bs) = true) segs.
Proof.
  unfold highlightTerm. rewrite escapeRegExp_literal.
  destruct term as [|a term]; [exists [(false, escapeHtml text)]; split; [simpl; rewrite app_nil_r; reflexivity|
                                   constructor; [apply escapeHtml_free | constructor]]|].
  destruct (mark_all_segments (a :: term) (length (escapeHtml text)) ltac:(discriminate) (escapeHtml text) (le_n _))
    as (segs & H1 & H2 & _).
  exists segs. split; [exact H2|]. pose proof (escapeHtml_free text) as Hf. rewrite H1 in Hf.
  apply markup_free_concat in Hf. apply Forall_map in Hf. exact Hf.
Qed.

(** ** Theorems *)

(** C22: [escapeHtml] is safe and loses nothing.  Its result holds none of
    [<], [>] and the two quote characters, and reading its entities
    back gives the text
    itself: the five replacements in a row escape each unit once, the
    ampersand first. *)
Theorem escapeHtml_roundtrip (s : list Z) :
  unescapeHtml (escapeHtml (Some s)) = s /\
  forall x, In x (escapeHtml (Some s)) -> x <> 60 /\ x <> 62 /\ x <> 34 /\ x <> 39.
Proof.
  rewrite escapeHtml_flat. split.
  - unfold unescapeHtml. induction s as [|c s IH]; [reflexivity|]. simpl. rewrite decode_escape_unit, IH. reflexivity.
  - intros x Hx. apply in_flat_map in Hx as (c & _ & Hx). exact (escape_unit_safe c x Hx).
Qed.

(** C28: What [highlightTerm] shows.  For a non-empty search term, the
    result is the escaped text cut, from left to right, into occurrences
    of the term up to case, each wrapped in [<mark>] tags, and single
    units at which no occurrence starts: the pattern [escapeRegExp]
    builds matches the term literally, every occurrence the scan meets is
    marked, and the tags are the only markup added. *)
Theorem highlight_marks (term : list Z) (text : option (list Z)) :
  term <> [] ->
  exists segs, escapeHtml text = concat (map snd segs) /\
    highlightTerm term text = concat (map render segs) /\ leftmost term segs.
Proof.
  intros Ht. unfold highlightTerm. rewrite escapeRegExp_literal.
  destruct term as [|a term]; [congruence|].
  apply (mark_all_segments (a :: term) _ Ht). lia.
Qed.

Lemma highlight_marks_witness :
  exists segs, escapeHtml (Some (units "&")) = concat (map snd segs) /\
    highlightTerm (units "amp") (Some (units "&")) = concat (map render segs) /\ leftmost (units "amp") segs.
Proof. apply highlight_marks. discriminate. Defined.

(** The term is searched in the escaped text: a term that spells part of
    an entity is marked inside it, and the browser shows the entity's
    text instead of the character. *)
Example highlight_splits_entity :
  highlightTerm (units "amp") (Some (units "&")) = units "&<mark>amp</mark>;".
Proof. reflexivity. Qed.
