(* ===== verification/DashView.v ===== *)
(** * DashView: the server list of the dashboard, [src/public/main.js]

    [applyFilters] (lines 252-280) keeps the servers of the selected
    region and, with a search term, those with a leaderboard name
    containing it, then orders them with [Array.prototype.sort] and one
    of five comparators.  [buildCard] (lines 96-207) writes a server's
    card: the text of its template literals with the values pasted into
    them, kept apart as pieces, so that what the values may inject into
    the markup can be stated ([card_markup_safe]).

    The sort is the class [ArraySort]: what the language specification
    requires of [Array.prototype.sort] for a consistent comparator (a
    permutation, ordered, and stable since ES2019), whatever algorithm
    the browser uses.  [insertion_sort] is an instance, and a stable
    sort by a consistent comparator is unique ([stable_sorted_unique]),
    so every browser shows the same order.  The data is what [fetchStats]
    keeps of the JSON body: absent fields and [null] (a NaN score is
    serialized as [null]) are [None].  [localeCompare] with
    [sensitivity: "base"] depends on the browser's collation: it is a
    parameter, required to be a consistent comparator. *)

From Stdlib Require Import String ZArith List Lia Bool Permutation Sorting.Sorted.
From S2P Require Import Prelude DashText.
Import ListNotations.
Open Scope Z_scope.

(** ** Sorting *)

Section Sorting.

Context {A : Type}.

(** A comparator the specification calls consistent: its sign is
    antisymmetric and [<= 0] is transitive. *)
Definition consistent (cmp : A -> A -> Z) : Prop :=
  (forall x y, cmp x y <= 0 <-> 0 <= cmp y x) /\
  (forall x y z, cmp x y <= 0 -> cmp y z <= 0 -> cmp x z <= 0).

(** The elements the comparator does not distinguish from [x]. *)
Definition same_class (cmp : A -> A -> Z) (x y : A) : bool := cmp x y =? 0.

(** [out] is [l] sorted by [cmp], equal elements in their order in [l]. *)
Definition stable_sorted (cmp : A -> A -> Z) (l out : list A) : Prop :=
  Permutation out l /\ Sorted (fun a b => cmp a b <= 0) out /\
  forall x, filter (same_class cmp x) out = filter (same_class cmp x) l.

(** Insertion before the first element that is not smaller. *)
Fixpoint insert_by (cmp : A -> A -> Z) (x : A) (l : list A) : list A :=
  match l with
  | [] => [x]
  | y :: t => if cmp x y <=? 0 then x :: y :: t else y :: insert_by cmp x t
  end.

Fixpoint isort (cmp : A -> A -> Z) (l : list A) : list A :=
  match l with [] => [] | x :: t => insert_by cmp x (isort cmp t) end.

End Sorting.

Section SortLemmas.

Context {A : Type} (cmp : A -> A -> Z).
Hypothesis Hc : consistent cmp.

Let R := fun a b => cmp a b <= 0.

Lemma cmp_refl x : cmp x x = 0.
Proof. destruct Hc as [Ha _]. specialize (Ha x x). lia. Qed.

Lemma cmp_total x y : cmp x y <= 0 \/ cmp y x <= 0.
Proof. destruct Hc as [Ha _]. specialize (Ha x y). lia. Qed.

Lemma cmp_flip x y : 0 < cmp x y -> cmp y x <= 0.
Proof. destruct Hc as [Ha _]. specialize (Ha x y). lia. Qed.

Lemma class_refl x : same_class cmp x x = true.
Proof. unfold same_class. rewrite cmp_refl. reflexivity. Qed.

Lemma class_iff x y : same_class cmp x y = true <-> cmp x y <= 0 /\ cmp y x <= 0.
Proof.
  unfold same_class. rewrite Z.eqb_eq. destruct Hc as [Ha _].
  pose proof (Ha x y). pose proof (Ha y x). lia.
Qed.

(** Elements of one class are compared alike with every element. *)
Lemma class_ext x a y : same_class cmp x a = true -> same_class cmp x y = same_class cmp a y.
Proof.
  intros Hxa. destruct Hc as [_ Ht]. apply class_iff in Hxa as [H1 H2].
  destruct (same_class cmp a y) eqn:E.
  - apply class_iff in E as [E1 E2]. apply class_iff. split; eapply Ht; eauto.
  - apply not_true_iff_false. intros Hxy. apply class_iff in Hxy as [E1 E2].
    assert (same_class cmp a y = true) by (apply class_iff; split; eapply Ht; eauto). congruence.
Qed.

Lemma R_trans : Relations_1.Transitive R.
Proof. unfold R. intros x y z. apply (proj2 Hc). Qed.

Lemma insert_perm x l : Permutation (insert_by cmp x l) (x :: l).
Proof.
  induction l as [|y t IH]; simpl; [reflexivity|].
  destruct (cmp x y <=? 0); [reflexivity|]. rewrite IH. apply perm_swap.
Qed.

Lemma insert_sorted x l : Sorted R l -> Sorted R (insert_by cmp x l).
Proof.
  induction 1 as [|y t Hs IH Hd]; simpl; [repeat constructor|].
  destruct (Z.leb_spec (cmp x y) 0) as [Hxy|Hxy].
  - constructor; [constructor; assumption | constructor; exact Hxy].
  - constructor; [exact IH|]. apply cmp_flip in Hxy.
    destruct t as [|z t]; simpl; [constructor; exact Hxy|].
    inversion Hd; subst. destruct (cmp x z <=? 0); constructor; [exact Hxy | assumption].
Qed.

(** An element goes after the elements strictly smaller than it, so
    it stays first among its class. *)
Lemma insert_filter x a l :
  filter (same_class cmp x) (insert_by cmp a l) =
  if same_class cmp x a then a :: filter (same_class cmp x) l else filter (same_class cmp x) l.
Proof.
  induction l as [|y t IH]; simpl; [destruct (same_class cmp x a); reflexivity|].
  destruct (Z.leb_spec (cmp a y) 0) as [Hay|Hay]; simpl; [reflexivity|]. rewrite IH.
  destruct (same_class cmp x a) eqn:Exa; [|reflexivity].
  rewrite (class_ext x a y Exa). replace (same_class cmp a y) with false; [reflexivity|].
  symmetry. apply not_true_iff_false. intros E. apply class_iff in E. lia.
Qed.

Lemma isort_spec l : stable_sorted cmp l (isort cmp l).
Proof.
  induction l as [|a t (Hp & Hs & Hf)]; [split; [constructor | split; [constructor | reflexivity]]|].
  cbn [isort]. split; [rewrite insert_perm, Hp; reflexivity|]. split; [apply insert_sorted, Hs|].
  intros x. rewrite insert_filter, Hf. reflexivity.
Qed.

Lemma head_le a t y : Sorted R (a :: t) -> In y (a :: t) -> cmp a y <= 0.
Proof.
  intros Hs Hy. apply (Sorted_StronglySorted R_trans) in Hs. destruct Hy as [<-|Hy]; [rewrite cmp_refl; lia|].
  inversion Hs as [|? ? _ Hf]; subst. rewrite Forall_forall in Hf. exact (Hf y Hy).
Qed.

Lemma in_filter_class x l : In x l <-> In x (filter (same_class cmp x) l).
Proof. rewrite filter_In, class_refl. tauto. Qed.

(** Two sorted lists with the same elements in each class, in the same
    order, are equal. *)
Lemma sorted_classes_eq l1 : forall l2,
  Sorted R l1 -> Sorted R l2 -> (forall x, filter (same_class cmp x) l1 = filter (same_class cmp x) l2) -> l1 = l2.
Proof.
  induction l1 as [|a t1 IH]; intros [|b t2] H1 H2 Hf; try reflexivity.
  - specialize (Hf b). simpl in Hf. rewrite class_refl in Hf. discriminate.
  - specialize (Hf a). simpl in Hf. rewrite class_refl in Hf. discriminate.
  - assert (Hb : In b (a :: t1)) by (apply (in_filter_class b); rewrite Hf, <- in_filter_class; left; reflexivity).
    assert (Ha : In a (b :: t2)) by (apply (in_filter_class a); rewrite <- Hf, <- in_filter_class; left; reflexivity).
    pose proof (head_le a t1 b H1 Hb) as Hab. pose proof (head_le b t2 a H2 Ha) as Hba.
    assert (Eab : same_class cmp a b = true) by (apply class_iff; auto).
    pose proof (Hf a) as Hfa. simpl in Hfa. rewrite class_refl, Eab in Hfa. injection Hfa as <- Hfa.
    f_equal. apply IH; [apply Sorted_inv in H1; apply H1 | apply Sorted_inv in H2; apply H2|].
    intros x. destruct (same_class cmp x a) eqn:Exa.
    + rewrite !(filter_ext (same_class cmp x) (same_class cmp a)) by (intros y; apply class_ext, Exa). exact Hfa.
    + specialize (Hf x). simpl in Hf. rewrite Exa in Hf. exact Hf.
Qed.

Lemma stable_sorted_unique l o1 o2 : stable_sorted cmp l o1 -> stable_sorted cmp l o2 -> o1 = o2.
Proof.
  intros (_ & S1 & F1) (_ & S2 & F2). apply sorted_classes_eq; [exact S1 | exact S2|].
  intros x. rewrite F1, F2. reflexivity.
Qed.

End SortLemmas.

(** [array.sort(cmp)] as the language specifies it. *)
Class ArraySort := {
  js_sort : forall {A : Type}, (A -> A -> Z) -> list A -> list A;
  js_sort_spec : forall {A : Type} (cmp : A -> A -> Z) (l : list A), consistent cmp -> stable_sorted cmp l (js_sort cmp l)
}.

(** Insertion sort implements [Array.prototype.sort]. *)
#[export] Instance insertion_sort : ArraySort :=
  { js_sort := @isort; js_sort_spec := fun A cmp l Hc => isort_spec cmp Hc l }.

(** ** The servers of the [/stats] body *)

(** A leaderboard entry as [fetchStats] keeps it. *)
Record DEntry := mkDEntry { de_rank : option Z; de_name : option (list Z); de_score : option Z }.

(** A server object of [data.servers], its [leaderboard] replaced by
    [[]] when it is not an array (lines 319-322). *)
Record DServer := mkDServer {
  d_ip : option (list Z); d_port : option Z; d_cluster : option Z;
  d_countryCode : option (list Z); d_countryName : option (list Z); d_continentName : option (list Z);
  d_timestamp : option Z; d_totalPlayers : option Z; d_totalScore : option Z;
  d_minimap : option (list Z); d_leaderboard : list DEntry }.

(** [x ?? d]. *)
Definition or_else {T} (x : option T) (d : T) : T := match x with Some v => v | None => d end.

(** [s.toLowerCase()] on the units 0..255. *)
Definition lower_unit (c : Z) : Z :=
  if ((65 <=? c) && (c <=? 90)) || (((192 <=? c) && (c <=? 222)) && negb (c =? 215)) then c + 32 else c.

Definition toLowerCase (s : list Z) : list Z := map lower_unit s.

Fixpoint prefix_of (p s : list Z) : bool :=
  match p, s with
  | [], _ => true
  | a :: p', b :: s' => (a =? b) && prefix_of p' s'
  | _ :: _, [] => false
  end.

(** [s.includes(p)]. *)
Fixpoint includes (s p : list Z) : bool :=
  prefix_of p s || match s with [] => false | _ :: t => includes t p end.

(** Line 256: the region test. *)
Definition in_region (region : list Z) (s : DServer) : bool :=
  list_Z_eqb (or_else (d_continentName s) (units "Unknown region")) region.

(** Line 261 (and 119): an entry whose name contains the term, ignoring case. *)
Definition name_matches (term : list Z) (e : DEntry) : bool :=
  includes (toLowerCase (or_else (de_name e) [])) (toLowerCase term).

Definition search_hit (term : list Z) (s : DServer) : bool := existsb (name_matches term) (d_leaderboard s).

(** [list?.[i]?.score ?? 0]. *)
Definition score_at (i : nat) (s : DServer) : Z :=
  match nth_error (d_leaderboard s) i with Some e => or_else (de_score e) 0 | None => 0 end.

(** The comparators of lines 264-274; [localeCompare] is the browser's. *)
Section Sorters.

Variable localeCompare : list Z -> list Z -> Z.

Definition by_key (key : DServer -> Z) (a b : DServer) : Z := key b - key a.

Definition cmp_region (a b : DServer) : Z :=
  let regionCompare := localeCompare (or_else (d_continentName a) (units "Unknown"))
                                     (or_else (d_continentName b) (units "Unknown")) in
  if negb (regionCompare =? 0) then regionCompare
  else localeCompare (or_else (d_countryName a) []) (or_else (d_countryName b) []).

(** [sorters[state.sort] ?? sorters.players]. *)
Definition sorter (sort : list Z) : DServer -> DServer -> Z :=
  if list_Z_eqb sort (units "totalScore") then by_key (fun s => or_else (d_totalScore s) 0)
  else if list_Z_eqb sort (units "top1") then by_key (score_at 0)
  else if list_Z_eqb sort (units "top10") then by_key (score_at 9)
  else if list_Z_eqb sort (units "region") then cmp_region
  else by_key (fun s => or_else (d_totalPlayers s) 0).

(** Lines 253-262: the servers kept by the region and the search. *)
Definition select (allServers : list DServer) (region searchTerm : list Z) : list DServer :=
  let servers := if list_Z_eqb region (units "ALL") then allServers else filter (in_region region) allServers in
  match searchTerm with [] => servers | _ => filter (search_hit searchTerm) servers end.

(** The list [applyFilters] computes (lines 253-276), before it is stored
    in [state.filtered] and rendered. *)
Definition applyFilters `{ArraySort} (allServers : list DServer) (region sort searchTerm : list Z) : list DServer :=
  js_sort (sorter sort) (select allServers region searchTerm).

End Sorters.

(** ** The card of a server ([buildCard], lines 96-207)

    The card is its markup: the text of the template literals and the
    values interpolated into them, as a list of pieces.  In the template
    texts below a backquote stands for each double quote of the source
    (a string of this file holds none); line breaks and indentation are
    the source's. *)

Definition tpl (s : string) : list Z := map (fun c => if c =? 96 then 34 else c) (units s).

(** Template text, an interpolated value, or the output of
    [highlightTerm], whose [<mark>] tags are markup of the page. *)
Inductive Piece := Lit (s : list Z) | Val (s : list Z) | Marked (s : list Z).

Definition piece_text (p : Piece) : list Z := match p with Lit s | Val s | Marked s => s end.

(** The string the pieces make. *)
Definition html (ps : list Piece) : list Z := flat_map piece_text ps.

(** [numberFormatter.format(value)] is the browser's [Intl] formatting:
    a parameter. *)
Section Card.

Variable format : Z -> list Z.
(** [toLocaleTimeString([], {hour, minute})], also the browser's. *)
Variable localeTime : Z -> list Z.
Variable searchTerm : list Z.

(** [formatNumber(value)] (lines 75-78): [null], [undefined] and NaN
    (all [None]) give [?]. *)
Definition formatNumber (value : option Z) : list Z :=
  match value with None => units "?" | Some v => format v end.

(** Lines 97-100. *)
Definition ipValue (s : DServer) : list Z := or_else (d_ip s) (units "?").

Definition needsBrackets (ip : list Z) : bool := includes ip (units ":") && negb (prefix_of (units "[") ip).

Definition ipDisplay (s : DServer) : list Z :=
  let sanitizedIp := if needsBrackets (ipValue s) then units "[" ++ ipValue s ++ units "]" else ipValue s in
  match d_port s with
  | Some p => if p =? 0 then sanitizedIp else sanitizedIp ++ units ":" ++ units (js_dec p)
  | None => sanitizedIp
  end.

(** Lines 101-102. *)
Definition badgeLabel (s : DServer) : list Z :=
  match d_cluster s with Some c => units "CL-" ++ units (js_dec c) | None => units "LIVE" end.

Definition locationLabel (s : DServer) : list Z :=
  or_else (d_continentName s) (units "Unknown region") ++ units " - " ++ or_else (d_countryName s) (units "Unknown").

(** Lines 112-116: the flag when [server.countryCode] is a non-empty
    string. *)
Definition flag (s : DServer) : list Piece :=
  match d_countryCode s with
  | Some ((_ :: _) as cc) =>
      [Lit (tpl "<img src=`https://flagcdn.com/48x36/"); Val (toLowerCase cc); Lit (tpl ".png` alt=`");
       Val (escapeHtml (Some cc)); Lit (tpl " flag` />")]
  | _ => [Lit (tpl "<span class=`flag-fallback`>&#127760;</span>")]
  end.

(** Lines 118-124: the number of matching names, and its badge. *)
Definition searchMatches (s : DServer) : nat :=
  match searchTerm with [] => 0%nat | _ => length (filter (name_matches searchTerm) (d_leaderboard s)) end.

Definition matchBadge (s : DServer) : list Piece :=
  match searchTerm with
  | [] => []
  | _ => [Lit (tpl "<span class=`search-match-count`>"); Val (units (js_dec (Z.of_nat (searchMatches s))));
          Lit (tpl " match"); Lit (if Nat.eqb (searchMatches s) 1 then [] else units "es"); Lit (tpl "</span>")]
  end.

(** One row of lines 130-140: the rank ([entry.rank], a JSON number,
    or the position), the row class, the name with its highlighted
    matches, and the score. *)
Definition rankClass (index : nat) : list Z :=
  match index with 0%nat => units " first" | 1%nat => units " second" | 2%nat => units " third" | _ => [] end.

Definition row_html (index : nat) (entry : DEntry) : list Piece :=
  [Lit (tpl "
              <div class=`lb-row"); Lit (rankClass index); Lit (tpl "`>
                <span class=`lb-rank`>");
   Val (units (js_dec (or_else (de_rank entry) (Z.of_nat index + 1))));
   Lit (tpl "</span>
                <span class=`lb-name`>");
   Marked (highlightTerm searchTerm (Some (or_else (de_name entry) (units "(unnamed)"))));
   Lit (tpl "</span>
                <span class=`lb-score`>"); Val (formatNumber (de_score entry)); Lit (tpl "</span>
              </div>
            ")].

Fixpoint rows_from (index : nat) (entries : list DEntry) : list Piece :=
  match entries with [] => [] | e :: t => row_html index e ++ rows_from (S index) t end.

(** Lines 126-142: [server.leaderboard.slice(0, 10).map(...).join()],
    or the empty message. *)
Definition leaderboardRows (s : DServer) : list Piece :=
  match d_leaderboard s with
  | [] => [Lit (tpl "<div class=`lb-empty`>No leaderboard data</div>")]
  | l => rows_from 0 (firstn 10 l)
  end.

(** [Boolean(server.minimap)]: a non-empty string. *)
Definition hasMinimap (s : DServer) : option (list Z) :=
  match d_minimap s with Some ((_ :: _) as m) => Some m | _ => None end.

(** Lines 144-146. *)
Definition minimapContent (s : DServer) : list Piece :=
  match hasMinimap s with
  | Some m => [Lit (tpl "<img src=`"); Val m; Lit (tpl "` alt=`Minimap for "); Val (escapeHtml (Some (ipValue s)));
               Lit (tpl "` />")]
  | None => [Lit (tpl "<p>No minimap data</p>")]
  end.

(** Lines 148-159. *)
Definition minimapButton (s : DServer) : list Piece :=
  [Lit (tpl "
    <button
      class=`minimap-zoom`
      type=`button`
      "); Lit (match hasMinimap s with Some _ => [] | None => units "disabled" end);
   Lit (tpl "
      data-ip=`"); Val (escapeHtml (Some (ipDisplay s)));
   Lit (tpl "`
      data-minimap=`"); Val (match hasMinimap s with Some m => escapeHtml (Some m) | None => [] end);
   Lit (tpl "`
      aria-label=`View minimap for "); Val (escapeHtml (Some (ipDisplay s)));
   Lit (tpl "`
    >
      &#128269;
    </button>
  ")].

(** Lines 103-107: [now] is [Date.now()]. *)
Definition updatedDisplay (now : Z) (s : DServer) : list Z :=
  formatUpdated now (d_timestamp s) ++
  match d_timestamp s with Some t => units " (" ++ localeTime t ++ units ")" | None => [] end.

(** [buildCard(server)] (lines 96-207). *)
Definition buildCard (now : Z) (s : DServer) : list Piece :=
  [Lit (tpl "
    <div class=`server-card`>
      <div class=`card-header`>
        <div class=`card-ip`>"); Val (escapeHtml (Some (ipDisplay s))); Lit (tpl "</div>
        <div class=`card-badge`>"); Val (escapeHtml (Some (badgeLabel s))); Lit (tpl "</div>
      </div>

      <div class=`card-meta`>
        <div class=`flag-icon`>")] ++ flag s ++
  [Lit (tpl "</div>
        <div class=`meta-text`>
          <p class=`meta-region`>"); Val (escapeHtml (Some (locationLabel s))); Lit (tpl "</p>
          <p class=`card-updated`>Updated "); Val (escapeHtml (Some (updatedDisplay now s))); Lit (tpl "</p>
        </div>
      </div>

      <div class=`leaderboard-compact`>
        <div class=`lb-row lb-head`>
          <span>#</span>
          <span>Nickname ")] ++ matchBadge s ++
  [Lit (tpl "</span>
          <span>Length</span>
        </div>
        <div class=`lb-list`>
          ")] ++ leaderboardRows s ++
  [Lit (tpl "
        </div>
      </div>

      <div class=`minimap-panel`>
        <div class=`minimap-wrapper`>
          <div class=`minimap-container`>
            ")] ++ minimapContent s ++
  [Lit (tpl "
          </div>
          ")] ++ minimapButton s ++
  [Lit (tpl "
        </div>
        <div class=`minimap-stats`>
          <div>
            <span class=`stat-label`>Snakes</span>
            <span class=`stat-value`>"); Val (formatNumber (Some (or_else (d_totalPlayers s) 0))); Lit (tpl "</span>
          </div>
          <div>
            <span class=`stat-label`>Total</span>
            <span class=`stat-value`>"); Val (formatNumber (Some (or_else (d_totalScore s) 0))); Lit (tpl "</span>
          </div>
        </div>
      </div>
    </div>
  ")].

End Card.

(** ** Lemmas *)

Lemma by_key_consistent key : consistent (by_key key).
Proof. unfold consistent, by_key. split; intros; lia. Qed.

(** Comparing by [c1], then by [c2] among the elements [c1] does not
    distinguish. *)
Lemma lex_consistent {A} (c1 c2 : A -> A -> Z) :
  consistent c1 -> consistent c2 ->
  consistent (fun a b => if negb (c1 a b =? 0) then c1 a b else c2 a b).
Proof.
  intros [A1 T1] [A2 T2]. split.
  - intros x y. pose proof (A1 x y). pose proof (A1 y x). pose proof (A2 x y).
    destruct (Z.eqb_spec (c1 x y) 0), (Z.eqb_spec (c1 y x) 0); simpl; lia.
  - intros x y z. pose proof (A1 x y). pose proof (A1 y x). pose proof (A1 y z). pose proof (A1 z y).
    pose proof (A1 x z). pose proof (A1 z x). pose proof (T1 x y z). pose proof (T1 y z x). pose proof (T1 z x y).
    pose proof (T2 x y z).
    destruct (Z.eqb_spec (c1 x y) 0), (Z.eqb_spec (c1 y z) 0), (Z.eqb_spec (c1 x z) 0); simpl; lia.
Qed.

Lemma sorter_consistent localeCompare sort :
  consistent localeCompare -> consistent (sorter localeCompare sort).
Proof.
  intros Hl. unfold sorter.
  repeat match goal with |- context [if ?b then _ else _] => destruct b end; try apply by_key_consistent.
  apply (lex_consistent (fun a b => localeCompare (or_else (d_continentName a) (units "Unknown"))
                                                  (or_else (d_continentName b) (units "Unknown")))
                        (fun a b => localeCompare (or_else (d_countryName a) []) (or_else (d_countryName b) [])));
    destruct Hl as [Ha Ht]; split; intros; eauto.
Qed.

(** ** The markup of a card *)

(** What a piece may hold: template text anything, an interpolated value
    no markup character, the output of [highlightTerm] escaped segments
    with [<mark>] tags around some of them. *)
Definition piece_ok (p : Piece) : Prop :=
  match p with
  | Lit _ => True
  | Val v => markup_free v = true
  | Marked m => exists segs, m = concat (map render segs) /\ Forall (fun bs => markup_free (snd bs) = true) segs
  end.

Lemma lower_free v : markup_free v = true -> markup_free (toLowerCase v) = true.
Proof.
  rewrite !markup_free_In. intros H x Hx. unfold toLowerCase in Hx. apply in_map_iff in Hx as (c & <- & Hc).
  specialize (H c Hc). unfold lower_unit.
  destruct ((65 <=? c) && (c <=? 90) || (192 <=? c) && (c <=? 222) && negb (c =? 215)) eqn:E; [|exact H].
  rewrite orb_true_iff, !andb_true_iff, !Z.leb_le in E. lia.
Qed.

Section CardSafe.

Variable format : Z -> list Z.
Variable localeTime : Z -> list Z.
Variable searchTerm : list Z.
Hypothesis format_free : forall z, markup_free (format z) = true.

Lemma formatNumber_free v : markup_free (formatNumber format v) = true.
Proof. destruct v; [apply format_free | reflexivity]. Qed.

Lemma row_ok index e : Forall piece_ok (row_html format searchTerm index e).
Proof.
  repeat constructor; [apply js_dec_free | apply highlight_free | apply formatNumber_free].
Qed.

Lemma rows_ok index l : Forall piece_ok (rows_from format searchTerm index l).
Proof.
  revert index. induction l as [|e l IH]; intros index; [constructor|]. apply Forall_app. split; [apply row_ok | apply IH].
Qed.

Lemma leaderboardRows_ok s : Forall piece_ok (leaderboardRows format searchTerm s).
Proof. unfold leaderboardRows. destruct (d_leaderboard s); [repeat constructor | apply rows_ok]. Qed.

Lemma matchBadge_ok s : Forall piece_ok (matchBadge searchTerm s).
Proof. unfold matchBadge. destruct searchTerm; repeat constructor. apply js_dec_free. Qed.

End CardSafe.

(** Every piece of a card is as [piece_ok] says. *)
Lemma buildCard_ok (format localeTime : Z -> list Z) (searchTerm : list Z) (now : Z) (s : DServer) :
  (forall z, markup_free (format z) = true) ->
  (forall cc, d_countryCode s = Some cc -> markup_free cc = true) ->
  (forall m, d_minimap s = Some m -> markup_free m = true) ->
  Forall piece_ok (buildCard format localeTime searchTerm now s).
Proof.
  intros Hf Hc Hm. unfold buildCard, flag, minimapContent, minimapButton, hasMinimap.
  repeat (apply Forall_app; split); repeat constructor;
    try apply escapeHtml_free; try apply (formatNumber_free format Hf);
    try apply matchBadge_ok; try apply (leaderboardRows_ok format searchTerm Hf).
  - destruct (d_countryCode s) as [[|a cc]|] eqn:E; repeat constructor;
      [apply lower_free, Hc; reflexivity | apply escapeHtml_free].
  - destruct (d_minimap s) as [[|a m]|] eqn:E; repeat constructor; [apply Hm; reflexivity | apply escapeHtml_free].
  - destruct (d_minimap s) as [[|a m]|]; [reflexivity | apply escapeHtml_free | reflexivity].
Qed.

(** ** Theorems *)

(** [list_Z_eqb] decides equality. *)
Lemma list_Z_eqb_true a b : list_Z_eqb a b = true <-> a = b.
Proof. unfold list_Z_eqb. destruct (list_eq_dec Z.eq_dec a b); split; congruence. Qed.

Lemma Sorted_weaken {A} (R R' : A -> A -> Prop) l :
  (forall a b, R a b -> R' a b) -> Sorted R l -> Sorted R' l.
Proof.
  intros HR. induction 1 as [|a t Hs IH Hd]; constructor; [exact IH|].
  destruct Hd; constructor. apply HR. assumption.
Qed.

Lemma filter_true {A} (l : list A) : filter (fun _ => true) l = l.
Proof. induction l as [|a t IH]; simpl; [reflexivity | rewrite IH; reflexivity]. Qed.

Lemma filter_filter_and {A} (f g : A -> bool) l : filter f (filter g l) = filter (fun x => g x && f x) l.
Proof.
  induction l as [|a t IH]; simpl; [reflexivity|].
  destruct (g a); simpl; [destruct (f a); simpl; rewrite IH; reflexivity | exact IH].
Qed.

(** The servers [applyFilters] keeps, as lines 253-262 state them. *)
Lemma select_spec allServers region searchTerm :
  select allServers region searchTerm =
  filter (fun s => (list_Z_eqb region (units "ALL") ||
                    list_Z_eqb (or_else (d_continentName s) (units "Unknown region")) region) &&
                   match searchTerm with
                   | [] => true
                   | _ => existsb (fun e => includes (toLowerCase (or_else (de_name e) [])) (toLowerCase searchTerm))
                                  (d_leaderboard s)
                   end) allServers.
Proof.
  unfold select, search_hit, name_matches, in_region.
  destruct (list_Z_eqb region (units "ALL")), searchTerm as [|c t]; cbn [orb];
    rewrite ?filter_filter_and; [rewrite <- filter_true at 1| | |]; apply filter_ext; intros x;
    cbn [orb]; try reflexivity. symmetry; apply andb_true_r.
Qed.

(** Sorted by a key comparator is sorted by descending key. *)
Lemma by_key_sorted key l : Sorted (fun a b => by_key key a b <= 0) l -> Sorted (fun a b => key b <= key a) l.
Proof. apply Sorted_weaken. unfold by_key. intros a b. lia. Qed.

(** C27: The server list.  For a browser whose [localeCompare] is a
    consistent comparator, [applyFilters] shows exactly the servers of
    the response whose continent (["Unknown region"] when absent) is the
    selected region, all of them for ["ALL"], and, with a search term,
    those with a leaderboard name containing it ignoring case; sorted by
    descending [totalScore], first score or tenth score, by continent
    then country with [localeCompare], or by descending [totalPlayers]
    for any other key; servers the comparator ties keep the order of the
    response; and every implementation of [Array.prototype.sort] gives
    this same list. *)
Theorem applyFilters_order `{ArraySort} (localeCompare : list Z -> list Z -> Z) (allServers : list DServer)
    (region sort searchTerm : list Z) :
  consistent localeCompare ->
  let l := applyFilters localeCompare allServers region sort searchTerm in
  let shown := filter (fun s => (list_Z_eqb region (units "ALL") ||
                                 list_Z_eqb (or_else (d_continentName s) (units "Unknown region")) region) &&
                                match searchTerm with
                                | [] => true
                                | _ => existsb (fun e => includes (toLowerCase (or_else (de_name e) []))
                                                                  (toLowerCase searchTerm)) (d_leaderboard s)
                                end) allServers in
  Permutation l shown /\
  (sort = units "totalScore" -> Sorted (fun a b => or_else (d_totalScore b) 0 <= or_else (d_totalScore a) 0) l) /\
  (sort = units "top1" -> Sorted (fun a b => score_at 0 b <= score_at 0 a) l) /\
  (sort = units "top10" -> Sorted (fun a b => score_at 9 b <= score_at 9 a) l) /\
  (sort = units "region" -> Sorted (fun a b => cmp_region localeCompare a b <= 0) l) /\
  (~ In sort [units "totalScore"; units "top1"; units "top10"; units "region"] ->
     Sorted (fun a b => or_else (d_totalPlayers b) 0 <= or_else (d_totalPlayers a) 0) l) /\
  (forall x, filter (same_class (sorter localeCompare sort) x) l =
             filter (same_class (sorter localeCompare sort) x) shown) /\
  l = isort (sorter localeCompare sort) shown.
Proof.
  intros Hl l shown. pose proof (sorter_consistent localeCompare sort Hl) as Hc.
  pose proof (js_sort_spec (sorter localeCompare sort) (select allServers region searchTerm) Hc) as Hs.
  fold (applyFilters localeCompare allServers region sort searchTerm) in Hs. fold l in Hs.
  rewrite select_spec in Hs. fold shown in Hs. destruct Hs as (Hp & Hsort & Hf).
  split; [exact Hp|]. repeat split; try (intros E; rewrite E in Hsort; apply by_key_sorted; exact Hsort).
  - intros E. rewrite E in Hsort. exact Hsort.
  - intros Hn. apply by_key_sorted. revert Hsort. unfold sorter.
    repeat match goal with |- context [if list_Z_eqb sort ?k then _ else _] =>
      let E := fresh "E" in
      destruct (list_Z_eqb sort k) eqn:E; [apply list_Z_eqb_true in E; exfalso; apply Hn; rewrite E; simpl; tauto|] end.
    exact (fun H => H).
  - exact Hf.
  - apply (stable_sorted_unique _ Hc shown); [exact (conj Hp (conj Hsort Hf)) | apply isort_spec, Hc].
Qed.

(** C23: A card injects no markup.  If the number formatter writes no
    markup character, and the two values the template pastes unescaped
    (the country code, lower-cased into the flag's [src], and the
    minimap data URL in the [src] of its image) hold none either, then
    every value [buildCard] interpolates is free of markup and the
    highlighted names are escaped text with [<mark>] tags: the card's
    tags and attributes are exactly those of its template.  The two
    unescaped values are safe only through these hypotheses, which the
    data ([geoip-lite] codes, [toDataURL] base64) satisfy. *)
Theorem card_markup_safe (format localeTime : Z -> list Z) (searchTerm : list Z) (now : Z) (s : DServer) :
  (forall z, markup_free (format z) = true) ->
  (forall cc, d_countryCode s = Some cc -> markup_free cc = true) ->
  (forall m, d_minimap s = Some m -> markup_free m = true) ->
  Forall piece_ok (buildCard format localeTime searchTerm now s).
Proof. apply buildCard_ok. Qed.

Definition example_dserver (ip : string) (continent : string) (players : Z) (name : string) : DServer :=
  mkDServer (Some (units ip)) (Some 444) (Some 1) (Some (units "DE")) (Some (units "Germany"))
            (Some (units continent)) (Some 0) (Some players) None None [mkDEntry (Some 1) (Some (units name)) (Some 10)].

Definition example_dservers : list DServer :=
  [example_dserver "1.1.1.1" "Europe" 3 "Ann"; example_dserver "2.2.2.2" "Asia" 9 "Bob";
   example_dserver "3.3.3.3" "Europe" 7 "ann"; example_dserver "4.4.4.4" "Europe" 7 "Cid"].

Lemma applyFilters_order_witness :
  let l := applyFilters (fun _ _ => 0) example_dservers (units "Europe") (units "players") [] in
  let shown := filter (fun s => (list_Z_eqb (units "Europe") (units "ALL") ||
                                 list_Z_eqb (or_else (d_continentName s) (units "Unknown region")) (units "Europe")) &&
                                match @nil Z with
                                | [] => true
                                | _ => existsb (fun e => includes (toLowerCase (or_else (de_name e) []))
                                                                  (toLowerCase [])) (d_leaderboard s)
                                end) example_dservers in
  Permutation l shown /\
  (units "players" = units "totalScore" -> Sorted (fun a b => or_else (d_totalScore b) 0 <= or_else (d_totalScore a) 0) l) /\
  (units "players" = units "top1" -> Sorted (fun a b => score_at 0 b <= score_at 0 a) l) /\
  (units "players" = units "top10" -> Sorted (fun a b => score_at 9 b <= score_at 9 a) l) /\
  (units "players" = units "region" -> Sorted (fun a b => cmp_region (fun _ _ => 0) a b <= 0) l) /\
  (~ In (units "players") [units "totalScore"; units "top1"; units "top10"; units "region"] ->
     Sorted (fun a b => or_else (d_totalPlayers b) 0 <= or_else (d_totalPlayers a) 0) l) /\
  (forall x, filter (same_class (sorter (fun _ _ => 0) (units "players")) x) l =
             filter (same_class (sorter (fun _ _ => 0) (units "players")) x) shown) /\
  l = isort (sorter (fun _ _ => 0) (units "players")) shown.
Proof. apply applyFilters_order. split; intros; lia. Defined.

Definition example_card_server : DServer :=
  mkDServer (Some (units "2a01:4f8::1")) (Some 444) (Some 7) (Some (units "DE")) (Some (units "Germany"))
            (Some (units "Europe")) (Some 0) (Some 3) (Some 20) (Some (units "data:image/png;base64,iVBORw0KGgo="))
            [mkDEntry (Some 1) (Some (units "<b>Ann</b>")) (Some 10); mkDEntry None None None].

Lemma card_markup_safe_witness :
  Forall piece_ok (buildCard (fun z => units (js_dec z)) (fun _ => []) (units "an") 60000 example_card_server).
Proof.
  apply card_markup_safe; [apply js_dec_free | intros cc E; injection E as <-; reflexivity
                          | intros m E; injection E as <-; reflexivity].
Defined.
