(* ===== verification/DashState.v ===== *)
(** * DashState: the dashboard page as a state machine, [src/public/main.js]

    The module-level [state] object (lines 38-48), the countdown
    ([countdownSeconds], [countdownTimer], lines 50-51), the live viewer
    stream and the minimap modal, with the handlers that change them:
    the menus and the search box (lines 343-391, 436-449),
    [startCountdown] (lines 286-305), [fetchStats] (lines 307-341), the
    viewer stream (lines 393-416) and the modal (lines 418-473).  The
    page is one record [DState]; each browser event is a step [dstep].
    What the page shows is part of the state: the content of the
    container, the status texts, the button labels.

    A [fetch] is two events: the request, issued by [fetchStats], and its
    completion [FetchDone] with the response of the [/stats] route as
    [HttpApi] models it; the JSON body of a server entry is [to_dserver]
    of the stored [Snapshot], the PNG data URL of its minimap being the
    parameter [dataUrl].  The intervals the page runs are explicit: a
    cleared interval never fires. *)

From Stdlib Require Import String ZArith List Lia Bool Permutation.
From S2P Require Import Prelude Geo Leaderboard Minimap Session Orchestrator HttpApi DashText DashView.
Import ListNotations.
Open Scope Z_scope.

Import App.

(** ** The JSON of a stored entry *)

Section Json.

(** [canvas.toDataURL("image/png")] of the minimap (socketClient.js,
    line 339). *)
Variable dataUrl : Minimap -> list Z.

Definition units_opt (s : option string) : option (list Z) := option_map units s.

Definition geo_field (f : Geo -> option string) (g : option Geo) : option (list Z) :=
  match g with Some g => units_opt (f g) | None => None end.

(** An entry of [data.servers]: the object of index.js lines 157-173
    after [JSON.stringify] and [JSON.parse], a NaN score being [null]. *)
Definition to_dserver (s : Snapshot) : DServer :=
  mkDServer (Some (units (s_ip s))) (Some (s_port s)) (Some (s_cluster s))
            (geo_field countryCode (s_geo s)) (geo_field countryName (s_geo s)) (geo_field continentName (s_geo s))
            (Some (s_timestamp s)) (Some (totalPlayers (s_stats s))) (totalScore (s_stats s))
            (Some (dataUrl (s_minimap s)))
            (map (fun e => mkDEntry (Some (rank e)) (Some (name e)) (escore e)) (leaderboard (s_stats s))).

End Json.

(** ** The page *)

Definition REFRESH_DEFAULT_SECONDS : Z := 120.

(** What [#stats-container] holds: the page's initial markup, the cards
    of these servers, the empty message of [renderStats], or an error. *)
Inductive Content := Initial | Cards (servers : list DServer) | EmptyMessage | ErrorMessage (message : list Z).

(** The object [state] (lines 38-48). *)
Record PageState := mkPS {
  allServers : list DServer; filtered : list DServer; region : list Z; sort : list Z; searchTerm : list Z;
  refreshIntervalSeconds : Z; totalServers : Z; lastUpdated : option (list Z); liveViewers : Z }.

(** [countdownSeconds] and [countdownTimer] (lines 50-51), with the
    intervals running, by id, and the next id [setInterval] returns. *)
Record Countdown := mkCD { countdownSeconds : Z; countdownTimer : option nat; intervals : list nat; next_timer : nat }.

(** The requests: the [fetch] calls made ([true] for [?refresh=1]), those
    not completed, the [EventSource] [viewerSource] (line 52) and the
    reconnections waiting in a [setTimeout]. *)
Record Net := mkNet { requests : list bool; inflight : nat; viewerSource : bool; reconnects : nat }.

(** What the page shows: the container, the three status lines, the two
    dropdown buttons and whether their menus are open, and the minimap
    modal ([minimapModalVisible], line 53) with its title and image. *)
Record Dom := mkDom {
  container : Content; summaryText : list Z; viewersText : list Z; refreshText : list Z;
  regionBtnText : list Z; sortBtnText : list Z; regionOpen : bool; sortOpen : bool;
  modal : option (list Z * list Z) }.

Record DState := mkDS { ps : PageState; cd : Countdown; net : Net; dom : Dom }.

(** [REGION_OPTIONS] and [SORT_OPTIONS] (lines 17-33): ids and labels. *)
Definition REGION_OPTIONS : list (list Z * list Z) :=
  map (fun s => (units s, units s)) ["ALL"; "Europe"; "Asia"; "North America"; "South America"; "Oceania"; "Africa"]%string.

Definition SORT_OPTIONS : list (list Z * list Z) :=
  [(units "players", units "Most players"); (units "top1", units "#1 score"); (units "top10", units "#10 score");
   (units "totalScore", units "Total score"); (units "region", units "Region (A-Z)")].

(** [OPTIONS.find((option) => option.id === id)?.label ?? dflt]. *)
Definition option_label (options : list (list Z * list Z)) (id dflt : list Z) : list Z :=
  match find (fun o => list_Z_eqb (fst o) id) options with Some o => snd o | None => dflt end.

Definition getSortLabel (p : PageState) : list Z := option_label SORT_OPTIONS (sort p) (units "Players").
Definition getRegionLabel (p : PageState) : list Z := option_label REGION_OPTIONS (region p) (units "ALL").

Section Page.

(** The browser: its [Array.prototype.sort], [localeCompare],
    [Intl.NumberFormat] and the PNG encoding of the server's canvas. *)
Context `{ArraySort}.
Variable localeCompare : list Z -> list Z -> Z.
Variable format : Z -> list Z.
Variable dataUrl : Minimap -> list Z.

(** [updateStatus()] (lines 226-237). *)
Definition updateStatus (p : PageState) (c : Countdown) (d : Dom) : Dom :=
  let n := Z.of_nat (length (filtered p)) in
  let showingAll := list_Z_eqb (region p) (units "ALL") && (n =? totalServers p) &&
                    match searchTerm p with [] => true | _ => false end in
  let summary :=
    if showingAll then units "Showing all servers (" ++ units (js_dec n) ++ units ") sorted by " ++ getSortLabel p ++ units "."
    else units "Showing " ++ units (js_dec n) ++ units " of " ++ units (js_dec (totalServers p)) ++ units " server" ++
         (if n =? 1 then [] else units "s") ++ units " (Region: " ++ getRegionLabel p ++ units ") sorted by " ++
         getSortLabel p ++
         match searchTerm p with [] => [] | t => units " - search: " ++ [34] ++ escapeHtml (Some t) ++ [34] end ++
         units "." in
  mkDom (container d) summary (units "Online viewers: " ++ formatNumber format (Some (liveViewers p)))
        (units "Refreshing in: " ++ units (js_dec (Z.max 0 (countdownSeconds c))) ++ units "s")
        (regionBtnText d) (sortBtnText d) (regionOpen d) (sortOpen d) (modal d).

(** [renderStats(servers)] (lines 209-216). *)
Definition renderStats (servers : list DServer) : Content :=
  match servers with [] => EmptyMessage | _ => Cards servers end.

(** [applyFilters()] (lines 252-280). *)
Definition applyFilters_page (st : DState) : DState :=
  let p := ps st in
  let out := applyFilters localeCompare (allServers p) (region p) (sort p) (searchTerm p) in
  let p' := mkPS (allServers p) out (region p) (sort p) (searchTerm p) (refreshIntervalSeconds p)
                 (totalServers p) (lastUpdated p) (liveViewers p) in
  let d := dom st in
  let d' := mkDom (renderStats out) (summaryText d) (viewersText d) (refreshText d) (regionBtnText d)
                  (sortBtnText d) (regionOpen d) (sortOpen d) (modal d) in
  mkDS p' (cd st) (net st) (updateStatus p' (cd st) d').

(** [closeDropdowns()] and [updateDropdownLabels()] (lines 239-250,
    282-284); the active classes follow [state.region] and
    [state.sort]. *)
Definition close_and_label (p : PageState) (d : Dom) : Dom :=
  mkDom (container d) (summaryText d) (viewersText d) (refreshText d)
        (if list_Z_eqb (region p) (units "ALL") then units "Select Region" else units "Region: " ++ getRegionLabel p)
        (units "Sort (" ++ getSortLabel p ++ units ")") false false (modal d).

Definition with_ps (p : PageState) (st : DState) : DState := mkDS p (cd st) (net st) (dom st).

Definition set_region (r : list Z) (p : PageState) : PageState :=
  mkPS (allServers p) (filtered p) r (sort p) (searchTerm p) (refreshIntervalSeconds p) (totalServers p) (lastUpdated p) (liveViewers p).
Definition set_sort (r : list Z) (p : PageState) : PageState :=
  mkPS (allServers p) (filtered p) (region p) r (searchTerm p) (refreshIntervalSeconds p) (totalServers p) (lastUpdated p) (liveViewers p).
Definition set_search (t : list Z) (p : PageState) : PageState :=
  mkPS (allServers p) (filtered p) (region p) (sort p) t (refreshIntervalSeconds p) (totalServers p) (lastUpdated p) (liveViewers p).

(** The click handlers of the two menus (lines 347-363): [None] when
    the click is not on an option button. *)
Definition region_click (id : option (list Z)) (st : DState) : DState :=
  match id with
  | None => st
  | Some r => let p := set_region r (ps st) in applyFilters_page (mkDS p (cd st) (net st) (close_and_label p (dom st)))
  end.

Definition sort_click (id : option (list Z)) (st : DState) : DState :=
  match id with
  | None => st
  | Some r => let p := set_sort r (ps st) in applyFilters_page (mkDS p (cd st) (net st) (close_and_label p (dom st)))
  end.

(** [handleSearch()] (lines 388-391), on a click of the search button
    or Enter in the box. *)
Definition handleSearch (value : list Z) (st : DState) : DState :=
  applyFilters_page (with_ps (set_search (js_trim value) (ps st)) st).

(** The [input] handler of the search box (lines 444-449). *)
Definition search_input (value : list Z) (st : DState) : DState :=
  match js_trim value, searchTerm (ps st) with
  | [], _ :: _ => applyFilters_page (with_ps (set_search [] (ps st)) st)
  | _, _ => st
  end.

Definition with_dom (d : Dom) (st : DState) : DState := mkDS (ps st) (cd st) (net st) d.

Definition set_open (ro so : bool) (d : Dom) : Dom :=
  mkDom (container d) (summaryText d) (viewersText d) (refreshText d) (regionBtnText d) (sortBtnText d) ro so (modal d).

(** The two dropdown buttons (lines 365-377) and a click elsewhere in
    the document (lines 379-383). *)
Definition region_btn (st : DState) : DState := with_dom (set_open (negb (regionOpen (dom st))) false (dom st)) st.
Definition sort_btn (st : DState) : DState := with_dom (set_open false (negb (sortOpen (dom st))) (dom st)) st.
Definition doc_click (in_dropdown : bool) (st : DState) : DState :=
  if in_dropdown then st else with_dom (set_open false false (dom st)) st.

(** [clearInterval(countdownTimer); countdownTimer = null]. *)
Definition clear_countdown (c : Countdown) : Countdown :=
  match countdownTimer c with
  | Some t => mkCD (countdownSeconds c) None (filter (fun x => negb (Nat.eqb x t)) (intervals c)) (next_timer c)
  | None => c
  end.

(** [startCountdown(seconds)] (lines 286-305); the seconds are a whole
    number, so [Math.round] keeps them. *)
Definition startCountdown (seconds : Z) (st : DState) : DState :=
  let c := clear_countdown (mkCD (Z.max 1 seconds) (countdownTimer (cd st)) (intervals (cd st)) (next_timer (cd st))) in
  let d := updateStatus (ps st) c (dom st) in
  let t := next_timer c in
  mkDS (ps st) (mkCD (countdownSeconds c) (Some t) (intervals c ++ [t]) (S t)) (net st) d.

(** [fetchStats(forceRefresh)] up to its [await fetch(url)]. *)
Definition fetchStats (forceRefresh : bool) (st : DState) : DState :=
  let n := net st in
  mkDS (ps st) (cd st) (mkNet (requests n ++ [forceRefresh]) (S (inflight n)) (viewerSource n) (reconnects n)) (dom st).

(** One second of the countdown interval [t] (lines 295-304). *)
Definition tick (t : nat) (st : DState) : DState :=
  if existsb (Nat.eqb t) (intervals (cd st)) then
    let c := cd st in
    let secs := countdownSeconds c - 1 in
    if secs <=? 0 then
      fetchStats true (mkDS (ps st) (clear_countdown (mkCD secs (countdownTimer c) (intervals c) (next_timer c))) (net st) (dom st))
    else
      let c' := mkCD secs (countdownTimer c) (intervals c) (next_timer c) in
      mkDS (ps st) c' (net st) (updateStatus (ps st) c' (dom st))
  else st.

(** How a [fetch] ends: rejected (a network error), or a response with
    its status and the body of the [/stats] route. *)
Inductive FetchResult := Rejected | Responded (status : Z) (body : Response).

(** The [catch] block of [fetchStats] (lines 332-340). *)
Definition fetch_failed (message : list Z) (st : DState) : DState :=
  let d := dom st in
  mkDS (ps st) (clear_countdown (cd st)) (net st)
       (mkDom (ErrorMessage (escapeHtml (Some message))) (units "Unable to load server stats.") (viewersText d)
              (units "Refreshing halted") (regionBtnText d) (sortBtnText d) (regionOpen d) (sortOpen d) (modal d)).

(** Lines 319-331 with the body of a [200] response. *)
Definition fetch_loaded (b : StatsBody) (st : DState) : DState :=
  let p := ps st in
  let p' := mkPS (map (to_dserver dataUrl) (servers b)) (filtered p) (region p) (sort p) (searchTerm p)
                 (App.refreshIntervalSeconds b) (Z.of_nat (serverCount b)) (Some (units (updatedAt b))) (onlineViewers b) in
  let st' := applyFilters_page (with_ps p' st) in
  startCountdown (refreshIntervalSeconds (ps st')) st'.

(** The completion of one pending [fetch] (lines 310-341). *)
Definition fetch_done (r : FetchResult) (st : DState) : DState :=
  match inflight (net st) with
  | O => st
  | S k =>
      let n := net st in
      let st := mkDS (ps st) (cd st) (mkNet (requests n) k (viewerSource n) (reconnects n)) (dom st) in
      match r with
      | Rejected => fetch_failed (units "Failed to fetch") st
      | Responded status body =>
          if negb ((200 <=? status) && (status <? 300)) then fetch_failed (units "HTTP " ++ units (js_dec status)) st
          else
            match body with
            | Collecting _ _ => fetch_failed (units "No server data yet. Try refreshing.") st
            | StatsOk b => fetch_loaded b st
            end
      end
  end.

(** The viewer stream (lines 393-416): a message with a numeric
    [viewerCount] ([None]: none, or a payload that does not parse), an
    error, and the reconnection five seconds later. *)
Definition viewer_message (count : option Z) (st : DState) : DState :=
  match count with
  | Some v =>
      let p := ps st in
      let p' := mkPS (allServers p) (filtered p) (region p) (sort p) (searchTerm p) (refreshIntervalSeconds p)
                     (totalServers p) (lastUpdated p) v in
      mkDS p' (cd st) (net st) (updateStatus p' (cd st) (dom st))
  | None => st
  end.

Definition viewer_error (st : DState) : DState :=
  let n := net st in mkDS (ps st) (cd st) (mkNet (requests n) (inflight n) false (S (reconnects n))) (dom st).

Definition viewer_reconnect (st : DState) : DState :=
  let n := net st in
  match reconnects n with
  | O => st
  | S k => mkDS (ps st) (cd st) (mkNet (requests n) (inflight n) true k) (dom st)
  end.

Definition set_modal (m : option (list Z * list Z)) (d : Dom) : Dom :=
  mkDom (container d) (summaryText d) (viewersText d) (refreshText d) (regionBtnText d) (sortBtnText d)
        (regionOpen d) (sortOpen d) m.

(** [openMinimapModal] and [closeMinimapModal] (lines 418-433). *)
Definition openMinimapModal (ip src : list Z) (st : DState) : DState :=
  match src with [] => st | _ => with_dom (set_modal (Some (ip, src)) (dom st)) st end.

Definition closeMinimapModal (st : DState) : DState :=
  match modal (dom st) with None => st | Some _ => with_dom (set_modal None (dom st)) st end.

(** A click in the container (lines 451-459): on a zoom button, enabled
    or not, with its [data-ip] and [data-minimap]. *)
Definition zoom_click (button : option (bool * option (list Z) * option (list Z))) (st : DState) : DState :=
  match button with
  | Some (false, ip, src) =>
      match or_else src [] with [] => st | s => openMinimapModal (or_else ip []) s st end
  | _ => st
  end.

(** The events of the page.  The [message] and [error] events of the
    [EventSource] fire only while it is open: a closed source fires
    nothing. *)
Inductive DEvent :=
  | RegionClick (id : option (list Z)) | SortClick (id : option (list Z))
  | RegionBtn | SortBtn | DocClick (in_dropdown : bool)
  | SearchSubmit (value : list Z) | SearchInput (value : list Z)
  | RefreshClick | Tick (t : nat) | FetchDone (r : FetchResult)
  | ViewerMessage (count : option Z) | ViewerError | ViewerReconnect
  | ZoomClick (button : option (bool * option (list Z) * option (list Z)))
  | ModalClose | ModalBackdrop (on_modal : bool) | Escape.

Definition dstep (st : DState) (ev : DEvent) : DState :=
  match ev with
  | RegionClick id => region_click id st
  | SortClick id => sort_click id st
  | RegionBtn => region_btn st
  | SortBtn => sort_btn st
  | DocClick b => doc_click b st
  | SearchSubmit v => handleSearch v st
  | SearchInput v => search_input v st
  | RefreshClick => fetchStats true st
  | Tick t => tick t st
  | FetchDone r => fetch_done r st
  | ViewerMessage c => if viewerSource (net st) then viewer_message c st else st
  | ViewerError => if viewerSource (net st) then viewer_error st else st
  | ViewerReconnect => viewer_reconnect st
  | ZoomClick b => zoom_click b st
  | ModalClose => closeMinimapModal st
  | ModalBackdrop b => if b then closeMinimapModal st else st
  | Escape => closeMinimapModal (doc_click false st)
  end.

(** The page once its script has run (lines 479-481): the menus
    labelled, the viewer stream open, the first [fetchStats(true)]
    pending. *)
Definition init_dstate : DState :=
  let p := mkPS [] [] (units "ALL") (units "players") [] REFRESH_DEFAULT_SECONDS 0 None 0 in
  mkDS p (mkCD REFRESH_DEFAULT_SECONDS None [] 0) (mkNet [true] 1 true 0)
       (close_and_label p (mkDom Initial [] [] [] [] [] false false None)).

Inductive dreach : DState -> Prop :=
  | dreach_init : dreach init_dstate
  | dreach_step st ev : dreach st -> dreach (dstep st ev).

End Page.

(** ** The markup of the container

    What [#stats-container] holds as markup: the cards of [renderStats]
    (line 215, [now] being [Date.now()] and [searchTerm] the state's when
    they are built), its empty message (line 211), or the error of
    [fetchStats] (line 333); the initial markup is the page's, outside
    the sources. *)
Definition container_html (format localeTime : Z -> list Z) (now : Z) (searchTerm : list Z) (c : Content)
    : option (list Piece) :=
  match c with
  | Initial => None
  | Cards servers => Some (flat_map (buildCard format localeTime searchTerm now) servers)
  | EmptyMessage =>
      Some [Lit (tpl "<p class=`empty-message`>No servers match the current filters. Try a different region or search.</p>")]
  | ErrorMessage m => Some [Lit (tpl "<p class=`error`>Error: "); Val m; Lit (tpl "</p>")]
  end.

(** The container injects no markup when its servers' raw values hold
    none and its error message is escaped. *)
Lemma container_safe format localeTime now searchTerm c ps :
  (forall z, markup_free (format z) = true) ->
  (forall s, (exists l, c = Cards l /\ In s l) ->
     (forall cc, d_countryCode s = Some cc -> markup_free cc = true) /\
     (forall m, d_minimap s = Some m -> markup_free m = true)) ->
  (forall m, c = ErrorMessage m -> markup_free m = true) ->
  container_html format localeTime now searchTerm c = Some ps -> Forall piece_ok ps.
Proof.
  intros Hf Hs He Hc. destruct c as [|l| |m]; cbn in Hc; inversion Hc; subst; clear Hc.
  - apply Forall_flat_map. apply Forall_forall. intros s Hin.
    destruct (Hs s (ex_intro _ l (conj eq_refl Hin))) as [H1 H2]. apply buildCard_ok; assumption.
  - repeat constructor.
  - repeat constructor. apply He. reflexivity.
Qed.

(** ** Invariants *)

Section Invariants.

Context `{ArraySort}.
Variable localeCompare : list Z -> list Z -> Z.
Variable format : Z -> list Z.
Variable dataUrl : Minimap -> list Z.

Local Abbreviation dstep := (dstep localeCompare format dataUrl).

(** At most one interval runs, the countdown's, and while it runs the
    countdown is at least one second. *)
Definition timer_inv (c : Countdown) : Prop :=
  intervals c = match countdownTimer c with Some t => [t] | None => [] end /\
  (countdownTimer c <> None -> 1 <= countdownSeconds c).

(** The live-viewer stream: the [EventSource] is open and no
    reconnection waits, or it is closed and exactly one [setTimeout] of
    [initLiveViewerStream] waits. *)
Definition stream_inv (n : Net) : Prop :=
  (viewerSource n = true /\ reconnects n = 0%nat) \/ (viewerSource n = false /\ reconnects n = 1%nat).

(** The list the page holds is the filtered and sorted list of the
    servers it received, for the region, sort and search it shows. *)
Definition view_inv (p : PageState) : Prop :=
  filtered p = applyFilters localeCompare (allServers p) (region p) (sort p) (searchTerm p).

Lemma clear_countdown_inv c :
  intervals c = match countdownTimer c with Some t => [t] | None => [] end ->
  countdownTimer (clear_countdown c) = None /\ intervals (clear_countdown c) = [].
Proof.
  intros Hi. unfold clear_countdown. destruct (countdownTimer c) as [t|] eqn:E; [|split; assumption].
  rewrite Hi. simpl. rewrite Nat.eqb_refl. split; reflexivity.
Qed.

Lemma clear_countdown_timer_inv c :
  intervals c = match countdownTimer c with Some t => [t] | None => [] end -> timer_inv (clear_countdown c).
Proof. intros Hc. destruct (clear_countdown_inv c Hc) as [E1 E2]. split; [rewrite E1, E2; reflexivity | congruence]. Qed.

(** [startCountdown] stops the running interval and starts one new
    interval, its timer, from [Math.max(1, seconds)]. *)
Lemma startCountdown_running secs st :
  timer_inv (cd st) ->
  countdownSeconds (cd (startCountdown format secs st)) = Z.max 1 secs /\
  (exists t, countdownTimer (cd (startCountdown format secs st)) = Some t /\ intervals (cd (startCountdown format secs st)) = [t]) /\
  ps (startCountdown format secs st) = ps st /\ container (dom (startCountdown format secs st)) = container (dom st).
Proof.
  intros [H1 _]. unfold startCountdown. cbv zeta.
  set (c := clear_countdown _).
  destruct (clear_countdown_inv (mkCD (Z.max 1 secs) (countdownTimer (cd st)) (intervals (cd st)) (next_timer (cd st))) H1)
    as [_ E]. fold c in E.
  assert (Hs : countdownSeconds c = Z.max 1 secs) by (unfold c, clear_countdown; simpl; destruct (countdownTimer (cd st)); reflexivity).
  cbn [intervals countdownTimer countdownSeconds cd ps dom]. rewrite E, Hs.
  split; [reflexivity | split; [eexists; split; reflexivity | split; reflexivity]].
Qed.

Lemma startCountdown_cd secs st :
  timer_inv (cd st) -> timer_inv (cd (startCountdown format secs st)) /\ ps (startCountdown format secs st) = ps st.
Proof.
  intros Hc. destruct (startCountdown_running secs st Hc) as (Hs & (t & Et & Ei) & Hp & _).
  split; [|exact Hp]. split; [rewrite Et, Ei; reflexivity | rewrite Hs; lia].
Qed.

Lemma tick_cd t st : timer_inv (cd st) -> timer_inv (cd (tick format t st)) /\ ps (tick format t st) = ps st.
Proof.
  intros Hc. unfold tick. destruct (existsb (Nat.eqb t) (intervals (cd st))) eqn:Ein; [|split; [exact Hc | reflexivity]].
  destruct Hc as [Hi Hs].
  assert (Ht : countdownTimer (cd st) <> None)
    by (intros E; rewrite E in Hi; rewrite Hi in Ein; discriminate).
  destruct (Z.leb_spec (countdownSeconds (cd st) - 1) 0).
  - unfold fetchStats. cbn [cd ps]. split; [|reflexivity]. apply clear_countdown_timer_inv. exact Hi.
  - cbn [cd ps]. split; [|reflexivity]. split; [exact Hi | simpl; lia].
Qed.

Lemma fetch_done_cd r st :
  timer_inv (cd st) -> timer_inv (cd (fetch_done localeCompare format dataUrl r st)).
Proof.
  intros Hc. unfold fetch_done. destruct (inflight (net st)) as [|k]; [exact Hc|].
  assert (Hf : forall m (s : DState), timer_inv (cd s) -> timer_inv (cd (fetch_failed m s)))
    by (intros m s Hs; unfold fetch_failed; apply clear_countdown_timer_inv, (proj1 Hs)).
  destruct r as [|status body]; [apply Hf, Hc|].
  destruct (negb ((200 <=? status) && (status <? 300))); [apply Hf, Hc|]. destruct body as [m secs|b]; [apply Hf, Hc|].
  unfold fetch_loaded. apply startCountdown_cd. exact Hc.
Qed.

Lemma apf_cd st : cd (applyFilters_page localeCompare format st) = cd st.
Proof. reflexivity. Qed.

Lemma apf_view st : view_inv (ps (applyFilters_page localeCompare format st)).
Proof. reflexivity. Qed.

(** Case analysis on the handlers that only touch the page's markup or
    the network state. *)
Ltac dom_cases :=
  unfold doc_click, viewer_reconnect, closeMinimapModal, zoom_click, openMinimapModal, search_input;
  repeat match goal with |- context [match ?x with _ => _ end] => destruct x end.

Lemma timer_step st ev : timer_inv (cd st) -> timer_inv (cd (dstep st ev)).
Proof.
  intros Hc. destruct ev as [[id|]|[id|]| | |d|v1|v2| |t|r|[v|]| | |b| |[|]|]; cbn [DashState.dstep];
    try exact Hc; try (apply (tick_cd t st Hc)); try (apply fetch_done_cd, Hc); dom_cases; exact Hc.
Qed.

Lemma fetch_done_view r st : timer_inv (cd st) -> view_inv (ps st) -> view_inv (ps (fetch_done localeCompare format dataUrl r st)).
Proof.
  intros Hc Hv. unfold fetch_done. destruct (inflight (net st)) as [|k]; [exact Hv|].
  destruct r as [|status body]; [exact Hv|]. destruct (negb ((200 <=? status) && (status <? 300))); [exact Hv|]. destruct body as [m secs|b]; [exact Hv|].
  unfold fetch_loaded. cbv zeta.
  match goal with |- view_inv (ps (startCountdown _ ?secs ?s)) => rewrite (proj2 (startCountdown_cd secs s Hc)) end.
  apply apf_view.
Qed.

Lemma view_step st ev : timer_inv (cd st) -> view_inv (ps st) -> view_inv (ps (dstep st ev)).
Proof.
  intros Hc Hv. destruct ev as [[id|]|[id|]| | |d|v1|v2| |t|r|[v|]| | |b| |[|]|]; cbn [DashState.dstep];
    try exact Hv; try apply apf_view; try (rewrite (proj2 (tick_cd t st Hc)); exact Hv);
    try (apply fetch_done_view; assumption); dom_cases; first [exact Hv | apply apf_view].
Qed.

Lemma stream_step st ev : stream_inv (net st) -> stream_inv (net (dstep st ev)).
Proof.
  intros Hn. destruct ev; cbn [DashState.dstep];
    unfold region_click, sort_click, handleSearch, search_input, region_btn, sort_btn, doc_click, tick, fetch_done,
      fetch_failed, fetch_loaded, startCountdown, fetchStats, viewer_message, viewer_error, viewer_reconnect,
      zoom_click, openMinimapModal, closeMinimapModal, with_dom; cbv zeta;
    destruct Hn as [[H1 H2]|[H1 H2]]; rewrite ?H1, ?H2;
    repeat match goal with |- context [match ?x with _ => _ end] => destruct x end;
    unfold stream_inv; cbn; rewrite ?H1, ?H2; tauto.
Qed.

Lemma js_sort_nil {A} (cmp : A -> A -> Z) : consistent cmp -> js_sort cmp [] = [].
Proof. intros Hc. destruct (js_sort_spec cmp [] Hc) as [Hp _]. apply Permutation_nil, Permutation_sym, Hp. Qed.

Lemma dreach_timer st : dreach localeCompare format dataUrl st -> timer_inv (cd st).
Proof. induction 1; [split; [reflexivity | simpl; congruence] | apply timer_step; assumption]. Qed.

Lemma dreach_stream st : dreach localeCompare format dataUrl st -> stream_inv (net st).
Proof. induction 1; [left; split; reflexivity | apply stream_step; assumption]. Qed.

(** C19: The dashboard stays consistent.  Whatever the user does and
    whatever the network answers, in every state of the page the list it
    holds is [applyFilters] of the servers it received for the region,
    sort and search it shows; at most one interval runs, the
    countdown's, and while it runs the countdown is at least a second;
    and the live-viewer stream is either open with no reconnection
    pending or closed with exactly one reconnection scheduled. *)
Theorem dashboard_consistent (st : DState) :
  consistent localeCompare -> dreach localeCompare format dataUrl st ->
  filtered (ps st) = applyFilters localeCompare (allServers (ps st)) (region (ps st)) (sort (ps st)) (searchTerm (ps st)) /\
  intervals (cd st) = match countdownTimer (cd st) with Some t => [t] | None => [] end /\
  (countdownTimer (cd st) <> None -> 1 <= countdownSeconds (cd st)) /\
  ((viewerSource (net st) = true /\ reconnects (net st) = 0%nat) \/
   (viewerSource (net st) = false /\ reconnects (net st) = 1%nat)).
Proof.
  intros Hl Hr. destruct (dreach_timer st Hr) as [Hi Hs].
  split; [|split; [exact Hi | split; [exact Hs | apply dreach_stream, Hr]]]. clear Hi Hs.
  induction Hr as [|st ev Hr IH].
  - symmetry. apply js_sort_nil, sorter_consistent, Hl.
  - apply view_step; [apply dreach_timer, Hr | exact IH].
Qed.

(** C20: A [202] stops the dashboard.  While the server has no stats yet,
    [/stats] answers [202] with a message and no [servers]; the page
    then shows the error [No server data yet. Try refreshing.], says
    [Refreshing halted], and no interval is left: no tick will ever
    fetch again, only a click of the refresh button does. *)
Theorem collecting_halts (st : DState) (now : string) (count : Z) :
  dreach localeCompare format dataUrl st -> (0 < inflight (net st))%nat ->
  let r := stats_response now [] count in
  let st' := dstep st (FetchDone (Responded (status_of r) r)) in
  container (dom st') = ErrorMessage (escapeHtml (Some (units "No server data yet. Try refreshing."))) /\
  refreshText (dom st') = units "Refreshing halted" /\ countdownTimer (cd st') = None /\ intervals (cd st') = [] /\
  forall t, dstep st' (Tick t) = st'.
Proof.
  intros Hr Hn. destruct (dreach_timer st Hr) as [Hi _]. cbv zeta. cbn [DashState.dstep].
  unfold fetch_done. destruct (inflight (net st)) as [|k]; [lia|]. cbn -[escapeHtml units clear_countdown].
  destruct (clear_countdown_inv (cd st) Hi) as [E1 E2].
  split; [reflexivity|]. split; [reflexivity|]. split; [exact E1|]. split; [exact E2|].
  intros t. cbn [DashState.dstep]. unfold tick, fetch_failed. cbn [cd]. rewrite E2. reflexivity.
Qed.

(** C21: The page shows what the server stored.  When a pending [fetch]
    of the page is answered by the [/stats] route over a store holding
    entries, the page keeps exactly those entries (as [JSON.parse] reads
    them), their number, the viewer count and the time of the answer;
    its list is [applyFilters] of them for the region, sort and search it
    shows, and the container shows that list; the countdown restarts from
    the [refreshIntervalSeconds] of the answer, [120], with one interval
    running. *)
Theorem stats_shown (st : DState) (now : string) (o : Store) (count : Z) :
  dreach localeCompare format dataUrl st -> (0 < inflight (net st))%nat -> store_values o <> [] ->
  let r := stats_response now o count in
  let st' := dstep st (FetchDone (Responded (status_of r) r)) in
  allServers (ps st') = map (to_dserver dataUrl) (store_values o) /\
  totalServers (ps st') = Z.of_nat (length (store_values o)) /\
  liveViewers (ps st') = count /\ lastUpdated (ps st') = Some (units now) /\
  filtered (ps st') = applyFilters localeCompare (allServers (ps st')) (region (ps st)) (sort (ps st)) (searchTerm (ps st)) /\
  container (dom st') = renderStats (filtered (ps st')) /\
  countdownSeconds (cd st') = 120 /\
  exists t, countdownTimer (cd st') = Some t /\ intervals (cd st') = [t].
Proof.
  intros Hr Hn Ho. pose proof (dreach_timer st Hr) as Hc. cbv zeta. cbn [DashState.dstep].
  unfold fetch_done. destruct (inflight (net st)) as [|k]; [lia|].
  unfold stats_response, stats_list. destruct (store_values o) as [|s l] eqn:E; [congruence|].
  cbn [status_of]. change (negb ((200 <=? 200) && (200 <? 300))) with false. cbv iota. unfold fetch_loaded. cbv zeta.
  match goal with |- context [startCountdown _ ?secs ?s] =>
    destruct (startCountdown_running secs s Hc) as (Hs & Ht & Hp & Hd) end.
  rewrite Hp, Hd, Hs. cbn [ps dom applyFilters_page with_ps allServers totalServers liveViewers lastUpdated filtered
                            region sort searchTerm container App.refreshIntervalSeconds serverCount onlineViewers updatedAt servers].
  repeat split; try reflexivity. exact Ht.
Qed.

End Invariants.

Lemma dashboard_consistent_witness :
  let st := dstep (fun _ _ => 0) (fun _ => []) (fun _ => []) init_dstate (SortClick (Some (units "top1"))) in
  filtered (ps st) = applyFilters (fun _ _ => 0) (allServers (ps st)) (region (ps st)) (sort (ps st)) (searchTerm (ps st)) /\
  intervals (cd st) = match countdownTimer (cd st) with Some t => [t] | None => [] end /\
  (countdownTimer (cd st) <> None -> 1 <= countdownSeconds (cd st)) /\
  ((viewerSource (net st) = true /\ reconnects (net st) = 0%nat) \/
   (viewerSource (net st) = false /\ reconnects (net st) = 1%nat)).
Proof.
  apply (dashboard_consistent (fun _ _ => 0) (fun _ => []) (fun _ => [])); [split; intros; lia|].
  apply dreach_step, dreach_init.
Defined.

Lemma collecting_halts_witness :
  let r := stats_response "t0" [] 0 in
  let st' := dstep (fun _ _ => 0) (fun _ => []) (fun _ => []) init_dstate (FetchDone (Responded (status_of r) r)) in
  container (dom st') = ErrorMessage (escapeHtml (Some (units "No server data yet. Try refreshing."))) /\
  refreshText (dom st') = units "Refreshing halted" /\ countdownTimer (cd st') = None /\ intervals (cd st') = [] /\
  forall t, dstep (fun _ _ => 0) (fun _ => []) (fun _ => []) st' (Tick t) = st'.
Proof.
  apply (collecting_halts (fun _ _ => 0) (fun _ => []) (fun _ => [])); [apply dreach_init | simpl; lia].
Defined.

Lemma stats_shown_witness :
  let o := [("1.2.3.4:444"%string, example_snap 5)] in
  let r := stats_response "t0" o 3 in
  let st' := dstep (fun _ _ => 0) (fun _ => []) (fun _ => []) init_dstate (FetchDone (Responded (status_of r) r)) in
  allServers (ps st') = map (to_dserver (fun _ => [])) (store_values o) /\
  totalServers (ps st') = Z.of_nat (length (store_values o)) /\
  liveViewers (ps st') = 3 /\ lastUpdated (ps st') = Some (units "t0") /\
  filtered (ps st') = applyFilters (fun _ _ => 0) (allServers (ps st')) (region (ps init_dstate)) (sort (ps init_dstate))
                                   (searchTerm (ps init_dstate)) /\
  container (dom st') = renderStats (filtered (ps st')) /\
  countdownSeconds (cd st') = 120 /\
  exists t, countdownTimer (cd st') = Some t /\ intervals (cd st') = [t].
Proof.
  apply (stats_shown (fun _ _ => 0) (fun _ => []) (fun _ => [])); [apply dreach_init | simpl; lia | discriminate].
Defined.
